(** * nauth React example: session orchestration core

    A shallow embedding of the client-side session logic of the React
    example application:

    - [RefreshingFetchAdapter] (lib/authHttpAdapter.ts): the HTTP adapter
      that refreshes the credentials on a 401 and retries once;
    - [AuthProvider] (context/AuthContext.tsx): the session controller;
    - [OAuthCallbackPage] and [ChallengePage] (pages/).

    JavaScript runs these on one event loop: a piece of code runs to
    completion until it reaches an [await] (or returns), and the
    continuation runs when the awaited promise settles.  The embedding
    makes this explicit: every synchronous segment of the source is a
    function on the state, and an [Event] says which promise settles (or
    which call arrives) next. *)

From Stdlib Require Import ZArith Lia.
From stdpp Require Import base option list strings gmap pretty.

Local Open Scope Z_scope.
Local Open Scope string_scope.
Local Open Scope nat_scope.
Local Open Scope list_scope.

(** ** JavaScript values shared by the modules *)

(** What a [catch (err)] can receive.  [NAuthClientError] is the SDK's
    error class (its [statusCode] is optional); anything else that is
    thrown is an [OtherError]. *)
Inductive JsError : Type :=
| NAuthClientError (statusCode : option Z) (message : string)
| OtherError (message : string).

(** How a promise of an [A] settles: rejected with an error, or fulfilled. *)
Definition Settlement (A : Type) : Type := JsError + A.

Definition rejected {A} (e : JsError) : Settlement A := inl e.
Definition fulfilled {A} (a : A) : Settlement A := inr a.

(** [String.prototype.includes]: [needle] occurs somewhere in [s]. *)
Fixpoint includes (s needle : string) : bool :=
  String.prefix needle s
  || match s with
     | EmptyString => false
     | String _ s' => includes s' needle
     end.

(** ** The refreshing HTTP adapter (lib/authHttpAdapter.ts) *)

Module RefreshingFetchAdapter.

Record HttpRequest : Type := {
  method : string;
  url : string;
  body : option string;
}.

Record HttpResponse : Type := {
  status : Z;
  data : string;
}.

(** The session client is an object of the SDK; only its identity matters
    here. *)
Inductive NAuthClient : Type := ClientRef (id : nat).

(** A promise created by [doRefresh] is named by the number of the
    [refreshTokens()] call it wraps. *)
Definition Handle : Type := nat.

(** Where a call of [request] is suspended. *)
Inductive Task : Type :=
| AwaitingInner (config : HttpRequest)
    (* line 45: await this.inner.request(config) *)
| AwaitingRefresh (config : HttpRequest) (h : Handle)
    (* line 52: await this.doRefresh() *)
| AwaitingRetry (config : HttpRequest)
    (* line 54: return this.inner.request(config) *)
| Settled (o : Settlement HttpResponse).

(** What the adapter does that can be seen from outside, in order. *)
Inductive Effect : Type :=
| InnerRequest (i : nat) (config : HttpRequest)
    (* call [i] of [request] invokes this.inner.request(config) *)
| RefreshTokens (h : Handle)
    (* this.client.refreshTokens() is invoked; its promise chain is [h] *)
| HandleCleared (h : Handle).
    (* the finally callback of [h] ran: this.refreshPromise = null *)

Record World : Type := {
  client : option NAuthClient;      (* this.client *)
  refreshPromise : option Handle;   (* this.refreshPromise *)
  tasks : list Task;                (* the calls of request(), by number *)
  inflight : list Handle;           (* refreshTokens() calls not yet settled *)
  nextHandle : Handle;
  trace : list Effect;
}.

Definition init (c : option NAuthClient) : World :=
  {| client := c; refreshPromise := None; tasks := [];
     inflight := []; nextHandle := 0; trace := [] |}.

Definition set_task (i : nat) (t : Task) (w : World) : World :=
  {| client := client w; refreshPromise := refreshPromise w;
     tasks := <[i:=t]> (tasks w);
     inflight := inflight w; nextHandle := nextHandle w; trace := trace w |}.

(** [setClient], lines 39-41. *)
Definition setClient (c : NAuthClient) (w : World) : World :=
  {| client := Some c; refreshPromise := refreshPromise w;
     tasks := tasks w;
     inflight := inflight w; nextHandle := nextHandle w; trace := trace w |}.

(** [doRefresh], lines 65-75.  It is private and its one call site is
    guarded by [canRefresh], so [this.client!] is never null here. *)
Definition doRefresh (w : World) : Handle * World :=
  match refreshPromise w with
  | Some h => (h, w)
  | None =>
      let h := nextHandle w in
      (h, {| client := client w; refreshPromise := Some h;
             tasks := tasks w;
             inflight := inflight w ++ [h]; nextHandle := S h;
             trace := trace w ++ [RefreshTokens h] |})
  end.

(** The tests of the catch block, lines 47-49. *)
Definition is401 (err : JsError) : bool :=
  match err with
  | NAuthClientError (Some code) _ => (code =? 401)%Z
  | _ => false
  end.

Definition isRefreshEndpoint (config : HttpRequest) : bool :=
  includes (url config) "/refresh".

Definition canRefresh (w : World) : bool :=
  match client w with Some _ => true | None => false end.

(** The catch block of [request], lines 46-58, up to its [await]. *)
Definition request_catch (i : nat) (config : HttpRequest) (err : JsError)
    (w : World) : World :=
  if is401 err && negb (isRefreshEndpoint config) && canRefresh w then
    let '(h, w') := doRefresh w in
    set_task i (AwaitingRefresh config h) w'
  else
    set_task i (Settled (rejected err)) w.

(** [request] from its call to its first [await], lines 43-45. *)
Definition request_call (config : HttpRequest) (w : World) : World :=
  {| client := client w; refreshPromise := refreshPromise w;
     tasks := tasks w ++ [AwaitingInner config];
     inflight := inflight w; nextHandle := nextHandle w;
     trace := trace w ++ [InnerRequest (length (tasks w)) config] |}.

(** The continuations of the calls that await handle [h], when it settles
    with [o]: on success line 54 re-issues the request, on failure the
    rejection leaves [request].  [i] is the number of the first call of
    [ts].  (JavaScript resumes the waiters in the order they started to
    wait; here they are resumed by call number, which only changes the
    order of the retries in the trace.) *)
Fixpoint resume (h : Handle) (o : Settlement unit) (i : nat) (ts : list Task)
    : list Task * list Effect :=
  match ts with
  | [] => ([], [])
  | t :: ts' =>
      let '(ts'', es) := resume h o (S i) ts' in
      match t with
      | AwaitingRefresh config h' =>
          if Nat.eqb h' h then
            match o with
            | inr _ => (AwaitingRetry config :: ts'', InnerRequest i config :: es)
            | inl e => (Settled (rejected e) :: ts'', es)
            end
          else (t :: ts'', es)
      | _ => (t :: ts'', es)
      end
  end.

Definition remove_handle (h : Handle) (hs : list Handle) : list Handle :=
  filter (λ h', h' ≠ h) hs.

(** The [refreshTokens()] call of handle [h] settles: [.then(() =>
    undefined)] keeps the outcome, the [finally] callback (lines 70-72)
    clears [this.refreshPromise], and then the waiters continue.  All of
    this happens in one run of the microtask queue. *)
Definition refresh_settles (h : Handle) (o : Settlement unit) (w : World)
    : World :=
  let '(ts, es) := resume h o 0 (tasks w) in
  {| client := client w; refreshPromise := None;
     tasks := ts;
     inflight := remove_handle h (inflight w); nextHandle := nextHandle w;
     trace := trace w ++ [HandleCleared h] ++ es |}.

Inductive Event : Type :=
| Call (config : HttpRequest)
    (* somebody calls adapter.request(config) *)
| InnerSettles (i : nat) (o : Settlement HttpResponse)
    (* the pending this.inner.request of call [i] settles *)
| RefreshSettles (h : Handle) (o : Settlement unit)
    (* the refreshTokens() call behind handle [h] settles *)
| SetClient (c : NAuthClient).

(** One turn of the event loop.  An event for something that is not
    pending cannot happen and leaves the world as it is. *)
Definition step (w : World) (ev : Event) : World :=
  match ev with
  | Call config => request_call config w
  | InnerSettles i o =>
      match tasks w !! i with
      | Some (AwaitingInner config) =>
          match o with
          | inr resp => set_task i (Settled (fulfilled resp)) w
          | inl err => request_catch i config err w
          end
      | Some (AwaitingRetry config) => set_task i (Settled o) w
      | _ => w
      end
  | RefreshSettles h o =>
      if bool_decide (h ∈ inflight w) then refresh_settles h o w else w
  | SetClient c => setClient c w
  end.

Definition run (w : World) (evs : list Event) : World := foldl step w evs.

(** *** Reading a trace *)

Definition is_inner_of (i : nat) (e : Effect) : bool :=
  match e with InnerRequest j _ => Nat.eqb j i | _ => false end.

Definition is_refresh_call (e : Effect) : bool :=
  match e with RefreshTokens _ => true | _ => false end.

Definition is_cleared (h : Handle) (e : Effect) : bool :=
  match e with HandleCleared h' => Nat.eqb h' h | _ => false end.

Definition count (p : Effect → bool) (tr : list Effect) : nat :=
  length (List.filter p tr).

(** How often call [i] invoked [this.inner.request]. *)
Definition inner_requests (i : nat) (w : World) : nat :=
  count (is_inner_of i) (trace w).

(** How often [refreshTokens()] was invoked. *)
Definition refresh_calls (w : World) : nat :=
  count is_refresh_call (trace w).

(** How often the finally callback of [h] ran. *)
Definition clears (h : Handle) (w : World) : nat :=
  count (is_cleared h) (trace w).

Definition outcome (i : nat) (w : World) : option (Settlement HttpResponse) :=
  match tasks w !! i with
  | Some (Settled o) => Some o
  | _ => None
  end.

(** *** The state of one call, and of the handle *)

(** What the settlement of handle [h] with [o] does to one call. *)
Definition resume_one (h : Handle) (o : Settlement unit) (t : Task) : Task :=
  match t with
  | AwaitingRefresh config h' =>
      if Nat.eqb h' h then
        match o with
        | inr _ => AwaitingRetry config
        | inl e => Settled (rejected e)
        end
      else t
  | _ => t
  end.

(** The number of retries that the settlement of [h] with [o] issues for
    a call in state [t]. *)
Definition retried (h : Handle) (o : Settlement unit) (t : option Task) : nat :=
  match t, o with
  | Some (AwaitingRefresh _ h'), inr _ => if Nat.eqb h' h then 1 else 0
  | _, _ => 0
  end.

(** The refresh operations that [this.refreshPromise] stands for. *)
Definition pending (w : World) : list Handle :=
  match refreshPromise w with Some h => [h] | None => [] end.

(** Handle [h] was created and has settled. *)
Definition has_settled (h : Handle) (w : World) : bool :=
  Nat.ltb h (nextHandle w)
  && match refreshPromise w with Some h' => negb (Nat.eqb h' h) | None => true end.

(** How many times a call in state [t] can have invoked
    this.inner.request: once before the retry, twice from the retry on. *)
Definition attempts_ok (t : option Task) (n : nat) : Prop :=
  match t with
  | None => n = 0
  | Some (AwaitingInner _) | Some (AwaitingRefresh _ _) => n = 1
  | Some (AwaitingRetry _) => n = 2
  | Some (Settled _) => n = 1 ∨ n = 2
  end.

(** Every call of [ts] that waits for a handle waits for [rp]. *)
Definition tasks_wait (ts : list Task) (rp : option Handle) : Prop :=
  ∀ i config h, ts !! i = Some (AwaitingRefresh config h) → rp = Some h.

(** [f i] is a possible number of requests of call [i], for every [i]. *)
Definition tasks_attempts (ts : list Task) (f : nat → nat) : Prop :=
  ∀ i, attempts_ok (ts !! i) (f i).

Record Inv (w : World) : Prop := {
  inv_inflight : inflight w = pending w;
  inv_waiters : tasks_wait (tasks w) (refreshPromise w);
  inv_fresh : ∀ h, refreshPromise w = Some h → h < nextHandle w;
  inv_clears : ∀ h, clears h w = if has_settled h w then 1 else 0;
  inv_calls : refresh_calls w = nextHandle w;
  inv_attempts : tasks_attempts (tasks w) (λ i, inner_requests i w);
}.

(** Call [i], in state [t], is the one (or one of those) that event [ev]
    continues. *)
Definition reacts (t : Task) (ev : Event) (i : nat) : bool :=
  match ev, t with
  | InnerSettles j _, (AwaitingInner _ | AwaitingRetry _) => Nat.eqb j i
  | RefreshSettles h _, AwaitingRefresh _ h' => Nat.eqb h' h
  | _, _ => false
  end.

(** The request that the settlement of [h] with [o] issues for call [i]
    in state [t]. *)
Definition retry_of (h : Handle) (o : Settlement unit) (i : nat)
    (t : option Task) : list Effect :=
  match t, o with
  | Some (AwaitingRefresh config h'), inr _ =>
      if Nat.eqb h' h then [InnerRequest i config] else []
  | _, _ => []
  end.

(** The call is suspended at line 52. *)
Definition awaits_refresh (t : Task) : bool :=
  match t with
  | AwaitingRefresh _ _ => true
  | _ => false
  end.

Definition is_refresh_settles (ev : Event) : bool :=
  match ev with RefreshSettles _ _ => true | _ => false end.

End RefreshingFetchAdapter.

(** ** Types of the SDK (@nauth-toolkit/client) used by the React code *)

Module Sdk.

Record AuthUser : Type := {
  sub : string;
  email : string;
  phone : option string;
  isEmailVerified : bool;
  isPhoneVerified : bool;
  mfaEnabled : bool;
}.

Inductive AuthChallenge : Type :=
| VERIFY_EMAIL
| VERIFY_PHONE
| MFA_REQUIRED
| MFA_SETUP_REQUIRED
| FORCE_CHANGE_PASSWORD.

Definition AuthChallenge_name (k : AuthChallenge) : string :=
  match k with
  | VERIFY_EMAIL => "VERIFY_EMAIL"
  | VERIFY_PHONE => "VERIFY_PHONE"
  | MFA_REQUIRED => "MFA_REQUIRED"
  | MFA_SETUP_REQUIRED => "MFA_SETUP_REQUIRED"
  | FORCE_CHANGE_PASSWORD => "FORCE_CHANGE_PASSWORD"
  end.

Definition AuthChallenge_eqb (a b : AuthChallenge) : bool :=
  String.eqb (AuthChallenge_name a) (AuthChallenge_name b).

Record AuthResponse : Type := {
  challengeName : option AuthChallenge;
  session : option string;
  challengeParameters : list (string * string);
}.

(** ToBoolean of a value that is a string, null or undefined. *)
Definition truthy (s : option string) : bool :=
  match s with
  | Some s => negb (String.eqb s "")
  | None => false
  end.

End Sdk.

(** ** The session controller (context/AuthContext.tsx) *)

Module AuthProvider.
Import Sdk.

(** The three [useState] cells, lines 54-56. *)
Record SessionState : Type := {
  user : option AuthUser;
  challenge : option AuthResponse;
  isLoading : bool;
}.

Definition initial : SessionState :=
  {| user := None; challenge := None; isLoading := true |}.

(** [isAuthenticated: !!user], line 214. *)
Definition isAuthenticated (s : SessionState) : bool :=
  match user s with Some _ => true | None => false end.

(** A call of one of the three state setters. *)
Inductive Update : Type :=
| SetUser (u : option AuthUser)
| SetChallenge (c : option AuthResponse)
| SetIsLoading (b : bool).

Definition apply_update (s : SessionState) (u : Update) : SessionState :=
  match u with
  | SetUser v => {| user := v; challenge := challenge s; isLoading := isLoading s |}
  | SetChallenge v => {| user := user s; challenge := v; isLoading := isLoading s |}
  | SetIsLoading v => {| user := user s; challenge := challenge s; isLoading := v |}
  end.

(** React 18 batches the setter calls made by one synchronous piece of
    code and commits them together: consumers of the context see the
    state before the piece ran and the state after all its updates, and
    nothing in between. *)
Definition commit (s : SessionState) (us : list Update) : SessionState :=
  foldl apply_update s us.

(** Where the hydration code of lines 119-138 is suspended. *)
Inductive InitPc : Type :=
| AwaitInitialize                       (* line 120 *)
| AwaitInitProfile (current : AuthUser) (* line 125 *)
| AwaitStoredChallenge                  (* line 134 *)
| InitFinished                          (* after line 137 *)
| InitStopped                           (* returned at line 121, 133 or 135 *)
| InitFailed (e : JsError).             (* an awaited call rejected *)

Record Provider : Type := {
  state : SessionState;            (* the committed React state *)
  renders : list SessionState;     (* every state committed so far *)
  mounted : bool;                  (* line 78 *)
  cache : option AuthUser;         (* what client.getCurrentUser() returns *)
  init_pc : InitPc;
  fetches : list bool;             (* getProfile() calls of line 91; true = pending *)
}.

Definition mount (cached : option AuthUser) : Provider :=
  {| state := initial; renders := [initial]; mounted := true;
     cache := cached; init_pc := AwaitInitialize; fetches := [] |}.

(** The auth:success listener, lines 84-99, up to the call of
    getProfile(): its updates, and whether getProfile() was called. *)
Definition onSuccess (isMounted : bool) (getCurrentUser : option AuthUser)
    : list Update * bool :=
  if negb isMounted then ([], false)
  else
    (([SetChallenge None]
        ++ match getCurrentUser with
           | Some currentUser => [SetUser (Some currentUser)]
           | None => []
           end)%list,
     true).

(** The two callbacks given to [.then], lines 92-97. *)
Definition onSuccess_profile (isMounted : bool)
    (getCurrentUser : option AuthUser) (o : Settlement AuthUser) : list Update :=
  match o with
  | inr profile => if isMounted then [SetUser (Some profile)] else []
  | inl _ => if isMounted then [SetUser getCurrentUser] else []
  end.

(** The auth:challenge listener, lines 101-104. *)
Definition onChallenge (isMounted : bool) (data : option AuthResponse)
    : list Update :=
  if negb isMounted then [] else [SetChallenge data].

(** The auth:logout listener, lines 106-110. *)
Definition onLogout (isMounted : bool) : list Update :=
  if negb isMounted then [] else [SetUser None; SetChallenge None].

(** The auth:session_expired listener, lines 112-116. *)
Definition onSessionExpired (isMounted : bool) : list Update :=
  if negb isMounted then [] else [SetUser None; SetChallenge None].

(** Lines 121-132 (to the next await): after initialize() resolved. *)
Definition init_after_initialize (isMounted : bool)
    (getCurrentUser : option AuthUser) : list Update * InitPc :=
  if negb isMounted then ([], InitStopped)
  else
    match getCurrentUser with
    | Some current => ([], AwaitInitProfile current)
    | None => ([SetUser None], AwaitStoredChallenge)
    end.

(** Lines 125-134: after the getProfile() of line 125 settled. *)
Definition init_after_profile (isMounted : bool) (current : AuthUser)
    (o : Settlement AuthUser) : list Update * InitPc :=
  let us :=
    match o with
    | inr profile => if isMounted then [SetUser (Some profile)] else []
    | inl _ => if isMounted then [SetUser (Some current)] else []
    end in
  (us, if negb isMounted then InitStopped else AwaitStoredChallenge).

(** Lines 135-137: after getStoredChallenge() resolved. *)
Definition init_after_stored (isMounted : bool)
    (storedChallenge : option AuthResponse) : list Update * InitPc :=
  if negb isMounted then ([], InitStopped)
  else ([SetChallenge storedChallenge; SetIsLoading false], InitFinished).

Inductive Event : Type :=
| AuthSuccess                                   (* the SDK emits auth:success *)
| AuthChallengeEvent (data : option AuthResponse)
| AuthLogout
| AuthSessionExpired
| InitializeSettles (o : Settlement unit)
| InitProfileSettles (o : Settlement AuthUser)
| StoredChallengeSettles (o : Settlement (option AuthResponse))
| ProfileSettles (k : nat) (o : Settlement AuthUser)
    (* the getProfile() number [k] of line 91 settles *)
| CacheChanges (u : option AuthUser)            (* the SDK replaces its current user *)
| Unmount.                                      (* the cleanup of lines 140-146 *)

Definition with_control (p : Provider) (pc : InitPc) (fs : list bool)
    : Provider :=
  {| state := state p; renders := renders p; mounted := mounted p;
     cache := cache p; init_pc := pc; fetches := fs |}.

(** The piece of code that an event runs: the setter calls it makes and
    the control state it leaves. *)
Definition handle (p : Provider) (ev : Event) : list Update * Provider :=
  match ev with
  | AuthSuccess =>
      let '(us, called) := onSuccess (mounted p) (cache p) in
      (us, with_control p (init_pc p)
             (if called then fetches p ++ [true] else fetches p))
  | AuthChallengeEvent data => (onChallenge (mounted p) data, p)
  | AuthLogout => (onLogout (mounted p), p)
  | AuthSessionExpired => (onSessionExpired (mounted p), p)
  | InitializeSettles o =>
      match init_pc p, o with
      | AwaitInitialize, inr _ =>
          let '(us, pc) := init_after_initialize (mounted p) (cache p) in
          (us, with_control p pc (fetches p))
      | AwaitInitialize, inl e => ([], with_control p (InitFailed e) (fetches p))
      | _, _ => ([], p)
      end
  | InitProfileSettles o =>
      match init_pc p with
      | AwaitInitProfile current =>
          let '(us, pc) := init_after_profile (mounted p) current o in
          (us, with_control p pc (fetches p))
      | _ => ([], p)
      end
  | StoredChallengeSettles o =>
      match init_pc p, o with
      | AwaitStoredChallenge, inr stored =>
          let '(us, pc) := init_after_stored (mounted p) stored in
          (us, with_control p pc (fetches p))
      | AwaitStoredChallenge, inl e =>
          ([], with_control p (InitFailed e) (fetches p))
      | _, _ => ([], p)
      end
  | ProfileSettles k o =>
      match fetches p !! k with
      | Some true =>
          (onSuccess_profile (mounted p) (cache p) o,
           with_control p (init_pc p) (<[k:=false]> (fetches p)))
      | _ => ([], p)
      end
  | CacheChanges u =>
      ([], {| state := state p; renders := renders p; mounted := mounted p;
              cache := u; init_pc := init_pc p; fetches := fetches p |})
  | Unmount =>
      ([], {| state := state p; renders := renders p; mounted := false;
              cache := cache p; init_pc := init_pc p; fetches := fetches p |})
  end.

(** One turn of the event loop: run the piece of code, then commit its
    updates (if it made any) as one new state. *)
Definition step (p : Provider) (ev : Event) : Provider :=
  let '(us, p') := handle p ev in
  match us with
  | [] => p'
  | _ =>
      let s := commit (state p') us in
      {| state := s; renders := renders p' ++ [s]; mounted := mounted p';
         cache := cache p'; init_pc := init_pc p'; fetches := fetches p' |}
  end.

Definition run (p : Provider) (evs : list Event) : Provider := foldl step p evs.

(** *** handleOAuthCallback, lines 182-206 *)

Record CallbackResult : Type := {
  result_user : option AuthUser;
  needsChallenge : bool;
}.

Inductive SdkCall : Type :=
| ExchangeSocialRedirect (token : string)
| GetProfile.

(** A run of handleOAuthCallback: how its promise settles, the setter
    calls it made and the SDK calls it made, in order. *)
Record CallbackRun : Type := {
  result : Settlement CallbackResult;
  updates : list Update;
  calls : list SdkCall;
}.

(** [error] and [exchangeToken] are what [params.get] returns for the two
    query parameters; [exchange] and [profile] are how
    exchangeSocialRedirect and getProfile settle if they are called. *)
Definition handleOAuthCallback (error exchangeToken : option string)
    (exchange : Settlement AuthResponse) (profile : Settlement AuthUser)
    : CallbackRun :=
  if truthy error then
    {| result := fulfilled {| result_user := None; needsChallenge := false |};
       updates := []; calls := [] |}
  else
    match exchangeToken with
    | Some token =>
        if truthy (Some token) then
          match exchange with
          | inl e =>
              {| result := rejected e; updates := [];
                 calls := [ExchangeSocialRedirect token] |}
          | inr response =>
              match challengeName response with
              | Some _ =>
                  {| result := fulfilled {| result_user := None; needsChallenge := true |};
                     updates := [SetChallenge (Some response)];
                     calls := [ExchangeSocialRedirect token] |}
              | None =>
                  match profile with
                  | inl e =>
                      {| result := rejected e; updates := [];
                         calls := [ExchangeSocialRedirect token; GetProfile] |}
                  | inr profileUser =>
                      {| result := fulfilled {| result_user := Some profileUser;
                                               needsChallenge := false |};
                         updates := [SetUser (Some profileUser)];
                         calls := [ExchangeSocialRedirect token; GetProfile] |}
                  end
              end
          end
        else
          match profile with
          | inl e => {| result := rejected e; updates := []; calls := [GetProfile] |}
          | inr profileUser =>
              {| result := fulfilled {| result_user := Some profileUser;
                                       needsChallenge := false |};
                 updates := [SetUser (Some profileUser)]; calls := [GetProfile] |}
          end
    | None =>
        match profile with
        | inl e => {| result := rejected e; updates := []; calls := [GetProfile] |}
        | inr profileUser =>
            {| result := fulfilled {| result_user := Some profileUser;
                                     needsChallenge := false |};
               updates := [SetUser (Some profileUser)]; calls := [GetProfile] |}
        end
    end.

End AuthProvider.

(** ** The OAuth landing page (pages/OAuthCallbackPage.tsx) *)

Module OAuthCallbackPage.
Import Sdk AuthProvider.

Inductive PageAction : Type :=
| Navigate (to : string)                    (* navigate(to, { replace: true }) *)
| SetErrorMsg (msg : string)
| NavigateAfter (ms : Z) (to : string).     (* setTimeout(() => navigate(to, ...), ms) *)

(** ToBoolean of the value that handleOAuthCallback resolves with: it is
    an object, and every object is truthy. *)
Definition ToBoolean (r : CallbackResult) : bool := true.

(** The effect of lines 21-45.  [ranRef] is [ranRef.current] before the
    effect runs; the result is [ranRef.current] afterwards, what the page
    did, and the run of handleOAuthCallback if it was called. *)
Definition effect (ranRef : bool) (error exchangeToken : option string)
    (exchange : Settlement AuthResponse) (profile : Settlement AuthUser)
    : bool * list PageAction * option CallbackRun :=
  if ranRef then (true, [], None)
  else if truthy error then (true, [Navigate "/login"], None)
  else
    let r := handleOAuthCallback error exchangeToken exchange profile in
    (true,
     match result r with
     | inr user =>
         if ToBoolean user then [Navigate "/dashboard"] else [Navigate "/login"]
     | inl _ =>
         [SetErrorMsg "Authentication failed. Please try again.";
          NavigateAfter 3000 "/login"]
     end,
     Some r).

End OAuthCallbackPage.

(** ** The challenge page (pages/ChallengePage.tsx) *)

Module ChallengePage.
Import Sdk.

(** A property value of the object literal of lines 64-71. *)
Inductive JsValue : Type :=
| JsString (s : string)
| JsUndefined.

Definition of_optional (o : option string) : JsValue :=
  match o with Some s => JsString s | None => JsUndefined end.

Section WithSdk.

(** [getMFAMethod] of the SDK derives the MFA method from the challenge
    (its challengeParameters); [trim] is String.prototype.trim. *)
Variable getMFAMethod : AuthResponse → option string.
Variable trim : string → string.

(** [routeChallenge ?? ctxChallenge], line 32. *)
Definition activeChallenge (routeChallenge ctxChallenge : option AuthResponse)
    : option AuthResponse :=
  match routeChallenge with
  | Some c => Some c
  | None => ctxChallenge
  end.

(** The object literal of lines 64-71; [sess] and [kind] are
    challenge.session and challenge.challengeName. *)
Definition challengeResponse (challenge : AuthResponse) (kind : AuthChallenge)
    (sess : string) (code : string) : gmap string JsValue :=
  let base : gmap string JsValue :=
    <["session" := JsString sess]>
      (<["type" := JsString (AuthChallenge_name kind)]> ∅) in
  let spread : gmap string JsValue :=
    if AuthChallenge_eqb kind MFA_REQUIRED
    then <["method" := of_optional (getMFAMethod challenge)]> base
    else base in
  <["code" := JsString (trim code)]> spread.

(** [handleSubmit], lines 58-72: the object passed to respondToChallenge,
    or [None] when line 60 returns. *)
Definition handleSubmit (challenge : option AuthResponse) (code : string)
    : option (gmap string JsValue) :=
  match challenge with
  | None => None
  | Some c =>
      if negb (truthy (session c)) then None
      else
        match session c, challengeName c with
        | Some sess, Some kind => Some (challengeResponse c kind sess code)
        | _, _ => None
        end
  end.

(** Lines 108-112. *)
Definition mfaMethod (challenge : AuthResponse) : option string :=
  match challengeName challenge with
  | Some k => if AuthChallenge_eqb k MFA_REQUIRED then getMFAMethod challenge else None
  | None => None
  end.

Definition isTotp (challenge : AuthResponse) : bool :=
  match mfaMethod challenge with
  | Some m => String.eqb m "totp"
  | None => false
  end.

Definition sendsCode (challenge : AuthResponse) : bool := negb (isTotp challenge).

End WithSdk.

End ChallengePage.

(** ** Sample data for the worked runs *)

Module Examples.
Import RefreshingFetchAdapter Sdk.

Definition theClient : NAuthClient := ClientRef 0.

Definition getProfile : HttpRequest :=
  {| method := "GET"; url := "/auth/profile"; body := None |}.

Definition getSessions : HttpRequest :=
  {| method := "GET"; url := "/auth/sessions"; body := None |}.

Definition postLogout : HttpRequest :=
  {| method := "POST"; url := "/auth/logout"; body := Some "{}" |}.

(** Not the refresh endpoint, but its URL contains "/refresh". *)
Definition getRefreshRates : HttpRequest :=
  {| method := "GET"; url := "/api/refresh-rates"; body := None |}.

Definition unauthorized : JsError := NAuthClientError (Some 401%Z) "Unauthorized".
Definition expired : JsError := NAuthClientError (Some 401%Z) "Refresh token expired".
Definition serverError : JsError := NAuthClientError (Some 500%Z) "Internal error".
Definition offline : JsError := OtherError "Failed to fetch".

Definition ok : HttpResponse := {| status := 200%Z; data := "{}" |}.

Definition alice : AuthUser :=
  {| sub := "u-1"; email := "alice@example.com"; phone := None;
     isEmailVerified := true; isPhoneVerified := false; mfaEnabled := true |}.

(** The same account as the server reports it. *)
Definition aliceProfile : AuthUser :=
  {| sub := "u-1"; email := "alice@example.com"; phone := Some "+15550100";
     isEmailVerified := true; isPhoneVerified := true; mfaEnabled := true |}.

Definition mfaChallenge : AuthResponse :=
  {| challengeName := Some MFA_REQUIRED; session := Some "s1";
     challengeParameters := [("preferredMethod", "totp")] |}.

Definition emailChallenge : AuthResponse :=
  {| challengeName := Some VERIFY_EMAIL; session := Some "s2";
     challengeParameters := [("codeDeliveryDestination", "a***@example.com")] |}.

Definition noChallenge : AuthResponse :=
  {| challengeName := None; session := None; challengeParameters := [] |}.

(** A stand-in for the SDK's getMFAMethod: the "preferredMethod" hint. *)
Definition preferredMethod (r : AuthResponse) : option string :=
  snd <$> List.find (λ kv, String.eqb (fst kv) "preferredMethod")
            (challengeParameters r).

(** String.prototype.trim on text whose white space is ASCII (tab, line
    feed, vertical tab, form feed, carriage return, space); the code field
    only ever holds digits. *)
Definition is_space (a : Ascii.ascii) : bool :=
  let n := Ascii.nat_of_ascii a in
  (Nat.leb 9 n && Nat.leb n 13) || Nat.eqb n 32.

Fixpoint trimStart (s : string) : string :=
  match s with
  | String a s' => if is_space a then trimStart s' else s
  | EmptyString => EmptyString
  end.

Definition reversed (s : string) : string :=
  String.string_of_list_ascii (List.rev (String.list_ascii_of_string s)).

Definition asciiTrim (s : string) : string :=
  reversed (trimStart (reversed (trimStart s))).

End Examples.

(** ** Schedules of the adapter *)

Module Schedules.
Import RefreshingFetchAdapter.

(** The first attempt of the call is still pending. *)
Definition awaits_inner (t : Task) : bool :=
  match t with AwaitingInner _ => true | _ => false end.

(** The call neither waits for a refresh nor has been retried yet. *)
Definition untouched (t : Task) : bool :=
  match t with AwaitingInner _ | Settled _ => true | _ => false end.

(** The event does not deliver a 401. *)
Definition no_401 (ev : Event) : bool :=
  match ev with
  | InnerSettles _ (inl err) => negb (is401 err)
  | _ => true
  end.

Definition no_setClient (ev : Event) : bool :=
  match ev with SetClient _ => false | _ => true end.

(** The adapter has behaved like the inner adapter alone: one request per
    call, and nothing else. *)
Record Passthrough (w : World) : Prop := {
  pass_handle : refreshPromise w = None;
  pass_inflight : inflight w = [];
  pass_refresh : refresh_calls w = 0;
  pass_tasks : forallb untouched (tasks w) = true;
  pass_requests : ∀ i,
    inner_requests i w = if Nat.ltb i (length (tasks w)) then 1 else 0;
}.

(** The refreshes started so far and the calls still in their first
    attempt together do not outnumber the calls made. *)
Definition refreshes_fit (w : World) : Prop :=
  nextHandle w + length (List.filter awaits_inner (tasks w))
  ≤ length (tasks w).

End Schedules.

(** ** The refresh cycles of the adapter *)

Module RefreshCycles.
Import RefreshingFetchAdapter.

(** The refreshTokens() call that created handle [h] (line 67). *)
Definition is_refresh_of (h : Handle) (e : Effect) : bool :=
  match e with RefreshTokens h' => Nat.eqb h' h | _ => false end.

(** How many refreshTokens() calls stand behind handle [h]. *)
Definition handle_calls (h : Handle) (w : World) : nat :=
  count (is_refresh_of h) (trace w).

(** Call [i] is suspended at line 52, in [await this.doRefresh()]. *)
Definition parked (w : World) (i : nat) : bool :=
  match tasks w !! i with
  | Some t => awaits_refresh t
  | None => false
  end.

(** The handle in this.refreshPromise is that of the last refreshTokens()
    call, and every handle created so far stands for one such call. *)
Record Cycle (w : World) : Prop := {
  cycle_latest : ∀ h, refreshPromise w = Some h → nextHandle w = S h;
  cycle_calls : ∀ h,
    handle_calls h w = if Nat.ltb h (nextHandle w) then 1 else 0;
}.

End RefreshCycles.

(** ** The route guard (components/ProtectedRoute.tsx) *)

Module ProtectedRoute.
Import Sdk AuthProvider.

Inductive View : Type :=
| Spinner                    (* lines 8-16 *)
| RedirectTo (to : string)   (* <Navigate to=... replace /> *)
| Children.

(** The component, lines 5-22, on the two values it takes from the
    context. *)
Definition ProtectedRoute (isAuth isLoad : bool) : View :=
  if isLoad then Spinner
  else if negb isAuth then RedirectTo "/login"
  else Children.

(** What the guard shows for a state of the provider (the context value
    of AuthContext.tsx, lines 210-214). *)
Definition render (s : SessionState) : View :=
  ProtectedRoute (isAuthenticated s) (isLoading s).

(** The hydration code has reached line 137. *)
Definition init_finished (pc : InitPc) : bool :=
  match pc with InitFinished => true | _ => false end.

(** The hydration code has ended, one way or another. *)
Definition init_over (pc : InitPc) : bool :=
  match pc with
  | InitFinished | InitStopped | InitFailed _ => true
  | _ => false
  end.

(** The event neither unmounts the provider nor settles the getProfile()
    number [k] of line 91. *)
Definition keeps_fetch (k : nat) (ev : AuthProvider.Event) : bool :=
  match ev with
  | Unmount => false
  | ProfileSettles j _ => negb (Nat.eqb j k)
  | _ => true
  end.

End ProtectedRoute.

(** ** Navigation between the pages, and the code form *)

Module ChallengeForm.
Import Sdk ChallengePage.

(** A call navigate(to, { replace, state: { response } }); [routeState]
    is the response put into the route state, if any. *)
Record Navigation : Type := {
  to : string;
  replace : bool;
  routeState : option AuthResponse;
}.

(** LoginPage.tsx lines 22-26 and SignupPage.tsx lines 33-37: where the
    page goes when login() or signup() resolved. *)
Definition afterLogin (response : AuthResponse) : Navigation :=
  match challengeName response with
  | Some _ =>
      {| to := "/auth/challenge"; replace := false; routeState := Some response |}
  | None => {| to := "/dashboard"; replace := false; routeState := None |}
  end.

(** ChallengePage.tsx lines 73-79 and MfaSetupPage.tsx lines 142-148:
    where the page goes when respondToChallenge() resolved. *)
Definition afterResponse (response : AuthResponse) : Navigation :=
  match challengeName response with
  | None => {| to := "/dashboard"; replace := true; routeState := None |}
  | Some _ =>
      {| to := "/auth/challenge"; replace := true; routeState := Some response |}
  end.

Definition is_mfa_setup (challenge : option AuthResponse) : bool :=
  match challenge with
  | Some c =>
      match challengeName c with
      | Some k => AuthChallenge_eqb k MFA_SETUP_REQUIRED
      | None => false
      end
  | None => false
  end.

(** The effect of ChallengePage.tsx lines 43-49, for the active challenge
    of line 32. *)
Definition redirectEffect (isLoading : bool) (challenge : option AuthResponse)
    : list Navigation :=
  (if negb isLoading && negb (bool_decide (is_Some challenge))
   then [{| to := "/login"; replace := true; routeState := None |}]
   else [])
  ++ (if negb isLoading && is_mfa_setup challenge
      then [{| to := "/auth/mfa-setup"; replace := true; routeState := challenge |}]
      else []).

(** The onChange of the code input, ChallengePage.tsx line 146:
    e.target.value.replace(/\D/g, '').slice(0, 6).  Strings are byte
    strings here; a byte of a character outside ASCII is not a digit and
    is dropped like the character itself. *)
Definition is_digit (a : Ascii.ascii) : bool :=
  let n := Ascii.nat_of_ascii a in Nat.leb 48 n && Nat.leb n 57.

Fixpoint keep_digits (s : string) : string :=
  match s with
  | EmptyString => EmptyString
  | String a s' =>
      if is_digit a then String a (keep_digits s') else keep_digits s'
  end.

Fixpoint slice_from_0 (n : nat) (s : string) : string :=
  match n, s with
  | S n', String a s' => String a (slice_from_0 n' s')
  | _, _ => EmptyString
  end.

Definition onCodeChange (value : string) : string :=
  slice_from_0 6 (keep_digits value).

Fixpoint all_digits (s : string) : bool :=
  match s with
  | EmptyString => true
  | String a s' => is_digit a && all_digits s'
  end.

(** The [disabled] of the submit button, line 158. *)
Definition submitDisabled (loading : bool) (code : string) : bool :=
  loading || Nat.ltb (String.length code) 6.

(** The countdown of lines 52-56: what one firing of the timer makes of
    resendCooldown, or [None] when the effect sets no timer. *)
Definition cooldownTick (resendCooldown : Z) : option Z :=
  if (resendCooldown <=? 0)%Z then None else Some (resendCooldown - 1)%Z.

(** resendCooldown after at most [n] firings. *)
Fixpoint countdown (n : nat) (resendCooldown : Z) : Z :=
  match n with
  | 0 => resendCooldown
  | S n' =>
      match cooldownTick resendCooldown with
      | Some c => countdown n' c
      | None => resendCooldown
      end
  end.

(** The [disabled] of the resend button, line 171. *)
Definition resendDisabled (resendLoading : bool) (resendCooldown : Z) : bool :=
  resendLoading || (0 <? resendCooldown)%Z.

End ChallengeForm.

(** ** The landing effect invoked several times *)

Module Landing.
Import Sdk AuthProvider OAuthCallbackPage.

(** What one invocation of the effect finds: the two query parameters
    and how the SDK calls would settle. *)
Record Invocation : Type := {
  errorParam : option string;
  exchangeTokenParam : option string;
  exchangeSettles : Settlement AuthResponse;
  profileSettles : Settlement AuthUser;
}.

(** The effect of OAuthCallbackPage.tsx lines 21-45 invoked once per
    element of [invs], the ref shared between the invocations: what each
    invocation did. *)
Fixpoint effects (ranRef : bool) (invs : list Invocation)
    : list (list PageAction * option CallbackRun) :=
  match invs with
  | [] => []
  | inv :: invs' =>
      let '(ran, acts, cb) :=
        effect ranRef (errorParam inv) (exchangeTokenParam inv)
          (exchangeSettles inv) (profileSettles inv) in
      (acts, cb) :: effects ran invs'
  end.

End Landing.

(** ** The MFA setup page (pages/MfaSetupPage.tsx) *)

Module MfaSetupPage.
Import Sdk ChallengeForm.

Inductive Step : Type := select | auto_completed | otp.   (* line 10 *)
Inductive Method : Type := email | sms.                   (* line 11 *)

(** The test of line 58 on one element of the array: [Some s] is the
    string [s], [None] any value that is not a string. *)
Definition Method_of (item : option string) : option Method :=
  match item with
  | Some s =>
      if String.eqb s "email" then Some email
      else if String.eqb s "sms" then Some sms
      else None
  | None => None
  end.

(** What [params?.allowedMethods] evaluates to: a value that is no array
    (undefined when the challenge or its parameters are missing), or an
    array. *)
Inductive RawMethods : Type :=
| NotAnArray
| JsArray (items : list (option string)).

(** [allowedMethods], lines 54-61. *)
Definition allowedMethods (raw : RawMethods) : list Method :=
  match raw with
  | JsArray items =>
      if Nat.ltb 0 (length items) then omap Method_of items else [email; sms]
  | NotAnArray => [email; sms]
  end.

(** The fields of [result.setupData] that the page reads, lines 70-78. *)
Record SetupData : Type := {
  autoCompleted : bool;            (* data.autoCompleted === true *)
  deviceId : option Z;
  maskedEmail : option string;
  maskedPhone : option string;
}.

Inductive SetupPayload : Type :=
| DeviceId (id : Z)      (* setupData: { deviceId } *)
| Code (code : string).  (* setupData: { code } *)

(** The object given to respondToChallenge, lines 94-99 and 114-119. *)
Record SetupResponse : Type := {
  r_type : AuthChallenge;
  r_session : string;
  r_method : Method;
  r_setupData : SetupPayload;
}.

Inductive SdkCall : Type :=
| GetSetupData (session : string) (method : Method)
| RespondToChallenge (response : SetupResponse)
| ResendCode (session : string).

Record Page : Type := {
  step : Step;
  selectedMethod : option Method;
  maskedDestination : option string;
  autoCompletedDeviceId : option Z;
  code : string;
  loading : bool;
  resendLoading : bool;
  resendCooldown : Z;
  error : option string;
  pendingSetup : nat;      (* getSetupData() calls that have not settled *)
  pendingRespond : nat;    (* respondToChallenge() calls that have not settled *)
  pendingResend : nat;     (* resendCode() calls that have not settled *)
  calls : list SdkCall;    (* the SDK calls made, oldest first *)
  navigations : list Navigation;
}.

(** Lines 33-41. *)
Definition initialPage : Page :=
  {| step := select; selectedMethod := None; maskedDestination := None;
     autoCompletedDeviceId := None; code := ""; loading := false;
     resendLoading := false; resendCooldown := 0%Z;
     error := None; pendingSetup := 0; pendingRespond := 0;
     pendingResend := 0; calls := []; navigations := [] |}.

Definition errorMessage (err : JsError) (fallback : string) : string :=
  match err with
  | NAuthClientError _ message => message
  | OtherError _ => fallback
  end.

Section WithChallenge.

(** The page is shown for one challenge: [sess] is [challenge.session],
    [raw] its [allowedMethods] parameter; [trim] is
    String.prototype.trim. *)
Variable sess : option string.
Variable raw : RawMethods.
Variable trim : string → string.

(** [handleSelectMethod], lines 63-69, up to its await. *)
Definition handleSelectMethod (method : Method) (p : Page) : Page :=
  match sess with
  | Some session =>
      if truthy (Some session) then
        {| step := step p; selectedMethod := Some method;
           maskedDestination := maskedDestination p;
           autoCompletedDeviceId := autoCompletedDeviceId p; code := code p;
           loading := true;
           resendLoading := resendLoading p; resendCooldown := resendCooldown p;
           error := None;
           pendingSetup := S (pendingSetup p); pendingRespond := pendingRespond p;
           pendingResend := pendingResend p;
           calls := calls p ++ [GetSetupData session method];
           navigations := navigations p |}
      else p
  | None => p
  end.

(** [handleSelectMethod] after the await, lines 70-86. *)
Definition setupDataSettled (o : Settlement SetupData) (p : Page) : Page :=
  match o with
  | inr data =>
      if autoCompleted data then
        {| step := auto_completed; selectedMethod := selectedMethod p;
           maskedDestination := maskedDestination p;
           autoCompletedDeviceId := deviceId data; code := code p;
           loading := false;
           resendLoading := resendLoading p; resendCooldown := resendCooldown p;
           error := error p;
           pendingSetup := pred (pendingSetup p); pendingRespond := pendingRespond p;
           pendingResend := pendingResend p;
           calls := calls p; navigations := navigations p |}
      else
        {| step := otp; selectedMethod := selectedMethod p;
           maskedDestination :=
             match maskedEmail data with
             | Some m => Some m
             | None => maskedPhone data
             end;
           autoCompletedDeviceId := autoCompletedDeviceId p; code := code p;
           loading := false;
           resendLoading := resendLoading p; resendCooldown := resendCooldown p;
           error := error p;
           pendingSetup := pred (pendingSetup p); pendingRespond := pendingRespond p;
           pendingResend := pendingResend p;
           calls := calls p; navigations := navigations p |}
  | inl err =>
      {| step := step p; selectedMethod := None;
         maskedDestination := maskedDestination p;
         autoCompletedDeviceId := autoCompletedDeviceId p; code := code p;
         loading := false;
         resendLoading := resendLoading p; resendCooldown := resendCooldown p;
         error := Some (errorMessage err "Failed to set up MFA. Please try again.");
         pendingSetup := pred (pendingSetup p); pendingRespond := pendingRespond p;
         pendingResend := pendingResend p;
         calls := calls p; navigations := navigations p |}
  end.

(** The common part of lines 91-99 and 111-119: the request is sent. *)
Definition respond (payload : SetupPayload) (session : string)
    (method : Method) (p : Page) : Page :=
  {| step := step p; selectedMethod := selectedMethod p;
     maskedDestination := maskedDestination p;
     autoCompletedDeviceId := autoCompletedDeviceId p; code := code p;
     loading := true;
     resendLoading := resendLoading p; resendCooldown := resendCooldown p;
     error := None;
     pendingSetup := pendingSetup p; pendingRespond := S (pendingRespond p);
     pendingResend := pendingResend p;
     calls := calls p
              ++ [RespondToChallenge
                    {| r_type := MFA_SETUP_REQUIRED; r_session := session;
                       r_method := method; r_setupData := payload |}];
     navigations := navigations p |}.

(** [handleContinueAutoCompleted], lines 89-99, up to its await. *)
Definition handleContinueAutoCompleted (p : Page) : Page :=
  match sess, selectedMethod p, autoCompletedDeviceId p with
  | Some session, Some method, Some id =>
      if truthy (Some session) then respond (DeviceId id) session method p
      else p
  | _, _, _ => p
  end.

(** [handleSubmitCode], lines 108-119, up to its await. *)
Definition handleSubmitCode (p : Page) : Page :=
  match sess, selectedMethod p with
  | Some session, Some method =>
      if truthy (Some session) then
        respond (Code (trim (code p))) session method p
      else p
  | _, _ => p
  end.

(** Both handlers after the await, lines 100-105 and 120-125. *)
Definition respondSettled (fallback : string) (o : Settlement AuthResponse)
    (p : Page) : Page :=
  {| step := step p; selectedMethod := selectedMethod p;
     maskedDestination := maskedDestination p;
     autoCompletedDeviceId := autoCompletedDeviceId p; code := code p;
     loading := false;
     resendLoading := resendLoading p; resendCooldown := resendCooldown p;
     error := match o with
              | inl err => Some (errorMessage err fallback)
              | inr _ => error p
              end;
     pendingSetup := pendingSetup p; pendingRespond := pred (pendingRespond p);
     pendingResend := pendingResend p;
     calls := calls p;
     navigations := match o with
                    | inr response => navigations p ++ [afterResponse response]
                    | inl _ => navigations p
                    end |}.

(** [handleResend], lines 128-133, up to its await. *)
Definition handleResend (p : Page) : Page :=
  match sess with
  | Some session =>
      if truthy (Some session) then
        {| step := step p; selectedMethod := selectedMethod p;
           maskedDestination := maskedDestination p;
           autoCompletedDeviceId := autoCompletedDeviceId p; code := code p;
           loading := loading p;
           resendLoading := true; resendCooldown := resendCooldown p;
           error := None;
           pendingSetup := pendingSetup p; pendingRespond := pendingRespond p;
           pendingResend := S (pendingResend p);
           calls := calls p ++ [ResendCode session];
           navigations := navigations p |}
      else p
  | None => p
  end.

(** [handleResend] after the await, lines 134-139: the cooldown starts
    when the code was sent again, the error is shown otherwise. *)
Definition resendSettled (o : Settlement unit) (p : Page) : Page :=
  {| step := step p; selectedMethod := selectedMethod p;
     maskedDestination := maskedDestination p;
     autoCompletedDeviceId := autoCompletedDeviceId p; code := code p;
     loading := loading p;
     resendLoading := false;
     resendCooldown := match o with
                       | inr _ => 60%Z
                       | inl _ => resendCooldown p
                       end;
     error := match o with
              | inl err => Some (errorMessage err "Failed to resend code.")
              | inr _ => error p
              end;
     pendingSetup := pendingSetup p; pendingRespond := pendingRespond p;
     pendingResend := pred (pendingResend p);
     calls := calls p; navigations := navigations p |}.

(** The timer of the effect of lines 47-51 fires, if the effect has set
    one: the code is that of [cooldownTick]. *)
Definition cooldownFires (p : Page) : Page :=
  match cooldownTick (resendCooldown p) with
  | Some c =>
      {| step := step p; selectedMethod := selectedMethod p;
         maskedDestination := maskedDestination p;
         autoCompletedDeviceId := autoCompletedDeviceId p; code := code p;
         loading := loading p;
         resendLoading := resendLoading p; resendCooldown := c;
         error := error p;
         pendingSetup := pendingSetup p; pendingRespond := pendingRespond p;
         pendingResend := pendingResend p;
         calls := calls p; navigations := navigations p |}
  | None => p
  end.

Definition setCode (value : string) (p : Page) : Page :=
  {| step := step p; selectedMethod := selectedMethod p;
     maskedDestination := maskedDestination p;
     autoCompletedDeviceId := autoCompletedDeviceId p;
     code := onCodeChange value;
     loading := loading p;
     resendLoading := resendLoading p; resendCooldown := resendCooldown p;
     error := error p;
     pendingSetup := pendingSetup p; pendingRespond := pendingRespond p;
     pendingResend := pendingResend p;
     calls := calls p; navigations := navigations p |}.

Definition Method_eqb (a b : Method) : bool :=
  match a, b with
  | email, email | sms, sms => true
  | _, _ => false
  end.

(** [allowedMethods.includes(method)], lines 167 and 177. *)
Definition offered (method : Method) : bool :=
  existsb (Method_eqb method) (allowedMethods raw).

Inductive Event : Type :=
| ClickMethod (method : Method)    (* a button of lines 168-186 *)
| ClickContinue                    (* the button of lines 210-217 *)
| TypeCode (value : string)        (* the input of lines 242-254 *)
| SubmitCode                       (* the form of line 239 *)
| ClickResend                      (* the button of lines 268-279 *)
| SetupDataSettles (o : Settlement SetupData)
| RespondSettles (o : Settlement AuthResponse)
| ResendSettles (o : Settlement unit)
| CooldownFires.                   (* the timer of line 49 *)

(** One turn of the event loop.  A click needs its button: the method
    buttons exist in step [select] for the offered methods, the continue
    button in step [auto_completed], the form and the resend button in
    step [otp]; the first three kinds of button are disabled while
    [loading], the submit button also while the code has fewer than six
    characters; the resend button is disabled while [resendLoading] and
    while the cooldown runs (line 272), whatever [loading] is.  A
    settlement needs a pending call, the timer a cooldown above zero. *)
Definition pageStep (p : Page) (ev : Event) : Page :=
  match ev, step p with
  | ClickMethod method, select =>
      if negb (loading p) && offered method
      then handleSelectMethod method p else p
  | ClickContinue, auto_completed =>
      if negb (loading p) then handleContinueAutoCompleted p else p
  | TypeCode value, otp => setCode value p
  | SubmitCode, otp =>
      if negb (submitDisabled (loading p) (code p))
      then handleSubmitCode p else p
  | ClickResend, otp =>
      if negb (resendDisabled (resendLoading p) (resendCooldown p))
      then handleResend p else p
  | SetupDataSettles o, _ =>
      match pendingSetup p with
      | 0 => p
      | S _ => setupDataSettled o p
      end
  | RespondSettles o, st =>
      match pendingRespond p with
      | 0 => p
      | S _ =>
          respondSettled
            match st with
            | otp => "Verification failed. Please try again."
            | _ => "Something went wrong. Please try again."
            end o p
      end
  | ResendSettles o, _ =>
      match pendingResend p with
      | 0 => p
      | S _ => resendSettled o p
      end
  | CooldownFires, _ => cooldownFires p
  | _, _ => p
  end.

Definition pageRun (p : Page) (evs : list Event) : Page := foldl pageStep p evs.

Definition calls_respond_free (p : Page) : Prop :=
  ∀ r, RespondToChallenge r ∉ calls p.

(** The selected method is an offered one and its setup data were asked
    for. *)
Definition method_chosen (p : Page) : Prop :=
  ∃ method session,
    selectedMethod p = Some method
    ∧ offered method = true
    ∧ sess = Some session
    ∧ GetSetupData session method ∈ calls p.

(** What holds of the page at any time: the selection and the answer. *)
Record PageInv (p : Page) : Prop := {
  pi_one : pendingSetup p + pendingRespond p = if loading p then 1 else 0;
  pi_select : step p = select →
              pendingRespond p = 0
              ∧ calls_respond_free p
              ∧ (pendingSetup p = 1 → method_chosen p);
  pi_chosen : step p ≠ select → pendingSetup p = 0 ∧ method_chosen p;
  pi_calls : ∀ r, RespondToChallenge r ∈ calls p →
             r_type r = MFA_SETUP_REQUIRED
             ∧ sess = Some (r_session r)
             ∧ selectedMethod p = Some (r_method r)
             ∧ GetSetupData (r_session r) (r_method r) ∈ calls p
             ∧ match r_setupData r with
               | DeviceId id =>
                   step p = auto_completed ∧ autoCompletedDeviceId p = Some id
               | Code _ => step p = otp
               end;
}.

(** What holds of the page at any time: the resend button. *)
Record ResendInv (p : Page) : Prop := {
  ri_one : pendingResend p = if resendLoading p then 1 else 0;
  ri_idle : resendLoading p = true → resendCooldown p = 0%Z;
  ri_range : (0 ≤ resendCooldown p ≤ 60)%Z;
  ri_otp : step p ≠ otp → pendingResend p = 0 ∧ resendCooldown p = 0%Z;
  ri_calls : ∀ s, ResendCode s ∈ calls p → sess = Some s ∧ step p = otp;
}.

(** The page can make no SDK call at all: there is no session to answer
    to, or no method button is shown. *)
Definition dead_end : Prop :=
  truthy sess = false ∨ allowedMethods raw = [].

End WithChallenge.

End MfaSetupPage.

(** ** The servers: allowed origins and the error handler *)

Module Server.

(** [.filter(Boolean)] on values that are strings or undefined. *)
Definition filterBoolean (l : list (option string)) : list string :=
  omap (λ v, match v with
             | Some s => if String.eqb s "" then None else Some s
             | None => None
             end) l.

(** [[...new Set(l)]]: the elements of [l] in the order of their first
    occurrence; [seen] holds the elements already in the set. *)
Fixpoint set_values (seen : list string) (l : list string) : list string :=
  match l with
  | [] => []
  | x :: l' =>
      if bool_decide (x ∈ seen) then set_values seen l'
      else x :: set_values (x :: seen) l'
  end.

Definition ports : list N := [3000; 4200; 5173; 5174; 8080; 8100]%N.

Definition localhost : list string :=
  (λ p, "http://localhost:" +:+ pretty p) <$> ports.

(** [getAllowedOrigins] (express config/auth.config.ts and nestjs
    src/config/auth.config.ts, lines 10-14), on the values of the two
    environment variables. *)
Definition getAllowedOrigins (FRONTEND_BASE_URL API_BASE_URL : option string)
    : list string :=
  set_values [] (filterBoolean [FRONTEND_BASE_URL; API_BASE_URL] ++ localhost).

(** The character "?". *)
Definition question_mark : Ascii.ascii := Ascii.ascii_of_nat 63.

(** [request.url.split('?')[0]] (fastify utils/error-handler.ts, lines 19
    and 29): the part of the URL before the first question mark. *)
Fixpoint before_query (url : string) : string :=
  match url with
  | EmptyString => EmptyString
  | String a s =>
      if Ascii.eqb a question_mark then EmptyString
      else String a (before_query s)
  end.

Fixpoint has_query (url : string) : bool :=
  match url with
  | EmptyString => false
  | String a s => Ascii.eqb a question_mark || has_query s
  end.

Section Handler.

(** JSON values, with the strings among them; the status table and the
    clock are the SDK's and the platform's. *)
Variable Json : Type.
Variable str : string → Json.
Variable getHttpStatusForErrorCode : string → Z.

(** What the handler can be given: an NAuthException with its code and
    what its toJSON() returns, or anything else. *)
Inductive Thrown : Type :=
| NAuthException (code : string) (toJSON : gmap string Json)
| OtherThrown (message : string).

(** [errorHandler] of the Fastify server, lines 10-31: the status and
    the body of the reply.  [now] is new Date().toISOString(). *)
Definition errorHandler (err : Thrown) (url : string) (now : string)
    : Z * gmap string Json :=
  match err with
  | NAuthException code json =>
      (getHttpStatusForErrorCode code,
       <["path" := str (before_query url)]> json)
  | OtherThrown _ =>
      (500%Z,
       <["path" := str (before_query url)]>
         (<["timestamp" := str now]>
            (<["message" := str "An unexpected error occurred"]>
               (<["code" := str "INTERNAL_ERROR"]> ∅))))
  end.

End Handler.

End Server.

(** * Properties *)

(** ** Substring test *)

Lemma prefix_append (n post : string) : String.prefix n (n +:+ post) = true.
Proof.
  induction n as [|a n IH]; simpl.
  - destruct post; reflexivity.
  - destruct (Ascii.ascii_dec a a) as [_|Hne]; [exact IH | congruence].
Qed.

Lemma prefix_inv (n s : string) :
  String.prefix n s = true → ∃ post, s = n +:+ post.
Proof.
  revert s. induction n as [|a n IH]; intros s H.
  - exists s. reflexivity.
  - destruct s as [|b s]; [discriminate|]. simpl in H.
    destruct (Ascii.ascii_dec a b) as [->|_]; [|discriminate].
    destruct (IH s H) as [post ->]. exists post. reflexivity.
Qed.

(** [includes s n] holds exactly when [n] occurs in [s] at some position. *)
Lemma includes_cons (a : Ascii.ascii) (s n : string) :
  includes (String a s) n = String.prefix n (String a s) || includes s n.
Proof. reflexivity. Qed.

Lemma includes_empty (n : string) : includes "" n = String.prefix n "".
Proof. simpl. apply orb_false_r. Qed.

Lemma includes_spec (s n : string) :
  includes s n = true ↔ ∃ pre post, s = (pre +:+ n) +:+ post.
Proof.
  split.
  - induction s as [|a s IH]; intros H.
    + rewrite includes_empty in H. destruct (prefix_inv _ _ H) as [post Hp].
      exists "", post. exact Hp.
    + rewrite includes_cons in H. apply orb_true_iff in H as [H|H].
      * destruct (prefix_inv _ _ H) as [post Hp]. exists "", post. exact Hp.
      * destruct (IH H) as (pre & post & ->). exists (String a pre), post.
        reflexivity.
  - intros (pre & post & ->). induction pre as [|a pre IH].
    + change (("" +:+ n) +:+ post) with (n +:+ post).
      destruct (n +:+ post) eqn:E.
      * rewrite includes_empty, <- E. apply prefix_append.
      * rewrite includes_cons, <- E, prefix_append. reflexivity.
    + change ((String a pre +:+ n) +:+ post)
        with (String a ((pre +:+ n) +:+ post)).
      rewrite includes_cons, IH. apply orb_true_r.
Qed.

(** ** The refreshing HTTP adapter *)

Module AdapterFacts.
Import RefreshingFetchAdapter RefreshCycles.

Lemma count_app (p : Effect → bool) (a b : list Effect) :
  count p (a ++ b) = count p a + count p b.
Proof. unfold count. rewrite List.filter_app, length_app. reflexivity. Qed.

Lemma count_cons (p : Effect → bool) (e : Effect) (a : list Effect) :
  count p (e :: a) = (if p e then 1 else 0) + count p a.
Proof. unfold count. simpl. destruct (p e); reflexivity. Qed.

Lemma count_nil (p : Effect → bool) : count p [] = 0.
Proof. reflexivity. Qed.

(** *** [resume] *)

Lemma resume_cons h o k t ts :
  resume h o k (t :: ts)
  = (resume_one h o t :: (resume h o (S k) ts).1,
     match t, o with
     | AwaitingRefresh config h', inr _ =>
         if Nat.eqb h' h then [InnerRequest k config] else []
     | _, _ => []
     end ++ (resume h o (S k) ts).2).
Proof.
  simpl. destruct (resume h o (S k) ts) as [ts' es].
  destruct t as [c|c h'|c|r], o as [e|u]; simpl; try reflexivity;
    destruct (Nat.eqb h' h); reflexivity.
Qed.

Lemma resume_tasks h o k ts : (resume h o k ts).1 = resume_one h o <$> ts.
Proof.
  revert k. induction ts as [|t ts IH]; intros k; [reflexivity|].
  rewrite resume_cons. simpl. rewrite IH. reflexivity.
Qed.

Lemma resume_retry h o ts i k :
  List.filter (is_inner_of i) (resume h o k ts).2
  = if decide (k ≤ i) then retry_of h o i (ts !! (i - k)) else [].
Proof.
  revert k. induction ts as [|t ts IH]; intros k.
  - destruct (decide (k ≤ i)); [|reflexivity].
    rewrite lookup_nil. reflexivity.
  - rewrite resume_cons. simpl. rewrite List.filter_app, IH.
    destruct (decide (i = k)) as [->|Hne].
    + destruct (decide (k ≤ k)); [|lia]. destruct (decide (S k ≤ k)); [lia|].
      rewrite Nat.sub_diag, app_nil_r. simpl.
      destruct t as [c|c h'|c|r], o as [e|u]; simpl; try reflexivity.
      destruct (Nat.eqb h' h); simpl; [|reflexivity].
      rewrite Nat.eqb_refl. reflexivity.
    + assert (List.filter (is_inner_of i)
                match t, o with
                | AwaitingRefresh config h', inr _ =>
                    if Nat.eqb h' h then [InnerRequest k config] else []
                | _, _ => []
                end = []) as ->.
      { destruct t as [c|c h'|c|r], o as [e|u]; simpl; try reflexivity.
        destruct (Nat.eqb h' h); simpl; [|reflexivity].
        destruct (Nat.eqb_spec k i); [lia|reflexivity]. }
      simpl. destruct (decide (k ≤ i)) as [Hk|Hk].
      * destruct (decide (S k ≤ i)); [|lia].
        replace (i - k) with (S (i - S k)) by lia. reflexivity.
      * destruct (decide (S k ≤ i)); [lia|reflexivity].
Qed.

Lemma retry_of_length h o i t : length (retry_of h o i t) = retried h o t.
Proof.
  destruct t as [[c|c h'|c|r]|], o as [e|u]; simpl; try reflexivity.
  destruct (Nat.eqb h' h); reflexivity.
Qed.

Lemma resume_inner h o ts i k :
  count (is_inner_of i) (resume h o k ts).2
  = if decide (k ≤ i) then retried h o (ts !! (i - k)) else 0.
Proof.
  unfold count. rewrite resume_retry.
  destruct (decide (k ≤ i)); [apply retry_of_length | reflexivity].
Qed.

(** The continuations only issue retries: no refresh, no clearing. *)
Lemma resume_only_inner h o ts k (p : Effect → bool) :
  (∀ i config, p (InnerRequest i config) = false) →
  count p (resume h o k ts).2 = 0.
Proof.
  intros Hp. revert k. induction ts as [|t ts IH]; intros k; [reflexivity|].
  rewrite resume_cons. simpl. rewrite count_app, IH, Nat.add_0_r.
  destruct t as [c|c h'|c|r]; try reflexivity.
  destruct o; [reflexivity|].
  destruct (Nat.eqb h' h); [|reflexivity].
  rewrite count_cons, count_nil, Hp. reflexivity.
Qed.

Lemma resume_failure_silent h e k ts : (resume h (inl e) k ts).2 = [].
Proof.
  revert k. induction ts as [|t ts IH]; intros k; [reflexivity|].
  rewrite resume_cons. simpl. rewrite IH.
  destruct t; reflexivity.
Qed.

(** *** The invariant *)

Lemma init_Inv c : Inv (init c).
Proof.
  split; simpl.
  - reflexivity.
  - intros i config h H. rewrite lookup_nil in H. discriminate.
  - discriminate.
  - reflexivity.
  - reflexivity.
  - intros i. rewrite lookup_nil. reflexivity.
Qed.

Lemma attempts_insert (ts : list Task) (f : nat → nat) i t :
  tasks_attempts ts f →
  i < length ts →
  attempts_ok (Some t) (f i) →
  tasks_attempts (<[i:=t]> ts) f.
Proof.
  intros H Hi Ht j. destruct (decide (j = i)) as [->|Hne].
  - rewrite list_lookup_insert_eq by exact Hi. exact Ht.
  - rewrite list_lookup_insert_ne by congruence. apply H.
Qed.

Lemma waiters_insert (ts : list Task) (rp : option Handle) i t :
  tasks_wait ts rp →
  (∀ config h, t = AwaitingRefresh config h → rp = Some h) →
  tasks_wait (<[i:=t]> ts) rp.
Proof.
  intros H Ht j config h Hj. destruct (decide (j = i)) as [->|Hne].
  - destruct (decide (i < length ts)) as [Hi|Hi].
    + rewrite list_lookup_insert_eq in Hj by exact Hi.
      injection Hj as ->. eapply Ht. reflexivity.
    + rewrite list_insert_ge in Hj by lia. eapply H, Hj.
  - rewrite list_lookup_insert_ne in Hj by congruence. eapply H, Hj.
Qed.

Lemma Inv_set_task w i t :
  Inv w →
  i < length (tasks w) →
  (∀ config h, t = AwaitingRefresh config h → refreshPromise w = Some h) →
  attempts_ok (Some t) (inner_requests i w) →
  Inv (set_task i t w).
Proof.
  intros [H1 H2 H3 H4 H5 H6] Hi Hw Ha. split; simpl; try assumption.
  - apply waiters_insert; assumption.
  - apply (attempts_insert (tasks w) (λ j, inner_requests j w)); assumption.
Qed.

Lemma Inv_request_call w config : Inv w → Inv (request_call config w).
Proof.
  intros [H1 H2 H3 H4 H5 H6]. split; simpl; try assumption.
  - intros i c h Hi. apply lookup_app_Some in Hi as [Hi|[_ Hi]].
    + eapply H2, Hi.
    + destruct (i - length (tasks w)) as [|n]; simpl in Hi; discriminate.
  - intros h. unfold clears, has_settled in *. simpl.
    rewrite count_app, count_cons, count_nil. simpl.
    rewrite !Nat.add_0_r. apply H4.
  - unfold refresh_calls in *. simpl.
    rewrite count_app, count_cons, count_nil. simpl. lia.
  - intros i. unfold inner_requests in *. simpl.
    rewrite count_app, count_cons, count_nil. simpl.
    specialize (H6 i).
    destruct (Nat.eqb_spec (length (tasks w)) i) as [<-|Hne].
    + rewrite list_lookup_middle by reflexivity.
      rewrite lookup_ge_None_2 in H6 by lia. simpl in *. lia.
    + rewrite Nat.add_0_r. destruct (decide (i < length (tasks w))) as [Hi|Hi].
      * rewrite lookup_app_l by exact Hi. exact H6.
      * rewrite lookup_ge_None_2 in H6 by lia.
        rewrite lookup_ge_None_2; [exact H6|]. rewrite length_app. simpl. lia.
Qed.

Lemma has_settled_fresh (h h0 : Handle) :
  Nat.ltb h (S h0) && negb (Nat.eqb h0 h) = Nat.ltb h h0 && true.
Proof.
  destruct (Nat.ltb_spec h (S h0)), (Nat.ltb_spec h h0), (Nat.eqb_spec h0 h);
    simpl; try reflexivity; lia.
Qed.

Lemma Inv_request_catch w i config err :
  Inv w →
  tasks w !! i = Some (AwaitingInner config) →
  Inv (request_catch i config err w).
Proof.
  intros HI Hi. pose proof (lookup_lt_Some _ _ _ Hi) as Hlt.
  pose proof (inv_attempts w HI i) as Ha. rewrite Hi in Ha. simpl in Ha.
  unfold request_catch.
  destruct (is401 err && negb (isRefreshEndpoint config) && canRefresh w).
  - unfold doRefresh. destruct (refreshPromise w) as [h|] eqn:Hrp.
    + apply Inv_set_task; [exact HI | exact Hlt | | exact Ha].
      intros c h' [= _ <-]. exact Hrp.
    + destruct HI as [H1 H2 H3 H4 H5 H6]. split; simpl.
      * rewrite H1. unfold pending. rewrite Hrp. reflexivity.
      * apply waiters_insert.
        -- intros j c h Hj. specialize (H2 j c h Hj). congruence.
        -- intros c h [= _ <-]. reflexivity.
      * intros h [= <-]. lia.
      * intros h. unfold clears, has_settled in *. simpl.
        rewrite count_app, count_cons, count_nil. simpl.
        rewrite !Nat.add_0_r, has_settled_fresh.
        specialize (H4 h). rewrite Hrp in H4. exact H4.
      * unfold refresh_calls in *. simpl.
        rewrite count_app, count_cons, count_nil. simpl. lia.
      * apply (attempts_insert (tasks w)
                 (λ j, count (is_inner_of j) (trace w ++ [RefreshTokens (nextHandle w)]))).
        -- intros j. rewrite count_app, count_cons, count_nil. simpl.
           rewrite !Nat.add_0_r. apply H6.
        -- exact Hlt.
        -- rewrite count_app, count_cons, count_nil. simpl.
           rewrite !Nat.add_0_r. exact Ha.
  - apply Inv_set_task; [exact HI | exact Hlt | | left; exact Ha].
    intros c h [=].
Qed.

Lemma Inv_pending w h : Inv w → h ∈ inflight w → refreshPromise w = Some h.
Proof.
  intros HI Hin. rewrite (inv_inflight w HI) in Hin. unfold pending in Hin.
  destruct (refreshPromise w) as [h'|].
  - apply list_elem_of_singleton in Hin. congruence.
  - apply elem_of_nil in Hin. destruct Hin.
Qed.

Lemma Inv_refresh_settles w h o :
  Inv w → refreshPromise w = Some h → Inv (refresh_settles h o w).
Proof.
  intros [H1 H2 H3 H4 H5 H6] Hrp. unfold refresh_settles.
  destruct (resume h o 0 (tasks w)) as [ts es] eqn:Hres.
  assert (ts = resume_one h o <$> tasks w) as Hts
    by (rewrite <- resume_tasks with (k := 0), Hres; reflexivity).
  assert (es = (resume h o 0 (tasks w)).2) as Hes by (rewrite Hres; reflexivity).
  split; simpl.
  - rewrite H1. unfold pending, remove_handle. rewrite Hrp.
    rewrite filter_cons. destruct (decide (h ≠ h)); [congruence|reflexivity].
  - intros j c h' Hj. exfalso. rewrite Hts, list_lookup_fmap in Hj.
    destruct (tasks w !! j) as [t|] eqn:Ht; [|discriminate]. simpl in Hj.
    injection Hj as Hj. destruct t as [c0|c0 h0|c0|r]; simpl in Hj;
      try discriminate.
    specialize (H2 j c0 h0 Ht). rewrite Hrp in H2. injection H2 as ->.
    rewrite Nat.eqb_refl in Hj. destruct o; discriminate.
  - discriminate.
  - intros h'. unfold clears, has_settled in *. simpl.
    rewrite !count_app, count_cons. simpl.
    rewrite Hes, resume_only_inner by reflexivity.
    specialize (H4 h'). rewrite Hrp in H4. rewrite H4.
    destruct (Nat.eqb_spec h h') as [Heq|Hne]; simpl.
    + subst h'. rewrite andb_false_r, andb_true_r.
      destruct (Nat.ltb_spec h (nextHandle w)) as [_|Hge]; [reflexivity|].
      specialize (H3 h Hrp). lia.
    + rewrite !Nat.add_0_r. reflexivity.
  - unfold refresh_calls in *. simpl.
    rewrite !count_app, count_cons. simpl.
    rewrite Hes, resume_only_inner by reflexivity. lia.
  - intros j. unfold inner_requests in *. simpl.
    rewrite !count_app, count_cons. simpl.
    rewrite Hes, resume_inner, Hts, list_lookup_fmap.
    destruct (decide (0 ≤ j)); [|lia]. rewrite Nat.sub_0_r.
    specialize (H6 j).
    destruct (tasks w !! j) as [[c0|c0 h0|c0|r]|]; simpl in *;
      try (destruct o; simpl; lia).
    destruct (Nat.eqb h0 h), o; simpl; lia.
Qed.

Lemma Inv_step w ev : Inv w → Inv (step w ev).
Proof.
  intros HI. destruct ev as [config|i o|h o|c]; simpl.
  - apply Inv_request_call, HI.
  - destruct (tasks w !! i) as [[c0|c0 h0|c0|r]|] eqn:Hi; try exact HI.
    + destruct o as [err|resp].
      * apply Inv_request_catch; assumption.
      * pose proof (inv_attempts w HI i) as Ha. rewrite Hi in Ha.
        apply Inv_set_task; [exact HI | | | left; exact Ha].
        -- eapply lookup_lt_Some, Hi.
        -- intros c h [=].
    + pose proof (inv_attempts w HI i) as Ha. rewrite Hi in Ha.
      apply Inv_set_task; [exact HI | | | right; exact Ha].
      * eapply lookup_lt_Some, Hi.
      * intros c h [=].
  - case_bool_decide as Hin; [|exact HI].
    apply Inv_refresh_settles; [exact HI|]. apply Inv_pending; assumption.
  - destruct HI as [H1 H2 H3 H4 H5 H6]. split; assumption.
Qed.

Lemma Inv_run w evs : Inv w → Inv (run w evs).
Proof.
  revert w. induction evs as [|ev evs IH]; intros w HI; [exact HI|].
  simpl. apply IH, Inv_step, HI.
Qed.

(** *** One call among the others *)

Lemma inner_requests_set_task i j t w :
  inner_requests i (set_task j t w) = inner_requests i w.
Proof. reflexivity. Qed.

Lemma doRefresh_inner i w : inner_requests i (doRefresh w).2 = inner_requests i w.
Proof.
  unfold doRefresh. destruct (refreshPromise w); [reflexivity|].
  unfold inner_requests. simpl. rewrite count_app, count_cons, count_nil.
  simpl. lia.
Qed.

Lemma doRefresh_tasks w : tasks (doRefresh w).2 = tasks w.
Proof. unfold doRefresh. destruct (refreshPromise w); reflexivity. Qed.

Lemma request_catch_other i j config err w :
  i ≠ j →
  tasks (request_catch j config err w) !! i = tasks w !! i
  ∧ inner_requests i (request_catch j config err w) = inner_requests i w.
Proof.
  intros Hne. unfold request_catch.
  destruct (is401 err && negb (isRefreshEndpoint config) && canRefresh w).
  - pose proof (doRefresh_tasks w) as Ht. pose proof (doRefresh_inner i w) as Hn.
    destruct (doRefresh w) as [h w']. simpl in *.
    rewrite list_lookup_insert_ne by congruence. rewrite Ht. split; [reflexivity|].
    exact Hn.
  - simpl. rewrite list_lookup_insert_ne by congruence. split; reflexivity.
Qed.

(** An event that does not continue call [i] leaves its state alone and
    issues no request for it.  In particular a settled call stays settled. *)
Lemma step_stable w ev i t :
  tasks w !! i = Some t →
  reacts t ev i = false →
  tasks (step w ev) !! i = Some t
  ∧ inner_requests i (step w ev) = inner_requests i w.
Proof.
  intros Hi Hr. pose proof (lookup_lt_Some _ _ _ Hi) as Hlt.
  destruct ev as [config|j o|h o|c]; simpl.
  - rewrite lookup_app_l by exact Hlt. split; [exact Hi|].
    unfold inner_requests. simpl. rewrite count_app, count_cons, count_nil.
    simpl. destruct (Nat.eqb_spec (length (tasks w)) i); [lia|]. lia.
  - destruct (decide (j = i)) as [->|Hne].
    + rewrite Hi. destruct t as [c0|c0 h0|c0|r]; simpl in Hr.
      * rewrite Nat.eqb_refl in Hr. discriminate.
      * split; [exact Hi | reflexivity].
      * rewrite Nat.eqb_refl in Hr. discriminate.
      * split; [exact Hi | reflexivity].
    + destruct (tasks w !! j) as [[c0|c0 h0|c0|r]|];
        try (split; [exact Hi | reflexivity]).
      * destruct o as [err|resp].
        -- destruct (request_catch_other i j c0 err w) as [H1 H2]; [congruence|].
           rewrite H1. split; [exact Hi | exact H2].
        -- simpl. rewrite list_lookup_insert_ne by congruence.
           split; [exact Hi | reflexivity].
      * simpl. rewrite list_lookup_insert_ne by congruence.
        split; [exact Hi | reflexivity].
  - case_bool_decide; [|split; [exact Hi | reflexivity]].
    unfold refresh_settles.
    pose proof (resume_tasks h o 0 (tasks w)) as Ht.
    pose proof (resume_inner h o (tasks w) i 0) as Hn.
    destruct (resume h o 0 (tasks w)) as [ts es]. simpl in *. subst ts.
    rewrite list_lookup_fmap, Hi. simpl.
    assert (resume_one h o t = t ∧ retried h o (Some t) = 0) as [-> Hz].
    { destruct t as [c0|c0 h0|c0|r]; simpl in *; try (split; reflexivity).
      rewrite Hr. destruct o; split; reflexivity. }
    split; [reflexivity|]. unfold inner_requests. simpl.
    rewrite !count_app, count_cons. simpl. rewrite Hn.
    destruct (decide (0 ≤ i)); [|lia]. rewrite Nat.sub_0_r, Hi, Hz. lia.
  - split; [exact Hi | reflexivity].
Qed.

Lemma run_snoc w evs ev : run w (evs ++ [ev]) = step (run w evs) ev.
Proof. unfold run. rewrite foldl_app. reflexivity. Qed.

Lemma reachable_Inv c evs : Inv (run (init c) evs).
Proof. apply Inv_run, init_Inv. Qed.

Lemma outcome_set_task i o w :
  i < length (tasks w) → outcome i (set_task i (Settled o) w) = Some o.
Proof.
  intros Hi. unfold outcome. simpl. rewrite list_lookup_insert_eq by exact Hi.
  reflexivity.
Qed.

(** The first attempt of call [i] failed and the catch block does not
    refresh. *)
Lemma catch_propagates w i config err :
  i < length (tasks w) →
  is401 err && negb (isRefreshEndpoint config) && canRefresh w = false →
  request_catch i config err w = set_task i (Settled (rejected err)) w.
Proof. intros _ H. unfold request_catch. rewrite H. reflexivity. Qed.

Lemma settled_final w i o evs :
  tasks w !! i = Some (Settled o) →
  tasks (run w evs) !! i = Some (Settled o)
  ∧ inner_requests i (run w evs) = inner_requests i w.
Proof.
  revert w. induction evs as [|ev evs IH]; intros w Hi; [split; [exact Hi|reflexivity]|].
  destruct (step_stable w ev i (Settled o) Hi) as [H1 H2].
  { destruct ev; reflexivity. }
  simpl. destruct (IH _ H1) as [H3 H4]. split; [exact H3 | congruence].
Qed.

(** *** The claims about [request] *)

(** C10: for every request whose URL contains "/refresh" anywhere, a
    failure (a 401 included) of the first attempt is handed to the caller
    unchanged: nothing is added to the trace (no refreshTokens() call, no
    retry), the handle is untouched, and the call stays settled with that
    error whatever happens later. *)
Theorem refresh_substring_excluded (w : World) (i : nat) (config : HttpRequest)
    (err : JsError) (pre post : string) :
  tasks w !! i = Some (AwaitingInner config) →
  url config = (pre +:+ "/refresh") +:+ post →
  let w' := step w (InnerSettles i (rejected err)) in
  outcome i w' = Some (rejected err)
  ∧ trace w' = trace w
  ∧ refreshPromise w' = refreshPromise w
  ∧ inflight w' = inflight w
  ∧ ∀ evs, outcome i (run w' evs) = Some (rejected err)
           ∧ inner_requests i (run w' evs) = inner_requests i w.
Proof.
  intros Hi Hurl w'. pose proof (lookup_lt_Some _ _ _ Hi) as Hlt.
  assert (isRefreshEndpoint config = true) as Hre.
  { unfold isRefreshEndpoint. apply includes_spec. eauto. }
  assert (w' = set_task i (Settled (rejected err)) w) as ->.
  { subst w'. simpl. rewrite Hi. apply catch_propagates; [exact Hlt|].
    rewrite Hre. simpl. rewrite andb_false_r. reflexivity. }
  split; [apply outcome_set_task, Hlt|].
  repeat (split; [reflexivity|]).
  intros evs.
  destruct (settled_final (set_task i (Settled (rejected err)) w) i
              (rejected err) evs) as [H1 H2].
  { simpl. apply list_lookup_insert_eq, Hlt. }
  unfold outcome. rewrite H1. split; [reflexivity | exact H2].
Qed.

Lemma refresh_substring_excluded_witness :
  let w := run (init (Some Examples.theClient)) [Call Examples.getRefreshRates] in
  let w' := step w (InnerSettles 0 (rejected Examples.unauthorized)) in
  outcome 0 w' = Some (rejected Examples.unauthorized)
  ∧ trace w' = [InnerRequest 0 Examples.getRefreshRates]
  ∧ refreshPromise w' = None.
Proof.
  pose proof (refresh_substring_excluded
                (run (init (Some Examples.theClient)) [Call Examples.getRefreshRates])
                0 Examples.getRefreshRates Examples.unauthorized "/api" "-rates"
                eq_refl eq_refl) as (H1 & H2 & H3 & _).
  exact (conj H1 (conj H2 H3)).
Defined.

Lemma eligible_false err config w :
  is401 err = false ∨ isRefreshEndpoint config = true ∨ client w = None →
  is401 err && negb (isRefreshEndpoint config) && canRefresh w = false.
Proof.
  unfold canRefresh. intros [->|[->| ->]].
  - reflexivity.
  - simpl. rewrite andb_false_r. reflexivity.
  - apply andb_false_r.
Qed.

Lemma eligible_true err config w :
  is401 err = true → isRefreshEndpoint config = false → client w ≠ None →
  is401 err && negb (isRefreshEndpoint config) && canRefresh w = true.
Proof.
  unfold canRefresh. intros -> -> Hc. destruct (client w); [reflexivity|congruence].
Qed.

(** The settlement of the handle that call [i] waits for. *)
Lemma waiter_resumed w i config h o :
  Inv w →
  tasks w !! i = Some (AwaitingRefresh config h) →
  let w' := step w (RefreshSettles h o) in
  tasks w' !! i = Some (resume_one h o (AwaitingRefresh config h))
  ∧ refreshPromise w' = None
  ∧ inflight w' = []
  ∧ refresh_calls w' = refresh_calls w
  ∧ ∃ es, trace w' = trace w ++ [HandleCleared h] ++ es
          ∧ List.filter (is_inner_of i) es
            = retry_of h o i (Some (AwaitingRefresh config h)).
Proof.
  intros HI Hi w'. pose proof (inv_waiters w HI i config h Hi) as Hrp.
  pose proof (inv_inflight w HI) as Hin. unfold pending in Hin.
  rewrite Hrp in Hin. subst w'. simpl. rewrite Hin.
  rewrite bool_decide_eq_true_2 by apply list_elem_of_singleton, eq_refl.
  unfold refresh_settles.
  pose proof (resume_tasks h o 0 (tasks w)) as Ht.
  pose proof (resume_retry h o (tasks w) i 0) as Hn.
  pose proof (resume_only_inner h o (tasks w) 0 is_refresh_call) as Hc.
  destruct (resume h o 0 (tasks w)) as [ts es]. simpl in *. subst ts.
  rewrite list_lookup_fmap, Hi, Hin. simpl.
  split; [reflexivity|]. split; [reflexivity|]. split.
  { unfold remove_handle. rewrite filter_cons.
    destruct (decide (h ≠ h)); [congruence|reflexivity]. }
  split.
  { unfold refresh_calls. simpl. rewrite !count_app, count_cons. simpl.
    rewrite Hc by reflexivity. lia. }
  exists es. split; [reflexivity|]. rewrite Hn.
  destruct (decide (0 ≤ i)); [|lia]. rewrite Nat.sub_0_r, Hi. reflexivity.
Qed.

(** C2: the algorithm of [request], for a call [i] of [request(config)]
    in any world the adapter can reach, whatever the other calls do.
    (1) A successful first attempt is returned unchanged.  (2) A failure
    that is not a 401, or whose URL contains "/refresh" (the test of line
    48: the refresh endpoint is such a URL, and so is any other URL with
    that substring), or with no client attached, is rethrown unchanged
    and nothing is issued.  (3) On any other 401 the call waits for the
    shared handle.  (4) When the handle resolves, the request is issued
    again, once, with the same config.  (5) The outcome of that retry,
    success or failure (a second 401 included), is the outcome of the
    call, and nothing more is issued.  (6) Events that do not continue
    the call neither change its state nor issue a request for it. *)
Theorem request_algorithm (c : option NAuthClient) (evs : list Event)
    (i : nat) (config : HttpRequest) :
  let w := run (init c) evs in
  (tasks w !! i = Some (AwaitingInner config) →
   ∀ resp, let w' := step w (InnerSettles i (fulfilled resp)) in
     outcome i w' = Some (fulfilled resp)
     ∧ trace w' = trace w ∧ refreshPromise w' = refreshPromise w)
  ∧ (tasks w !! i = Some (AwaitingInner config) →
     ∀ err,
       is401 err = false ∨ isRefreshEndpoint config = true ∨ client w = None →
       let w' := step w (InnerSettles i (rejected err)) in
       outcome i w' = Some (rejected err)
       ∧ trace w' = trace w ∧ refreshPromise w' = refreshPromise w)
  ∧ (tasks w !! i = Some (AwaitingInner config) →
     ∀ err,
       is401 err = true → isRefreshEndpoint config = false → client w ≠ None →
       let w' := step w (InnerSettles i (rejected err)) in
       ∃ h, tasks w' !! i = Some (AwaitingRefresh config h)
            ∧ refreshPromise w' = Some h
            ∧ inner_requests i w' = 1)
  ∧ (∀ h, tasks w !! i = Some (AwaitingRefresh config h) →
     let w' := step w (RefreshSettles h (fulfilled ())) in
     tasks w' !! i = Some (AwaitingRetry config)
     ∧ inner_requests i w' = 2
     ∧ refresh_calls w' = refresh_calls w
     ∧ ∃ es, trace w' = trace w ++ [HandleCleared h] ++ es
             ∧ List.filter (is_inner_of i) es = [InnerRequest i config])
  ∧ (tasks w !! i = Some (AwaitingRetry config) →
     ∀ o, let w' := step w (InnerSettles i o) in
       outcome i w' = Some o
       ∧ trace w' = trace w ∧ refreshPromise w' = refreshPromise w
       ∧ inner_requests i w' = 2)
  ∧ (∀ t ev, tasks w !! i = Some t → reacts t ev i = false →
       tasks (step w ev) !! i = Some t
       ∧ inner_requests i (step w ev) = inner_requests i w).
Proof.
  intros w. pose proof (reachable_Inv c evs) as HI. fold w in HI.
  split; [|split; [|split; [|split; [|split]]]].
  - intros Hi resp w'. pose proof (lookup_lt_Some _ _ _ Hi) as Hlt.
    subst w'. simpl. rewrite Hi.
    split; [apply outcome_set_task, Hlt | split; reflexivity].
  - intros Hi err Hn w'. pose proof (lookup_lt_Some _ _ _ Hi) as Hlt.
    subst w'. simpl. rewrite Hi.
    rewrite catch_propagates by (try exact Hlt; apply eligible_false, Hn).
    split; [apply outcome_set_task, Hlt | split; reflexivity].
  - intros Hi err H1 H2 H3 w'. pose proof (lookup_lt_Some _ _ _ Hi) as Hlt.
    pose proof (inv_attempts w HI i) as Ha. rewrite Hi in Ha. simpl in Ha.
    subst w'. simpl. rewrite Hi. unfold request_catch.
    rewrite eligible_true by assumption.
    pose proof (doRefresh_tasks w) as Ht. pose proof (doRefresh_inner i w) as Hn.
    assert (refreshPromise (doRefresh w).2 = Some (doRefresh w).1) as Hrp.
    { unfold doRefresh. destruct (refreshPromise w) eqn:E; [exact E|reflexivity]. }
    destruct (doRefresh w) as [h w1]. simpl in *. exists h.
    rewrite Ht, list_lookup_insert_eq by exact Hlt.
    split; [reflexivity|]. split; [exact Hrp|].
    rewrite inner_requests_set_task. congruence.
  - intros h Hi w'.
    pose proof (inv_attempts w HI i) as Ha. rewrite Hi in Ha. simpl in Ha.
    destruct (waiter_resumed w i config h (fulfilled ()) HI Hi)
      as (H1 & _ & _ & H4 & es & H5 & H6).
    fold w' in H1, H4, H5. simpl in H1, H6. rewrite Nat.eqb_refl in H1, H6.
    split; [exact H1|]. split; [|split; [exact H4 | exists es; split; assumption]].
    unfold inner_requests in *. rewrite H5, !count_app, count_cons. simpl.
    unfold count at 2. rewrite H6. simpl. lia.
  - intros Hi o w'. pose proof (lookup_lt_Some _ _ _ Hi) as Hlt.
    pose proof (inv_attempts w HI i) as Ha. rewrite Hi in Ha. simpl in Ha.
    subst w'. simpl. rewrite Hi.
    split; [apply outcome_set_task, Hlt|]. repeat (split; [reflexivity|]).
    exact Ha.
  - intros t ev Hi Hr. apply step_stable; assumption.
Qed.

(** A request that meets a 401, waits for the refresh and is retried,
    while a second request is in flight. *)
Lemma request_algorithm_witness :
  let w := run (init (Some Examples.theClient))
             [Call Examples.getProfile; Call Examples.getSessions;
              InnerSettles 0 (rejected Examples.unauthorized)] in
  let w' := step w (RefreshSettles 0 (fulfilled ())) in
  tasks w' !! 0 = Some (AwaitingRetry Examples.getProfile)
  ∧ inner_requests 0 w' = 2
  ∧ refresh_calls w' = refresh_calls w.
Proof.
  pose proof (request_algorithm (Some Examples.theClient)
                [Call Examples.getProfile; Call Examples.getSessions;
                 InnerSettles 0 (rejected Examples.unauthorized)]
                0 Examples.getProfile) as (_ & _ & _ & H & _).
  destruct (H 0 eq_refl) as (H1 & H2 & H3 & _).
  exact (conj H1 (conj H2 H3)).
Defined.

(** The claim of C2 fails on the code for a request that is not a call
    of the refresh endpoint but has "/refresh" in its URL.  GET
    /api/refresh-rates gets a 401 while a client is attached: line 48
    takes it for the refresh endpoint, so the 401 is rethrown at once;
    refreshTokens() is not called and the request is not issued again. *)
Lemma refresh_rates_401_not_retried :
  let w0 := run (init (Some Examples.theClient)) [Call Examples.getRefreshRates] in
  let w := step w0 (InnerSettles 0 (rejected Examples.unauthorized)) in
  url Examples.getRefreshRates = "/api/refresh-rates"
  ∧ is401 Examples.unauthorized = true
  ∧ client w0 = Some Examples.theClient
  ∧ tasks w0 !! 0 = Some (AwaitingInner Examples.getRefreshRates)
  ∧ trace w = [InnerRequest 0 Examples.getRefreshRates]
  ∧ refresh_calls w = 0
  ∧ refreshPromise w = None
  ∧ inner_requests 0 w = 1
  ∧ inner_requests 0 w ≠ 2
  ∧ outcome 0 w = Some (rejected Examples.unauthorized)
  ∧ step w (RefreshSettles 0 (fulfilled ())) = w.
Proof.
  simpl. repeat split; try reflexivity. discriminate.
Qed.

(** *** A refresh that fails *)

(** The claim of C1 fails on the code: [await this.doRefresh()] throws
    inside the catch block, so line 54 is not reached.  One request gets
    a 401, the refresh it triggers is rejected: the caller receives the
    error of the refresh, and the adapter has invoked this.inner.request
    once, not twice. *)
Lemma refresh_rejected_no_retry :
  let w := run (init (Some Examples.theClient))
             [Call Examples.getProfile;
              InnerSettles 0 (rejected Examples.unauthorized);
              RefreshSettles 0 (rejected Examples.expired)] in
  trace w = [InnerRequest 0 Examples.getProfile; RefreshTokens 0; HandleCleared 0]
  ∧ inner_requests 0 w = 1
  ∧ inner_requests 0 w ≠ 2
  ∧ outcome 0 w = Some (rejected Examples.expired)
  ∧ step w (InnerSettles 0 (rejected Examples.serverError)) = w.
Proof.
  simpl. repeat split; try reflexivity. discriminate.
Qed.

(** C1, as the code has it: when the refresh that a call waits for is
    rejected, the rejection of the refresh is what the caller (and every
    other waiter of that handle) receives; the handle is cleared and
    nothing else happens: the original request is not issued again, then
    or later, so the call has invoked this.inner.request exactly once. *)
Theorem refresh_rejection_propagates (c : option NAuthClient)
    (evs : list Event) (i : nat) (config : HttpRequest) (h : Handle)
    (e : JsError) :
  let w := run (init c) evs in
  tasks w !! i = Some (AwaitingRefresh config h) →
  let w' := step w (RefreshSettles h (rejected e)) in
  outcome i w' = Some (rejected e)
  ∧ (∀ j config', tasks w !! j = Some (AwaitingRefresh config' h) →
       outcome j w' = Some (rejected e))
  ∧ trace w' = trace w ++ [HandleCleared h]
  ∧ refreshPromise w' = None
  ∧ ∀ evs', outcome i (run w' evs') = Some (rejected e)
            ∧ inner_requests i (run w' evs') = 1.
Proof.
  intros w Hi w'. pose proof (reachable_Inv c evs) as HI. fold w in HI.
  pose proof (inv_attempts w HI i) as Ha. rewrite Hi in Ha. simpl in Ha.
  assert (∀ j config', tasks w !! j = Some (AwaitingRefresh config' h) →
            tasks w' !! j = Some (Settled (rejected e))) as Hall.
  { intros j config' Hj.
    destruct (waiter_resumed w j config' h (rejected e) HI Hj) as (H1 & _).
    fold w' in H1. simpl in H1. rewrite Nat.eqb_refl in H1. exact H1. }
  destruct (waiter_resumed w i config h (rejected e) HI Hi)
    as (_ & H2 & _ & _ & es & H5 & _).
  fold w' in H2, H5.
  assert (trace w' = trace w ++ [HandleCleared h]) as Htr.
  { subst w'. simpl. simpl in H5. destruct (bool_decide (h ∈ inflight w)).
    - unfold refresh_settles, rejected.
      pose proof (resume_failure_silent h e 0 (tasks w)) as Hs.
      destruct (resume h (inl e) 0 (tasks w)) as [ts es']. simpl in *.
      rewrite Hs. reflexivity.
    - exfalso. clear -H5. apply (f_equal length) in H5.
      rewrite length_app in H5. simpl in H5. lia. }
  split; [unfold outcome; rewrite (Hall i config Hi); reflexivity|].
  split.
  { intros j config' Hj. unfold outcome. rewrite (Hall j config' Hj). reflexivity. }
  split; [exact Htr|]. split; [exact H2|].
  intros evs'.
  destruct (settled_final w' i (rejected e) evs' (Hall i config Hi)) as [H6 H7].
  unfold outcome. rewrite H6. split; [reflexivity|].
  rewrite H7. unfold inner_requests in *. rewrite Htr, count_app, count_cons.
  simpl. rewrite count_nil. lia.
Qed.

Lemma refresh_rejection_propagates_witness :
  let w := run (init (Some Examples.theClient))
             [Call Examples.getProfile;
              InnerSettles 0 (rejected Examples.unauthorized)] in
  let w' := step w (RefreshSettles 0 (rejected Examples.expired)) in
  outcome 0 w' = Some (rejected Examples.expired)
  ∧ trace w' = trace w ++ [HandleCleared 0].
Proof.
  pose proof (refresh_rejection_propagates (Some Examples.theClient)
                [Call Examples.getProfile;
                 InnerSettles 0 (rejected Examples.unauthorized)]
                0 Examples.getProfile 0 Examples.expired eq_refl)
    as (H1 & _ & H3 & _).
  exact (conj H1 H3).
Defined.

(** *** The handle *)

Lemma handle_kept w ev h :
  refreshPromise w = Some h →
  is_refresh_settles ev = false →
  refreshPromise (step w ev) = Some h
  ∧ inflight (step w ev) = inflight w
  ∧ refresh_calls (step w ev) = refresh_calls w.
Proof.
  intros Hrp Hev. destruct ev as [config|j o|h' o|c']; simpl; try discriminate.
  - split; [exact Hrp|]. split; [reflexivity|].
    unfold refresh_calls. simpl. rewrite count_app, count_cons, count_nil.
    simpl. lia.
  - destruct (tasks w !! j) as [[c0|c0 h0|c0|r]|]; try (repeat split; assumption).
    destruct o as [err|resp]; [|repeat split; assumption].
    unfold request_catch, doRefresh. rewrite Hrp.
    destruct (is401 err && negb (isRefreshEndpoint c0) && canRefresh w);
      repeat split; assumption.
  - repeat split; assumption.
Qed.

(** C9: the RefreshInFlight invariant, in every world [w] that the
    adapter can reach.  At most one refresh is pending and
    this.refreshPromise is its handle; every call that waits for a refresh
    waits for that handle; a handle that has settled was cleared exactly
    once, a pending one never.  The handle is created by the first 401
    that asks for a refresh (one refreshTokens() call); a 401 that arrives
    while it is pending gets the same handle and calls nothing; the handle
    stays until its refresh settles; and when that settles, resolved or
    rejected, the handle is cleared, so that the next 401 creates a new
    one. *)
Theorem refresh_in_flight_invariant (c : option NAuthClient) (evs : list Event) :
  let w := run (init c) evs in
  length (inflight w) ≤ 1
  ∧ inflight w = pending w
  ∧ (∀ i config h, tasks w !! i = Some (AwaitingRefresh config h) →
       refreshPromise w = Some h)
  ∧ (∀ h, clears h w = if has_settled h w then 1 else 0)
  ∧ (∀ i config err,
       refreshPromise w = None →
       tasks w !! i = Some (AwaitingInner config) →
       is401 err = true → isRefreshEndpoint config = false → client w ≠ None →
       let w' := step w (InnerSettles i (rejected err)) in
       refreshPromise w' = Some (nextHandle w)
       ∧ inflight w' = [nextHandle w]
       ∧ trace w' = trace w ++ [RefreshTokens (nextHandle w)]
       ∧ tasks w' !! i = Some (AwaitingRefresh config (nextHandle w)))
  ∧ (∀ i config err h,
       refreshPromise w = Some h →
       tasks w !! i = Some (AwaitingInner config) →
       is401 err = true → isRefreshEndpoint config = false → client w ≠ None →
       let w' := step w (InnerSettles i (rejected err)) in
       refreshPromise w' = Some h
       ∧ inflight w' = [h]
       ∧ trace w' = trace w
       ∧ tasks w' !! i = Some (AwaitingRefresh config h))
  ∧ (∀ h ev, refreshPromise w = Some h → is_refresh_settles ev = false →
       refreshPromise (step w ev) = Some h ∧ inflight (step w ev) = [h])
  ∧ (∀ h o, refreshPromise w = Some h →
       let w' := step w (RefreshSettles h o) in
       refreshPromise w' = None ∧ inflight w' = []
       ∧ clears h w = 0 ∧ clears h w' = 1).
Proof.
  intros w. pose proof (reachable_Inv c evs) as HI. fold w in HI.
  pose proof (inv_inflight w HI) as Hin.
  split.
  { rewrite Hin. unfold pending. destruct (refreshPromise w); simpl; lia. }
  split; [exact Hin|]. split; [exact (inv_waiters w HI)|].
  split; [exact (inv_clears w HI)|].
  split; [|split; [|split]].
  - intros i config err Hrp Hi H1 H2 H3 w'.
    pose proof (lookup_lt_Some _ _ _ Hi) as Hlt.
    subst w'. simpl. rewrite Hi. unfold request_catch, doRefresh.
    rewrite eligible_true, Hrp by assumption. simpl.
    rewrite Hin. unfold pending. rewrite Hrp.
    rewrite list_lookup_insert_eq by exact Hlt. repeat split.
  - intros i config err h Hrp Hi H1 H2 H3 w'.
    pose proof (lookup_lt_Some _ _ _ Hi) as Hlt.
    subst w'. simpl. rewrite Hi. unfold request_catch, doRefresh.
    rewrite eligible_true, Hrp by assumption. simpl.
    rewrite Hin. unfold pending. rewrite Hrp.
    rewrite list_lookup_insert_eq by exact Hlt. repeat split.
  - intros h ev Hrp Hev. destruct (handle_kept w ev h Hrp Hev) as (H1 & H2 & _).
    split; [exact H1|]. rewrite H2, Hin. unfold pending. rewrite Hrp. reflexivity.
  - intros h o Hrp w'.
    pose proof (Inv_step w (RefreshSettles h o) HI) as HI'. fold w' in HI'.
    assert (refreshPromise w' = None ∧ inflight w' = []) as [E1 E2].
    { subst w'. simpl. rewrite Hin. unfold pending. rewrite Hrp.
      rewrite bool_decide_eq_true_2 by apply list_elem_of_singleton, eq_refl.
      unfold refresh_settles. destruct (resume h o 0 (tasks w)) as [ts es].
      simpl. split; [reflexivity|]. rewrite Hin. unfold pending, remove_handle.
      rewrite Hrp, filter_cons. destruct (decide (h ≠ h)); [congruence|reflexivity]. }
    split; [exact E1|]. split; [exact E2|].
    pose proof (inv_fresh w HI h Hrp) as Hf.
    assert (nextHandle w' = nextHandle w) as Hnx.
    { subst w'. simpl. destruct (bool_decide (h ∈ inflight w)); [|reflexivity].
      unfold refresh_settles. destruct (resume h o 0 (tasks w)). reflexivity. }
    split.
    + rewrite (inv_clears w HI h). unfold has_settled. rewrite Hrp, Nat.eqb_refl.
      simpl. rewrite andb_false_r. reflexivity.
    + rewrite (inv_clears w' HI' h). unfold has_settled. rewrite E1, Hnx.
      destruct (Nat.ltb_spec h (nextHandle w)); [reflexivity|lia].
Qed.

(** A first refresh that is rejected and a second one that a later 401
    starts. *)
Lemma refresh_in_flight_invariant_witness :
  let w := run (init (Some Examples.theClient))
             [Call Examples.getProfile;
              InnerSettles 0 (rejected Examples.unauthorized);
              RefreshSettles 0 (rejected Examples.expired);
              Call Examples.getSessions] in
  let w' := step w (InnerSettles 1 (rejected Examples.unauthorized)) in
  clears 0 w = 1
  ∧ refreshPromise w' = Some 1
  ∧ inflight w' = [1]
  ∧ trace w' = trace w ++ [RefreshTokens 1].
Proof.
  pose proof (refresh_in_flight_invariant (Some Examples.theClient)
                [Call Examples.getProfile;
                 InnerSettles 0 (rejected Examples.unauthorized);
                 RefreshSettles 0 (rejected Examples.expired);
                 Call Examples.getSessions]) as (_ & _ & _ & H4 & H5 & _).
  destruct (H5 1 Examples.getSessions Examples.unauthorized
              eq_refl eq_refl eq_refl eq_refl) as (H6 & H7 & H8 & _).
  { discriminate. }
  exact (conj (H4 0) (conj H6 (conj H7 H8))).
Defined.

(** *** Lists of calls *)

Lemma forallb_lookup {A} (f : A → bool) (l : list A) i x :
  forallb f l = true → l !! i = Some x → f x = true.
Proof.
  revert i. induction l as [|y l IH]; intros i H Hi; [destruct i; discriminate|].
  simpl in H. apply andb_true_iff in H as [Hy Hl].
  destruct i as [|i]; simpl in Hi; [congruence | eapply IH; eassumption].
Qed.

Lemma forallb_insert {A} (f : A → bool) (l : list A) i x :
  forallb f l = true → f x = true → forallb f (<[i:=x]> l) = true.
Proof.
  revert i. induction l as [|y l IH]; intros i H Hx; [reflexivity|].
  simpl in H. apply andb_true_iff in H as [Hy Hl].
  destruct i as [|i]; simpl; rewrite ?Hx, ?Hy; simpl; auto.
Qed.

(** *** Refresh cycles *)

Lemma Cycle_init c : Cycle (init c).
Proof. split; [discriminate | reflexivity]. Qed.

Lemma handle_calls_fresh (h h0 : Handle) (n : nat) :
  n = (if Nat.ltb h h0 then 1 else 0) →
  n + ((if Nat.eqb h0 h then 1 else 0) + 0) = if Nat.ltb h (S h0) then 1 else 0.
Proof.
  intros ->.
  destruct (Nat.ltb_spec h h0), (Nat.eqb_spec h0 h), (Nat.ltb_spec h (S h0));
    lia.
Qed.

Lemma Cycle_step w ev : Cycle w → Cycle (step w ev).
Proof.
  intros [H1 H2]. destruct ev as [config|i o|h o|c]; simpl.
  - split; simpl; [exact H1|]. intros h. unfold handle_calls in *. simpl.
    rewrite count_app, count_cons, count_nil. simpl. rewrite !Nat.add_0_r.
    apply H2.
  - destruct (tasks w !! i) as [[c0|c0 h0|c0|r]|];
      try (split; assumption).
    destruct o as [err|resp]; [|split; assumption].
    unfold request_catch, doRefresh.
    destruct (is401 err && negb (isRefreshEndpoint c0) && canRefresh w);
      [|split; assumption].
    destruct (refreshPromise w) as [h|] eqn:Hrp.
    { split; simpl; [rewrite Hrp; exact H1 | exact H2]. }
    split; simpl.
    + intros h [= <-]. reflexivity.
    + intros h. unfold handle_calls in *. simpl.
      rewrite count_app, count_cons, count_nil. simpl.
      apply handle_calls_fresh, H2.
  - destruct (bool_decide (h ∈ inflight w)); [|split; assumption].
    unfold refresh_settles.
    pose proof (λ h', resume_only_inner h o (tasks w) 0 (is_refresh_of h')) as Hc.
    destruct (resume h o 0 (tasks w)) as [ts es]. simpl in Hc.
    split; simpl; [discriminate|].
    intros h'. unfold handle_calls in *. simpl.
    rewrite !count_app, count_cons, Hc by reflexivity. simpl.
    rewrite !Nat.add_0_r. apply H2.
  - split; assumption.
Qed.

Lemma reachable_Cycle c evs : Cycle (run (init c) evs).
Proof.
  induction evs as [|ev evs IH] using rev_ind; [apply Cycle_init|].
  unfold run. rewrite foldl_app. apply Cycle_step, IH.
Qed.

(** The trace only grows. *)
Lemma step_trace_grows w ev : ∃ es, trace (step w ev) = trace w ++ es.
Proof.
  assert (∃ es, trace w = trace w ++ es) as Hsame
    by (exists []; rewrite app_nil_r; reflexivity).
  destruct ev as [config|i o|h o|c]; simpl.
  - eexists. reflexivity.
  - destruct (tasks w !! i) as [[c0|c0 h0|c0|r]|]; try exact Hsame.
    destruct o as [err|resp]; [|exact Hsame].
    unfold request_catch, doRefresh.
    destruct (is401 err && negb (isRefreshEndpoint c0) && canRefresh w);
      [|exact Hsame].
    destruct (refreshPromise w); [exact Hsame|]. eexists. reflexivity.
  - destruct (bool_decide (h ∈ inflight w)); [|exact Hsame].
    unfold refresh_settles. destruct (resume h o 0 (tasks w)) as [ts es].
    eexists. reflexivity.
  - exact Hsame.
Qed.

Lemma inner_requests_mono w evs i :
  inner_requests i w ≤ inner_requests i (run w evs).
Proof.
  revert w. induction evs as [|ev evs IH]; intros w; [reflexivity|].
  simpl. etransitivity; [|apply IH].
  destruct (step_trace_grows w ev) as [es Hes].
  unfold inner_requests. rewrite Hes, count_app. lia.
Qed.

(** While the handle is pending, a call that waits for it stays where it
    is, whatever else happens. *)
Lemma waiter_kept w evs i config h :
  forallb (λ ev, negb (is_refresh_settles ev)) evs = true →
  refreshPromise w = Some h →
  tasks w !! i = Some (AwaitingRefresh config h) →
  tasks (run w evs) !! i = Some (AwaitingRefresh config h)
  ∧ inner_requests i (run w evs) = inner_requests i w
  ∧ refreshPromise (run w evs) = Some h
  ∧ refresh_calls (run w evs) = refresh_calls w.
Proof.
  revert w. induction evs as [|ev evs IH]; intros w Hevs Hrp Hi.
  { repeat split; assumption. }
  simpl in Hevs. apply andb_true_iff in Hevs as [Hev Hevs].
  apply negb_true_iff in Hev.
  destruct (step_stable w ev i _ Hi) as [H1 H2].
  { destruct ev; try reflexivity. discriminate. }
  destruct (handle_kept w ev h Hrp Hev) as (H3 & _ & H4).
  destruct (IH (step w ev) Hevs H3 H1) as (H5 & H6 & H7 & H8).
  simpl. repeat split; congruence.
Qed.

(** A call that has been retried only waits for the retry, and then is
    settled: its continuation issues nothing. *)
Lemma retry_is_last w evs i config :
  tasks w !! i = Some (AwaitingRetry config) →
  (tasks (run w evs) !! i = Some (AwaitingRetry config)
   ∨ ∃ o, tasks (run w evs) !! i = Some (Settled o))
  ∧ ∀ o, trace (step (run w evs) (InnerSettles i o)) = trace (run w evs).
Proof.
  intros Hi.
  assert (tasks (run w evs) !! i = Some (AwaitingRetry config)
          ∨ ∃ o, tasks (run w evs) !! i = Some (Settled o)) as H.
  { revert w Hi. induction evs as [|ev evs IH]; intros w Hi; [left; exact Hi|].
    simpl. destruct (reacts (AwaitingRetry config) ev i) eqn:Hr.
    - destruct ev as [c0|j o|h o|c0]; try discriminate. simpl in Hr.
      apply Nat.eqb_eq in Hr. subst j. right. exists o.
      apply settled_final. simpl. rewrite Hi. simpl.
      apply list_lookup_insert_eq. eapply lookup_lt_Some, Hi.
    - apply IH. apply (step_stable w ev i _ Hi Hr). }
  split; [exact H|]. intros o. simpl.
  destruct H as [->|[o' ->]]; reflexivity.
Qed.

(** From a moment without a pending refresh, and as long as no refresh
    settles, at most one refreshTokens() call is made: one if a handle is
    pending, none otherwise. *)
Lemma one_refresh_step w ev (n : nat) :
  is_refresh_settles ev = false →
  nextHandle w = n + length (pending w) →
  nextHandle (step w ev) = n + length (pending (step w ev)).
Proof.
  intros Hev H. destruct ev as [config|j o|h o|c']; simpl; try discriminate;
    try exact H.
  destruct (tasks w !! j) as [[c0|c0 h0|c0|r]|]; try exact H.
  destruct o as [err|resp]; [|exact H].
  unfold request_catch, doRefresh.
  destruct (is401 err && negb (isRefreshEndpoint c0) && canRefresh w);
    [|exact H].
  unfold pending in *. destruct (refreshPromise w) eqn:E; simpl; rewrite ?E.
  - exact H.
  - simpl in H. lia.
Qed.

Lemma one_refresh_run w evs (n : nat) :
  forallb (λ ev, negb (is_refresh_settles ev)) evs = true →
  nextHandle w = n + length (pending w) →
  nextHandle (run w evs) = n + length (pending (run w evs)).
Proof.
  revert w. induction evs as [|ev evs IH]; intros w Hevs H; [exact H|].
  simpl in Hevs. apply andb_true_iff in Hevs as [Hev Hevs].
  simpl. apply IH; [exact Hevs|]. apply one_refresh_step; [|exact H].
  destruct (is_refresh_settles ev); [discriminate|reflexivity].
Qed.

(** *** Concurrent 401s *)

(** The claim of C3 fails on the code in three ways.  First, when the
    one refresh is rejected: two concurrent requests get a 401, one
    refreshTokens() call is made, it is rejected, and neither request is
    issued a second time.  Second, when one of the requests has "/refresh"
    in its URL without being a call of the refresh endpoint: GET /profile
    and GET /api/refresh-rates both get a 401; only the first waits for
    the refresh and is retried, the second fails at once with its 401 and
    is never issued again.  Third, when the 401s do not fall into the same
    refresh: two requests are in flight together, the 401 of the first
    starts a refresh, which resolves, and only then the 401 of the second
    arrives; it finds no handle and starts a second refresh, so
    refreshTokens() is called twice and the two callers have awaited
    different handles. *)
Lemma concurrent_401_not_single_flight :
  (let w := run (init (Some Examples.theClient))
              [Call Examples.getProfile; Call Examples.getSessions;
               InnerSettles 1 (rejected Examples.unauthorized);
               InnerSettles 0 (rejected Examples.unauthorized);
               RefreshSettles 0 (rejected Examples.expired)] in
   refresh_calls w = 1
   ∧ inner_requests 0 w = 1 ∧ inner_requests 1 w = 1
   ∧ inner_requests 0 w ≠ 2 ∧ inner_requests 1 w ≠ 2
   ∧ outcome 0 w = Some (rejected Examples.expired)
   ∧ outcome 1 w = Some (rejected Examples.expired))
  ∧ (let w := run (init (Some Examples.theClient))
                [Call Examples.getProfile; Call Examples.getRefreshRates;
                 InnerSettles 0 (rejected Examples.unauthorized);
                 InnerSettles 1 (rejected Examples.unauthorized);
                 RefreshSettles 0 (fulfilled ())] in
     url Examples.getRefreshRates = "/api/refresh-rates"
     ∧ refresh_calls w = 1
     ∧ inner_requests 0 w = 2
     ∧ inner_requests 1 w = 1 ∧ inner_requests 1 w ≠ 2
     ∧ outcome 1 w = Some (rejected Examples.unauthorized))
  ∧ (let w0 := run (init (Some Examples.theClient))
                 [Call Examples.getProfile; Call Examples.getSessions] in
     let w1 := run w0 [InnerSettles 0 (rejected Examples.unauthorized)] in
     let w2 := run w1 [RefreshSettles 0 (fulfilled ());
                       InnerSettles 1 (rejected Examples.unauthorized)] in
     tasks w0 = [AwaitingInner Examples.getProfile;
                 AwaitingInner Examples.getSessions]
     ∧ tasks w1 !! 0 = Some (AwaitingRefresh Examples.getProfile 0)
     ∧ tasks w2 !! 1 = Some (AwaitingRefresh Examples.getSessions 1)
     ∧ refresh_calls w2 = 2 ∧ refresh_calls w2 ≠ 1
     ∧ trace w2 = [InnerRequest 0 Examples.getProfile;
                   InnerRequest 1 Examples.getSessions;
                   RefreshTokens 0; HandleCleared 0;
                   InnerRequest 0 Examples.getProfile;
                   RefreshTokens 1]).
Proof.
  simpl. repeat split; try reflexivity; discriminate.
Qed.

(** C3, as the code has it, in any world [w] that the adapter can reach:
    after any number of earlier refreshes, and with any other calls under
    way or finished.  Let the 401s of N >= 1 calls of [request], the calls
    [waiting], fall into the same refresh: the N calls are suspended
    together at line 52 (each got a 401 for a URL without "/refresh" while
    a client was attached, and the refresh it started or found pending has
    not settled).  Then all N wait for one and
    the same handle [h], the one in this.refreshPromise; exactly one
    refreshTokens() call was made for it, and it is the last one made:
    since the last moment at which no refresh was pending, refreshTokens()
    has been called exactly once.  As long as that refresh has not
    settled, whatever else happens (new calls, more 401s), no further
    refreshTokens() call is made and the N calls keep waiting.  If the refresh resolves, each of the N requests is issued
    again exactly once, with its own config, in the turn that clears the
    handle, and never again: from then on the call has made two requests,
    it waits for the retry or is settled, and the settlement of the retry
    issues nothing.  If the refresh is rejected, none of the N requests is
    ever issued again and each of the N calls fails with the error of the
    refresh. *)
Theorem single_flight (c : option NAuthClient) (evs : list Event)
    (waiting : list nat) :
  let w := run (init c) evs in
  let N := length waiting in
  1 ≤ N →
  forallb (parked w) waiting = true →
  ∃ h,
    refreshPromise w = Some h
    ∧ inflight w = [h]
    ∧ handle_calls h w = 1
    ∧ refresh_calls w = S h
    ∧ (∀ evs0 evs1,
         evs = evs0 ++ evs1 →
         refreshPromise (run (init c) evs0) = None →
         forallb (λ ev, negb (is_refresh_settles ev)) evs1 = true →
         refresh_calls w = S (refresh_calls (run (init c) evs0)))
    ∧ (∀ i, i ∈ waiting →
         ∃ config, tasks w !! i = Some (AwaitingRefresh config h)
                   ∧ inner_requests i w = 1)
    ∧ (∀ evs1, forallb (λ ev, negb (is_refresh_settles ev)) evs1 = true →
         let w1 := run w evs1 in
         refreshPromise w1 = Some h
         ∧ refresh_calls w1 = refresh_calls w
         ∧ handle_calls h w1 = 1
         ∧ ∀ i, i ∈ waiting →
             tasks w1 !! i = tasks w !! i ∧ inner_requests i w1 = 1)
    ∧ (let w' := step w (RefreshSettles h (fulfilled ())) in
       refresh_calls w' = refresh_calls w
       ∧ refreshPromise w' = None
       ∧ ∀ i, i ∈ waiting →
           ∃ config,
             tasks w !! i = Some (AwaitingRefresh config h)
             ∧ tasks w' !! i = Some (AwaitingRetry config)
             ∧ (∃ es, trace w' = trace w ++ [HandleCleared h] ++ es
                      ∧ List.filter (is_inner_of i) es = [InnerRequest i config])
             ∧ inner_requests i w' = 2
             ∧ ∀ evs', let w'' := run w' evs' in
                 inner_requests i w'' = 2
                 ∧ (tasks w'' !! i = Some (AwaitingRetry config)
                    ∨ ∃ o, tasks w'' !! i = Some (Settled o))
                 ∧ ∀ o, trace (step w'' (InnerSettles i o)) = trace w'')
    ∧ (∀ e, let w' := step w (RefreshSettles h (rejected e)) in
         refresh_calls w' = refresh_calls w
         ∧ refreshPromise w' = None
         ∧ ∀ i, i ∈ waiting →
             ∀ evs', outcome i (run w' evs') = Some (rejected e)
                     ∧ inner_requests i (run w' evs') = 1).
Proof.
  intros w N HN Hall. pose proof (reachable_Inv c evs) as HI. fold w in HI.
  pose proof (reachable_Cycle c evs) as HC. fold w in HC.
  assert (∀ i, i ∈ waiting →
            ∃ config h, tasks w !! i = Some (AwaitingRefresh config h)) as Hwait.
  { intros i Hi. apply list_elem_of_lookup in Hi as [k Hk].
    pose proof (forallb_lookup _ _ _ _ Hall Hk) as Hp. unfold parked in Hp.
    destruct (tasks w !! i) as [[c0|c0 h0|c0|r]|]; try discriminate. eauto. }
  assert (∃ i0, i0 ∈ waiting) as [i0 Hi0].
  { subst N. destruct waiting as [|i0 rest]; [simpl in HN; lia|].
    exists i0. apply elem_of_cons. left. reflexivity. }
  destruct (Hwait i0 Hi0) as (c0 & h & H0).
  pose proof (inv_waiters w HI i0 c0 h H0) as Hrp.
  assert (∀ i, i ∈ waiting →
            ∃ config, tasks w !! i = Some (AwaitingRefresh config h)
                      ∧ inner_requests i w = 1) as Hallh.
  { intros i Hi. destruct (Hwait i Hi) as (ci & hi & Hti). exists ci.
    pose proof (inv_waiters w HI i ci hi Hti) as Hrpi.
    rewrite Hrp in Hrpi. injection Hrpi as <-. split; [exact Hti|].
    pose proof (inv_attempts w HI i) as Ha. rewrite Hti in Ha. exact Ha. }
  pose proof (cycle_latest w HC h Hrp) as Hnx.
  assert (handle_calls h w = 1) as Hone.
  { rewrite (cycle_calls w HC h), Hnx.
    destruct (Nat.ltb_spec h (S h)); [reflexivity|lia]. }
  exists h. split; [exact Hrp|].
  split. { rewrite (inv_inflight w HI). unfold pending. rewrite Hrp. reflexivity. }
  split; [exact Hone|].
  split. { rewrite (inv_calls w HI). exact Hnx. }
  split.
  { intros evs0 evs1 Hsplit Hrp0 Hevs1.
    pose proof (reachable_Inv c evs0) as HI0.
    rewrite (inv_calls w HI), (inv_calls _ HI0).
    pose proof (one_refresh_run (run (init c) evs0) evs1
                  (nextHandle (run (init c) evs0)) Hevs1) as Hrun.
    unfold pending at 1 in Hrun. rewrite Hrp0 in Hrun.
    specialize (Hrun ltac:(simpl; lia)).
    assert (run (run (init c) evs0) evs1 = w) as Hw.
    { subst w. rewrite Hsplit. unfold run. rewrite foldl_app. reflexivity. }
    rewrite Hw in Hrun. unfold pending in Hrun. rewrite Hrp in Hrun.
    simpl in Hrun. lia. }
  split; [exact Hallh|].
  split; [|split].
  - intros evs1 Hevs1 w1.
    destruct (waiter_kept w evs1 i0 c0 h Hevs1 Hrp H0) as (_ & _ & H3 & H4).
    fold w1 in H3, H4. split; [exact H3|]. split; [exact H4|].
    split.
    { assert (Cycle w1) as HC1.
      { subst w1 w. unfold run. rewrite <- foldl_app. apply reachable_Cycle. }
      assert (Inv w1) as HI1 by apply Inv_run, HI.
      pose proof (inv_calls w1 HI1) as E1. pose proof (inv_calls w HI) as E2.
      rewrite (cycle_calls w1 HC1 h).
      destruct (Nat.ltb_spec h (nextHandle w1)); [reflexivity|lia]. }
    intros i Hi. destruct (Hallh i Hi) as (ci & Hti & Hni).
    destruct (waiter_kept w evs1 i ci h Hevs1 Hrp Hti) as (H5 & H6 & _).
    fold w1 in H5, H6. split; congruence.
  - intros w'.
    destruct (waiter_resumed w i0 c0 h (fulfilled ()) HI H0)
      as (_ & H2 & _ & H4 & _).
    fold w' in H2, H4. split; [exact H4|]. split; [exact H2|].
    intros i Hi. destruct (Hallh i Hi) as (ci & Hti & Hni). exists ci.
    destruct (waiter_resumed w i ci h (fulfilled ()) HI Hti)
      as (H1 & _ & _ & _ & es & H5 & H6).
    fold w' in H1, H5. simpl in H1, H6. rewrite Nat.eqb_refl in H1, H6.
    assert (inner_requests i w' = 2) as Htwo.
    { unfold inner_requests in *. rewrite H5, !count_app, count_cons. simpl.
      unfold count at 2. rewrite H6. simpl. lia. }
    split; [exact Hti|]. split; [exact H1|].
    split; [exists es; split; assumption|]. split; [exact Htwo|].
    intros evs' w''.
    destruct (retry_is_last w' evs' i ci H1) as [Hst Hlast].
    fold w'' in Hst, Hlast.
    split; [|split; assumption].
    pose proof (inner_requests_mono w' evs' i) as Hge. fold w'' in Hge.
    assert (Inv w'') as HI'' by apply Inv_run, Inv_step, HI.
    pose proof (inv_attempts w'' HI'' i) as Ha.
    destruct Hst as [Hst|[o Hst]]; rewrite Hst in Ha; simpl in Ha; lia.
  - intros e w'.
    destruct (waiter_resumed w i0 c0 h (rejected e) HI H0)
      as (_ & H2 & _ & H4 & _).
    fold w' in H2, H4. split; [exact H4|]. split; [exact H2|].
    intros i Hi evs'. destruct (Hallh i Hi) as (ci & Hti & Hni).
    destruct (waiter_resumed w i ci h (rejected e) HI Hti)
      as (H1 & _ & _ & _ & es & H5 & H6).
    fold w' in H1, H5. simpl in H1, H6. rewrite Nat.eqb_refl in H1.
    destruct (settled_final w' i (rejected e) evs' H1) as [H7 H8].
    unfold outcome. rewrite H7. split; [reflexivity|].
    rewrite H8. unfold inner_requests in *.
    rewrite H5, !count_app, count_cons. simpl.
    unfold count at 2. rewrite H6. simpl. lia.
Qed.

(** A second refresh cycle, among other calls.  The first call went
    through a refresh of its own and is finished, the second succeeded at
    once; then three more requests are sent, two of them get a 401 (out
    of order) and wait together, the third is still in flight. *)
Lemma single_flight_witness :
  let w := run (init (Some Examples.theClient))
             [Call Examples.getProfile;
              InnerSettles 0 (rejected Examples.unauthorized);
              RefreshSettles 0 (fulfilled ());
              InnerSettles 0 (fulfilled Examples.ok);
              Call Examples.postLogout;
              InnerSettles 1 (fulfilled Examples.ok);
              Call Examples.getProfile; Call Examples.getSessions;
              Call Examples.postLogout;
              InnerSettles 3 (rejected Examples.unauthorized);
              InnerSettles 2 (rejected Examples.unauthorized)] in
  let w' := step w (RefreshSettles 1 (fulfilled ())) in
  refreshPromise w = Some 1
  ∧ handle_calls 1 w = 1
  ∧ refresh_calls w = 2
  ∧ refresh_calls w' = 2
  ∧ tasks w' !! 2 = Some (AwaitingRetry Examples.getProfile)
  ∧ tasks w' !! 3 = Some (AwaitingRetry Examples.getSessions)
  ∧ inner_requests 2 w' = 2
  ∧ inner_requests 3 w' = 2.
Proof.
  destruct (single_flight (Some Examples.theClient)
              [Call Examples.getProfile;
               InnerSettles 0 (rejected Examples.unauthorized);
               RefreshSettles 0 (fulfilled ());
               InnerSettles 0 (fulfilled Examples.ok);
               Call Examples.postLogout;
               InnerSettles 1 (fulfilled Examples.ok);
               Call Examples.getProfile; Call Examples.getSessions;
               Call Examples.postLogout;
               InnerSettles 3 (rejected Examples.unauthorized);
               InnerSettles 2 (rejected Examples.unauthorized)]
              [2; 3] ltac:(simpl; lia) eq_refl)
    as (h & H1 & _ & H3 & H4 & _ & _ & _ & (H5 & _ & H6) & _).
  assert (h = 1) as -> by (simpl in H1; congruence).
  simpl in H4.
  destruct (H6 2) as (c2 & Ha2 & Hb2 & _ & Hc2 & _);
    [apply elem_of_cons; left; reflexivity|].
  destruct (H6 3) as (c3 & Ha3 & Hb3 & _ & Hc3 & _);
    [apply elem_of_cons; right; apply elem_of_cons; left; reflexivity|].
  assert (c2 = Examples.getProfile) as -> by (simpl in Ha2; congruence).
  assert (c3 = Examples.getSessions) as -> by (simpl in Ha3; congruence).
  refine (conj H1 (conj H3 (conj H4 (conj _ (conj Hb2 (conj Hb3 (conj Hc2 Hc3))))))).
  rewrite H5. exact H4.
Defined.

End AdapterFacts.

(** ** The session controller *)

Module ProviderFacts.
Import Sdk AuthProvider.

Lemma step_updates p ev us p' :
  handle p ev = (us, p') →
  us ≠ [] →
  state (step p ev) = commit (state p') us
  ∧ renders (step p ev) = renders p' ++ [commit (state p') us].
Proof.
  intros H Hne. unfold step. rewrite H. destruct us; [congruence|].
  split; reflexivity.
Qed.

(** C6: when auth:success fires (the provider is mounted, and the SDK has
    put the user into its cache before emitting the event), the listener
    clears [challenge] and then sets [user] from the cache, in one piece
    of synchronous code: the next state that consumers see has no
    challenge, the cached user, and isAuthenticated = true.  The profile
    is fetched; when that fetch resolves later (the provider still
    mounted) [user] is replaced by the fetched profile. *)
Theorem auth_success_sets_user (p : Provider) (u : AuthUser) :
  mounted p = true →
  cache p = Some u →
  let p' := step p AuthSuccess in
  (handle p AuthSuccess).1 = [SetChallenge None; SetUser (Some u)]
  ∧ challenge (state p') = None
  ∧ user (state p') = Some u
  ∧ isAuthenticated (state p') = true
  ∧ renders p' = renders p ++ [state p']
  ∧ fetches p' = fetches p ++ [true]
  ∧ (∀ q k profile,
       mounted q = true → fetches q !! k = Some true →
       let q' := step q (ProfileSettles k (fulfilled profile)) in
       user (state q') = Some profile
       ∧ challenge (state q') = challenge (state q)
       ∧ isAuthenticated (state q') = true).
Proof.
  intros Hm Hc p'.
  assert (handle p AuthSuccess
          = ([SetChallenge None; SetUser (Some u)],
             with_control p (init_pc p) (fetches p ++ [true]))) as Hh.
  { simpl. unfold onSuccess. rewrite Hm, Hc. reflexivity. }
  destruct (step_updates p AuthSuccess _ _ Hh) as [Hs Hr]; [discriminate|].
  fold p' in Hs, Hr. rewrite Hh. simpl in Hs, Hr.
  split; [reflexivity|]. rewrite Hs. simpl.
  do 3 (split; [reflexivity|]).
  split; [exact Hr|]. split.
  { subst p'. unfold step. rewrite Hh. reflexivity. }
  intros q k profile Hmq Hk. unfold step. simpl.
  rewrite Hk. unfold onSuccess_profile, fulfilled. rewrite Hmq. simpl.
  repeat split.
Qed.

Lemma auth_success_sets_user_witness :
  let p := run (mount None)
             [InitializeSettles (fulfilled ());
              StoredChallengeSettles (fulfilled (Some Examples.emailChallenge));
              CacheChanges (Some Examples.alice)] in
  let p' := step p AuthSuccess in
  challenge (state p) = Some Examples.emailChallenge
  ∧ challenge (state p') = None
  ∧ user (state p') = Some Examples.alice
  ∧ isAuthenticated (state p') = true.
Proof.
  pose proof (auth_success_sets_user
                (run (mount None)
                   [InitializeSettles (fulfilled ());
                    StoredChallengeSettles (fulfilled (Some Examples.emailChallenge));
                    CacheChanges (Some Examples.alice)])
                Examples.alice eq_refl eq_refl) as (_ & H2 & H3 & H4 & _).
  exact (conj eq_refl (conj H2 (conj H3 H4))).
Defined.

(** C7: when auth:logout or auth:session_expired fires (the provider is
    mounted), the listener clears [user] and [challenge] in one piece of
    synchronous code, so exactly one new state is committed and both are
    null in it: no state with only one of them cleared is ever seen. *)
Theorem logout_clears_both (p : Provider) (ev : Event) :
  mounted p = true →
  ev = AuthLogout ∨ ev = AuthSessionExpired →
  let p' := step p ev in
  (handle p ev).1 = [SetUser None; SetChallenge None]
  ∧ user (state p') = None
  ∧ challenge (state p') = None
  ∧ isAuthenticated (state p') = false
  ∧ renders p' = renders p ++ [state p'].
Proof.
  intros Hm Hev p'.
  assert (handle p ev = ([SetUser None; SetChallenge None], p)) as Hh.
  { destruct Hev as [-> | ->]; simpl;
      unfold onLogout, onSessionExpired; rewrite Hm; reflexivity. }
  destruct (step_updates p ev _ _ Hh) as [Hs Hr]; [discriminate|].
  fold p' in Hs, Hr. rewrite Hh, Hs. simpl.
  do 4 (split; [reflexivity|]). exact Hr.
Qed.

Lemma logout_clears_both_witness :
  let p := run (mount (Some Examples.alice))
             [InitializeSettles (fulfilled ());
              InitProfileSettles (fulfilled Examples.aliceProfile);
              StoredChallengeSettles (fulfilled (Some Examples.mfaChallenge))] in
  let p' := step p AuthSessionExpired in
  user (state p) = Some Examples.aliceProfile
  ∧ challenge (state p) = Some Examples.mfaChallenge
  ∧ user (state p') = None
  ∧ challenge (state p') = None
  ∧ renders p' = renders p ++ [state p'].
Proof.
  pose proof (logout_clears_both
                (run (mount (Some Examples.alice))
                   [InitializeSettles (fulfilled ());
                    InitProfileSettles (fulfilled Examples.aliceProfile);
                    StoredChallengeSettles (fulfilled (Some Examples.mfaChallenge))])
                AuthSessionExpired eq_refl (or_intror eq_refl))
    as (_ & H2 & H3 & _ & H5).
  exact (conj eq_refl (conj eq_refl (conj H2 (conj H3 H5)))).
Defined.

(** C8: a rejected background getProfile() never sets [user] to null
    while a cached user exists.  During initialization (the cache held
    [current] after initialize()), the catch of line 127 sets [user] to
    [current].  After auth:success, the rejection callback of line 96
    sets [user] to what client.getCurrentUser() returns at that moment,
    the cached user [u].  If the provider is unmounted, nothing is set. *)
Theorem profile_failure_keeps_user (p : Provider) (err : JsError) :
  (∀ current, init_pc p = AwaitInitProfile current →
     let ev := InitProfileSettles (rejected err) in
     (handle p ev).1 = (if mounted p then [SetUser (Some current)] else [])
     ∧ (mounted p = true →
        user (state (step p ev)) = Some current
        ∧ isAuthenticated (state (step p ev)) = true)
     ∧ (mounted p = false → state (step p ev) = state p))
  ∧ (∀ k u, fetches p !! k = Some true → cache p = Some u →
     let ev := ProfileSettles k (rejected err) in
     (handle p ev).1 = (if mounted p then [SetUser (Some u)] else [])
     ∧ (mounted p = true →
        user (state (step p ev)) = Some u
        ∧ isAuthenticated (state (step p ev)) = true)
     ∧ (mounted p = false → state (step p ev) = state p)).
Proof.
  split.
  - intros current Hpc ev. subst ev. unfold step. simpl. rewrite Hpc.
    unfold init_after_profile, rejected.
    destruct (mounted p); simpl; repeat split; congruence.
  - intros k u Hk Hc ev. subst ev. unfold step. simpl. rewrite Hk, Hc.
    unfold onSuccess_profile, rejected.
    destruct (mounted p); simpl; repeat split; congruence.
Qed.

(** Both paths on one account: the profile fetch of the initialization
    fails, and so does the one that follows a later auth:success. *)
Lemma profile_failure_keeps_user_witness :
  let p := run (mount (Some Examples.alice)) [InitializeSettles (fulfilled ())] in
  let q := run p [InitProfileSettles (rejected Examples.offline);
                  StoredChallengeSettles (fulfilled None); AuthSuccess] in
  user (state (step p (InitProfileSettles (rejected Examples.offline))))
  = Some Examples.alice
  ∧ user (state (step q (ProfileSettles 0 (rejected Examples.offline))))
    = Some Examples.alice.
Proof.
  pose proof (profile_failure_keeps_user
                (run (mount (Some Examples.alice)) [InitializeSettles (fulfilled ())])
                Examples.offline) as (H1 & _).
  destruct (H1 Examples.alice eq_refl) as (_ & H2 & _).
  pose proof (profile_failure_keeps_user
                (run (mount (Some Examples.alice))
                   [InitializeSettles (fulfilled ());
                    InitProfileSettles (rejected Examples.offline);
                    StoredChallengeSettles (fulfilled None); AuthSuccess])
                Examples.offline) as (_ & H3).
  destruct (H3 0 Examples.alice eq_refl eq_refl) as (_ & H4 & _).
  exact (conj (proj1 (H2 eq_refl)) (proj1 (H4 eq_refl))).
Defined.

End ProviderFacts.

(** ** The OAuth landing page *)

Module OAuthFacts.
Import Sdk AuthProvider OAuthCallbackPage.

(** With an exchange token, and a response of exchangeSocialRedirect that
    carries a challenge, handleOAuthCallback makes the response the
    controller's challenge, does not call getProfile(), does not set a
    user, and resolves with needsChallenge. *)
Lemma callback_surfaces_challenge (error : option string) (token : string)
    (response : AuthResponse) (kind : AuthChallenge)
    (profile : Settlement AuthUser) :
  truthy error = false →
  truthy (Some token) = true →
  challengeName response = Some kind →
  handleOAuthCallback error (Some token) (fulfilled response) profile
  = {| result := fulfilled {| result_user := None; needsChallenge := true |};
       updates := [SetChallenge (Some response)];
       calls := [ExchangeSocialRedirect token] |}.
Proof.
  intros He Ht Hk. unfold handleOAuthCallback. rewrite He, Ht. simpl.
  rewrite Hk. reflexivity.
Qed.

(** Whenever handleOAuthCallback resolves, the page goes to /dashboard:
    the value it tests is the result object, never the user. *)
Lemma page_resolved_goes_to_dashboard (error exchangeToken : option string)
    (exchange : Settlement AuthResponse) (profile : Settlement AuthUser)
    (r : CallbackResult) :
  truthy error = false →
  result (handleOAuthCallback error exchangeToken exchange profile) = inr r →
  (effect false error exchangeToken exchange profile).1.2
  = [Navigate "/dashboard"].
Proof.
  intros He Hr. unfold effect. rewrite He. simpl. rewrite Hr. reflexivity.
Qed.

(** C4, on the landing ?exchangeToken=xt-1 when the exchange answers
    with an MFA challenge: handleOAuthCallback surfaces the challenge and
    fetches no profile, but the page then navigates to /dashboard, the
    authenticated view, although needsChallenge is true and no user is
    set. *)
Theorem oauth_challenge_routed_to_dashboard :
  effect false None (Some "xt-1") (fulfilled Examples.mfaChallenge)
    (rejected Examples.unauthorized)
  = (true,
     [Navigate "/dashboard"],
     Some {| result := fulfilled {| result_user := None; needsChallenge := true |};
             updates := [SetChallenge (Some Examples.mfaChallenge)];
             calls := [ExchangeSocialRedirect "xt-1"] |}).
Proof. reflexivity. Qed.

End OAuthFacts.

(** ** The challenge page *)

Module ChallengeFacts.
Import Sdk ChallengePage.

Lemma truthy_nonempty (s : string) : s ≠ "" → truthy (Some s) = true.
Proof.
  intros H. simpl. destruct (String.eqb_spec s ""); [congruence|reflexivity].
Qed.

(** The claim of C5 fails on the code: for an MFA_REQUIRED challenge whose
    method is TOTP the submitted object still has a [code] field. *)
Lemma totp_response_carries_code :
  isTotp Examples.preferredMethod Examples.mfaChallenge = true
  ∧ ∃ obj,
      handleSubmit Examples.preferredMethod Examples.asciiTrim
        (Some Examples.mfaChallenge) "123456 " = Some obj
      ∧ obj !! "method" = Some (JsString "totp")
      ∧ obj !! "code" = Some (JsString "123456")
      ∧ obj !! "code" ≠ None.
Proof.
  split; [reflexivity|]. eexists. split; [reflexivity|].
  split; [reflexivity|]. split; [reflexivity|]. discriminate.
Qed.

(** C5, as the code has it: for every MFA_REQUIRED challenge (with a
    session), the object given to respondToChallenge has [type],
    [session], a [method] field whose value is getMFAMethod(challenge),
    and a [code] field holding the trimmed input, whatever the method;
    when the method is TOTP the [code] field is there as well. *)
Theorem mfa_response_fields (getMFAMethod : AuthResponse → option string)
    (trim : string → string) (c : AuthResponse) (sess code : string) :
  challengeName c = Some MFA_REQUIRED →
  session c = Some sess →
  sess ≠ "" →
  ∃ obj,
    handleSubmit getMFAMethod trim (Some c) code = Some obj
    ∧ obj !! "type" = Some (JsString "MFA_REQUIRED")
    ∧ obj !! "session" = Some (JsString sess)
    ∧ obj !! "method" = Some (of_optional (getMFAMethod c))
    ∧ obj !! "code" = Some (JsString (trim code))
    ∧ (isTotp getMFAMethod c = true →
       obj !! "method" = Some (JsString "totp")
       ∧ obj !! "code" = Some (JsString (trim code))).
Proof.
  intros Hk Hs Hne. unfold handleSubmit. rewrite Hs, Hk.
  rewrite (truthy_nonempty sess Hne). simpl.
  eexists. split; [reflexivity|]. unfold challengeResponse. simpl.
  assert (∀ m : gmap string JsValue,
            <["code":=JsString (trim code)]> m !! "code"
            = Some (JsString (trim code))) as Hcode
    by (intros m; apply lookup_insert_eq).
  split. { rewrite !lookup_insert_ne by discriminate. apply lookup_insert_eq. }
  split. { rewrite !lookup_insert_ne by discriminate. apply lookup_insert_eq. }
  split. { rewrite lookup_insert_ne by discriminate. apply lookup_insert_eq. }
  split; [apply Hcode|].
  intros Ht. split; [|apply Hcode].
  rewrite lookup_insert_ne by discriminate. rewrite lookup_insert_eq.
  unfold isTotp, mfaMethod in Ht. rewrite Hk in Ht. simpl in Ht.
  destruct (getMFAMethod c) as [m|]; [|discriminate].
  apply String.eqb_eq in Ht. subst m. reflexivity.
Qed.

Lemma mfa_response_fields_witness :
  ∃ obj,
    handleSubmit Examples.preferredMethod Examples.asciiTrim
      (Some Examples.mfaChallenge) "123456" = Some obj
    ∧ obj !! "method" = Some (JsString "totp")
    ∧ obj !! "code" = Some (JsString "123456").
Proof.
  destruct (mfa_response_fields Examples.preferredMethod Examples.asciiTrim
              Examples.mfaChallenge "s1" "123456" eq_refl eq_refl)
    as (obj & H1 & _ & _ & H4 & H5 & _).
  { discriminate. }
  exists obj. exact (conj H1 (conj H4 H5)).
Defined.

End ChallengeFacts.

(** ** More about the refreshing HTTP adapter *)

Module AdapterExtras.
Import RefreshingFetchAdapter Schedules AdapterFacts.

(** X1: in every schedule, a call of [request] invokes this.inner.request
    at least once and at most twice (there is never a second retry), and
    nothing is requested for a call that was not made. *)
Theorem at_most_one_retry (c : option NAuthClient) (evs : list Event) (i : nat) :
  let w := run (init c) evs in
  (i < length (tasks w) → 1 ≤ inner_requests i w ∧ inner_requests i w ≤ 2)
  ∧ (length (tasks w) ≤ i → inner_requests i w = 0).
Proof.
  intros w. pose proof (inv_attempts w (reachable_Inv c evs) i) as Ha.
  split.
  - intros Hi. destruct (lookup_lt_is_Some_2 (tasks w) i Hi) as [t Ht].
    rewrite Ht in Ha. destruct t; simpl in Ha; lia.
  - intros Hi. rewrite lookup_ge_None_2 in Ha by exact Hi. exact Ha.
Qed.

Lemma filter_insert_length {A} (f : A → bool) (l : list A) i t t' :
  l !! i = Some t →
  length (List.filter f (<[i:=t']> l)) + (if f t then 1 else 0)
  = length (List.filter f l) + (if f t' then 1 else 0).
Proof.
  revert i. induction l as [|x l IH]; intros i Hi; [destruct i; discriminate|].
  destruct i as [|i]; simpl in *.
  - injection Hi as ->. destruct (f t), (f t'); simpl; lia.
  - specialize (IH i Hi). destruct (f x); simpl; lia.
Qed.

Lemma filter_resume_length h o (l : list Task) :
  length (List.filter awaits_inner (resume_one h o <$> l))
  = length (List.filter awaits_inner l).
Proof.
  induction l as [|t l IH]; [reflexivity|].
  rewrite fmap_cons. cbn [List.filter].
  assert (awaits_inner (resume_one h o t) = awaits_inner t) as ->.
  { destruct t as [c0|c0 h0|c0|r]; simpl; try reflexivity.
    destruct (Nat.eqb h0 h); [destruct o|]; reflexivity. }
  destruct (awaits_inner t); cbn [length]; rewrite IH; reflexivity.
Qed.

Lemma refreshes_fit_step w ev : refreshes_fit w → refreshes_fit (step w ev).
Proof.
  unfold refreshes_fit. intros H. destruct ev as [config|i o|h o|c']; simpl.
  - rewrite List.filter_app, !length_app. simpl. lia.
  - destruct (tasks w !! i) as [[c0|c0 h0|c0|r]|] eqn:Hi; try exact H.
    + assert (∀ t', awaits_inner t' = false →
                S (length (List.filter awaits_inner (<[i:=t']> (tasks w))))
                = length (List.filter awaits_inner (tasks w))
                ∧ length (<[i:=t']> (tasks w)) = length (tasks w)) as Hset.
      { intros t' Hf. rewrite length_insert.
        pose proof (filter_insert_length awaits_inner (tasks w) i _ t' Hi) as E.
        rewrite Hf in E. simpl in E. lia. }
      destruct o as [err|resp].
      * unfold request_catch, doRefresh.
        destruct (is401 err && negb (isRefreshEndpoint c0) && canRefresh w).
        -- destruct (refreshPromise w) as [h|]; simpl.
           ++ destruct (Hset (AwaitingRefresh c0 h) eq_refl). lia.
           ++ destruct (Hset (AwaitingRefresh c0 (nextHandle w)) eq_refl). lia.
        -- simpl. destruct (Hset (Settled (rejected err)) eq_refl). lia.
      * simpl. destruct (Hset (Settled (fulfilled resp)) eq_refl). lia.
    + simpl. rewrite length_insert.
      pose proof (filter_insert_length awaits_inner (tasks w) i _
                    (Settled o) Hi) as E. simpl in E. lia.
  - case_bool_decide; [|exact H]. unfold refresh_settles.
    pose proof (resume_tasks h o 0 (tasks w)) as Ht.
    destruct (resume h o 0 (tasks w)) as [ts es]. simpl in *. subst ts.
    rewrite filter_resume_length, length_fmap. exact H.
  - exact H.
Qed.

Lemma refreshes_fit_run w evs : refreshes_fit w → refreshes_fit (run w evs).
Proof.
  revert w. induction evs as [|ev evs IH]; intros w H; [exact H|].
  simpl. apply IH, refreshes_fit_step, H.
Qed.

(** X2: in every schedule, refreshTokens() was called at most once for
    each call of [request] that has received the answer to its first
    attempt; in particular never more often than [request] was called. *)
Theorem refreshes_bounded_by_calls (c : option NAuthClient) (evs : list Event) :
  let w := run (init c) evs in
  refresh_calls w + length (List.filter awaits_inner (tasks w))
  ≤ length (tasks w)
  ∧ refresh_calls w ≤ length (tasks w).
Proof.
  intros w. pose proof (refreshes_fit_run (init c) evs) as H.
  unfold refreshes_fit in H. simpl in H. specialize (H (Nat.le_refl 0)).
  fold w in H. rewrite (inv_calls w (reachable_Inv c evs)). lia.
Qed.

(** *** When nothing calls for a refresh *)

Lemma init_Passthrough c : Passthrough (init c).
Proof. split; try reflexivity. Qed.

Lemma forallb_snoc {A} (f : A → bool) (l : list A) x :
  forallb f l = true → f x = true → forallb f (l ++ [x]) = true.
Proof.
  intros Hl Hx. rewrite forallb_app, Hl. simpl. rewrite Hx. reflexivity.
Qed.

Lemma Passthrough_set_task w i t :
  Passthrough w → untouched t = true → Passthrough (set_task i t w).
Proof.
  intros [H1 H2 H3 H4 H5] Ht. split; simpl; try assumption.
  - apply forallb_insert; assumption.
  - intros j. rewrite length_insert. apply H5.
Qed.

(** One event that does not make the catch block refresh. *)
Lemma Passthrough_step w ev :
  Passthrough w →
  (∀ i config err,
     ev = InnerSettles i (rejected err) →
     tasks w !! i = Some (AwaitingInner config) →
     is401 err && negb (isRefreshEndpoint config) && canRefresh w = false) →
  Passthrough (step w ev).
Proof.
  intros HP Hq. destruct ev as [config|i o|h o|c']; simpl.
  - destruct HP as [H1 H2 H3 H4 H5]. split; simpl; try assumption.
    + unfold refresh_calls in *. simpl.
      rewrite count_app, count_cons, count_nil. simpl. lia.
    + apply forallb_snoc; [exact H4 | reflexivity].
    + intros j. unfold inner_requests in *. simpl.
      rewrite count_app, count_cons, count_nil, length_app. simpl.
      specialize (H5 j). rewrite H5.
      destruct (Nat.ltb_spec j (length (tasks w))),
               (Nat.ltb_spec j (length (tasks w) + 1)),
               (Nat.eqb_spec (length (tasks w)) j); simpl; lia.
  - destruct (tasks w !! i) as [[c0|c0 h0|c0|r]|] eqn:Hi; try exact HP.
    + destruct o as [err|resp].
      * unfold request_catch. rewrite (Hq i c0 err eq_refl Hi).
        apply Passthrough_set_task; [exact HP | reflexivity].
      * apply Passthrough_set_task; [exact HP | reflexivity].
    + apply Passthrough_set_task; [exact HP | reflexivity].
  - rewrite (pass_inflight w HP).
    rewrite bool_decide_eq_false_2 by apply not_elem_of_nil. exact HP.
  - destruct HP as [H1 H2 H3 H4 H5]. split; assumption.
Qed.

(** X3: as long as no inner request is answered with a 401, the adapter
    adds nothing to the inner adapter: refreshTokens() is never called, no
    handle exists, every call issues exactly one request, and no call
    waits or is retried.  (Other failures, a 500 or a network error, are
    included.) *)
Theorem no_401_passthrough (c : option NAuthClient) (evs : list Event) :
  forallb no_401 evs = true →
  let w := run (init c) evs in
  refresh_calls w = 0
  ∧ refreshPromise w = None
  ∧ forallb untouched (tasks w) = true
  ∧ ∀ i, inner_requests i w = if Nat.ltb i (length (tasks w)) then 1 else 0.
Proof.
  intros Hevs w.
  assert (Passthrough w) as [H1 H2 H3 H4 H5]; [|repeat split; assumption].
  subst w. generalize (init_Passthrough c). generalize (init c).
  induction evs as [|ev evs IH]; intros w HP; [exact HP|].
  simpl in Hevs. apply andb_true_iff in Hevs as [Hev Hevs].
  simpl. apply IH; [exact Hevs|]. apply Passthrough_step; [exact HP|].
  intros i config err -> _. simpl in Hev.
  destruct (is401 err); [discriminate|reflexivity].
Qed.

Lemma no_401_passthrough_witness :
  let w := run (init (Some Examples.theClient))
             [Call Examples.getProfile; Call Examples.getSessions;
              InnerSettles 1 (rejected Examples.serverError);
              InnerSettles 0 (fulfilled Examples.ok)] in
  refresh_calls w = 0
  ∧ inner_requests 0 w = 1 ∧ inner_requests 1 w = 1
  ∧ outcome 1 w = Some (rejected Examples.serverError).
Proof.
  pose proof (no_401_passthrough (Some Examples.theClient)
                [Call Examples.getProfile; Call Examples.getSessions;
                 InnerSettles 1 (rejected Examples.serverError);
                 InnerSettles 0 (fulfilled Examples.ok)] eq_refl)
    as (H1 & _ & _ & H4).
  exact (conj H1 (conj (H4 0) (conj (H4 1) eq_refl))).
Defined.

(** X4: an adapter on which setClient was never called adds nothing to
    the inner adapter either, 401s included: every failure is rethrown,
    refreshTokens() is never called and every call issues exactly one
    request. *)
Theorem no_client_passthrough (evs : list Event) :
  forallb no_setClient evs = true →
  let w := run (init None) evs in
  client w = None
  ∧ refresh_calls w = 0
  ∧ refreshPromise w = None
  ∧ forallb untouched (tasks w) = true
  ∧ (∀ i, inner_requests i w = if Nat.ltb i (length (tasks w)) then 1 else 0)
  ∧ ∀ i config err,
      tasks w !! i = Some (AwaitingInner config) →
      let w' := step w (InnerSettles i (rejected err)) in
      outcome i w' = Some (rejected err) ∧ trace w' = trace w.
Proof.
  intros Hevs w.
  assert (client w = None ∧ Passthrough w) as [H0 [H1 H2 H3 H4 H5]].
  2:{ split; [exact H0|]. split; [exact H3|]. split; [exact H1|].
      split; [exact H4|]. split; [exact H5|].
      intros i config err Hi w'. pose proof (lookup_lt_Some _ _ _ Hi) as Hlt.
      subst w'. simpl. rewrite Hi.
      rewrite catch_propagates
        by (try exact Hlt; apply eligible_false; right; right; exact H0).
      split; [apply outcome_set_task, Hlt | reflexivity]. }
  subst w.
  assert (client (init None) = None) as Hc by reflexivity.
  revert Hc. generalize (init_Passthrough None). generalize (init None).
  induction evs as [|ev evs IH]; intros w HP Hc; [split; assumption|].
  simpl in Hevs. apply andb_true_iff in Hevs as [Hev Hevs].
  simpl. apply IH; [exact Hevs| |].
  - apply Passthrough_step; [exact HP|]. intros i config err _ _.
    unfold canRefresh. rewrite Hc. apply andb_false_r.
  - destruct ev as [config|i o|h o|c']; simpl; try discriminate; try exact Hc.
    + destruct (tasks w !! i) as [[c0|c0 h0|c0|r]|]; try exact Hc.
      destruct o as [err|resp]; [|exact Hc].
      unfold request_catch, doRefresh.
      destruct (is401 err && negb (isRefreshEndpoint c0) && canRefresh w);
        [|exact Hc].
      destruct (refreshPromise w); exact Hc.
    + case_bool_decide; [|exact Hc]. unfold refresh_settles.
      destruct (resume h o 0 (tasks w)). exact Hc.
Qed.

Lemma no_client_passthrough_witness :
  let w := run (init None)
             [Call Examples.getProfile;
              InnerSettles 0 (rejected Examples.unauthorized)] in
  refresh_calls w = 0
  ∧ inner_requests 0 w = 1
  ∧ outcome 0 w = Some (rejected Examples.unauthorized).
Proof.
  pose proof (no_client_passthrough
                [Call Examples.getProfile;
                 InnerSettles 0 (rejected Examples.unauthorized)] eq_refl)
    as (_ & H1 & _ & _ & H4 & _).
  exact (conj H1 (conj (H4 0) eq_refl)).
Defined.

End AdapterExtras.

(** ** More about the session controller *)

Module ProviderExtras.
Import Sdk AuthProvider ProtectedRoute.

Lemma run_app p evs1 evs2 : run p (evs1 ++ evs2) = run (run p evs1) evs2.
Proof. unfold run. apply foldl_app. Qed.

(** [isLoading] is false exactly when the hydration code ran to its end. *)
Lemma loading_step p ev :
  isLoading (state p) = negb (init_finished (init_pc p)) →
  isLoading (state (step p ev)) = negb (init_finished (init_pc (step p ev))).
Proof.
  intros H. unfold step. destruct ev as [| d | | |o|o|o|k o|u|]; simpl.
  - unfold onSuccess. destruct (mounted p); simpl; [|exact H].
    destruct (cache p); simpl; exact H.
  - unfold onChallenge. destruct (mounted p); simpl; exact H.
  - unfold onLogout. destruct (mounted p); simpl; exact H.
  - unfold onSessionExpired. destruct (mounted p); simpl; exact H.
  - destruct (init_pc p) eqn:Hpc; try (simpl; rewrite ?Hpc; exact H).
    destruct o as [e|u]; simpl; [exact H|].
    unfold init_after_initialize.
    destruct (mounted p); simpl; [|exact H].
    destruct (cache p); simpl; exact H.
  - destruct (init_pc p) eqn:Hpc; try (simpl; rewrite ?Hpc; exact H).
    unfold init_after_profile.
    destruct o as [e|u], (mounted p); simpl; exact H.
  - destruct (init_pc p) eqn:Hpc; try (simpl; rewrite ?Hpc; exact H).
    destruct o as [e|sc]; simpl; [exact H|].
    unfold init_after_stored. destruct (mounted p); simpl; [reflexivity|exact H].
  - destruct (fetches p !! k) as [[|]|]; simpl; try exact H.
    unfold onSuccess_profile. destruct o as [e|u], (mounted p); simpl; exact H.
  - exact H.
  - exact H.
Qed.

Lemma loading_run cached evs :
  let p := run (mount cached) evs in
  isLoading (state p) = negb (init_finished (init_pc p)).
Proof.
  simpl. assert (isLoading (state (mount cached))
                 = negb (init_finished (init_pc (mount cached)))) as H
    by reflexivity.
  revert H. generalize (mount cached).
  induction evs as [|ev evs IH]; intros p H; [exact H|].
  simpl. apply IH, loading_step, H.
Qed.

(** X5: what a protected route shows, for every state the provider can
    reach: the spinner until the hydration code has run to its end (never
    a redirect before that), then the children when a user is set and the
    redirect to /login when none is. *)
Theorem protected_route_gate (cached : option AuthUser) (evs : list Event) :
  let p := run (mount cached) evs in
  (render (state p) = Spinner ↔ init_pc p ≠ InitFinished)
  ∧ (render (state p) = Children
     ↔ init_pc p = InitFinished ∧ user (state p) ≠ None)
  ∧ (render (state p) = RedirectTo "/login"
     ↔ init_pc p = InitFinished ∧ user (state p) = None).
Proof.
  intros p. pose proof (loading_run cached evs) as H. fold p in H.
  unfold render, ProtectedRoute, isAuthenticated. rewrite H.
  destruct (init_pc p), (user (state p)); simpl;
    repeat split; try intros [? ?]; try intros ?; congruence.
Qed.

(** The ways in which the hydration code ends are final. *)
Lemma init_over_step p ev :
  init_over (init_pc p) = true → init_pc (step p ev) = init_pc p.
Proof.
  intros H. unfold step. destruct ev as [| d | | |o|o|o|k o|u|]; simpl.
  - unfold onSuccess. destruct (mounted p); simpl; [|reflexivity].
    destruct (cache p); reflexivity.
  - unfold onChallenge. destruct (mounted p); reflexivity.
  - unfold onLogout. destruct (mounted p); reflexivity.
  - unfold onSessionExpired. destruct (mounted p); reflexivity.
  - destruct (init_pc p) eqn:Hpc; try discriminate;
      destruct o; simpl; rewrite ?Hpc; reflexivity.
  - destruct (init_pc p) eqn:Hpc; try discriminate;
      simpl; rewrite ?Hpc; reflexivity.
  - destruct (init_pc p) eqn:Hpc; try discriminate;
      destruct o; simpl; rewrite ?Hpc; reflexivity.
  - destruct (fetches p !! k) as [[|]|]; simpl; try reflexivity.
    unfold onSuccess_profile. destruct o, (mounted p); reflexivity.
  - reflexivity.
  - reflexivity.
Qed.

Lemma init_over_run p evs :
  init_over (init_pc p) = true → init_pc (run p evs) = init_pc p.
Proof.
  revert p. induction evs as [|ev evs IH]; intros p H; [reflexivity|].
  simpl. pose proof (init_over_step p ev H) as E.
  rewrite IH by (rewrite E; exact H). exact E.
Qed.

(** X6: the hydration code has no catch around initialize() and
    getStoredChallenge().  If either is rejected, isLoading stays true for
    ever, whatever events follow (a later auth:success included), and a
    protected route keeps showing the spinner. *)
Theorem hydration_failure_keeps_loading (cached : option AuthUser)
    (evs0 : list Event) (e : JsError) (evs : list Event) :
  let p := run (mount cached) evs0 in
  (init_pc p = AwaitInitialize →
   let q := run p (InitializeSettles (rejected e) :: evs) in
   isLoading (state q) = true ∧ render (state q) = Spinner)
  ∧ (init_pc p = AwaitStoredChallenge →
     let q := run p (StoredChallengeSettles (rejected e) :: evs) in
     isLoading (state q) = true ∧ render (state q) = Spinner).
Proof.
  intros p.
  assert (∀ ev, init_pc (step p ev) = InitFailed e →
            let q := run p (ev :: evs) in
            isLoading (state q) = true ∧ render (state q) = Spinner) as Hfin.
  { intros ev Hpc q.
    assert (q = run (mount cached) (evs0 ++ ev :: evs)) as Hq
      by (subst q p; rewrite run_app; reflexivity).
    pose proof (loading_run cached (evs0 ++ ev :: evs)) as Hl.
    simpl in Hl. rewrite <- Hq in Hl.
    assert (init_pc q = InitFailed e) as Hpq.
    { subst q. simpl. rewrite init_over_run by (rewrite Hpc; reflexivity).
      exact Hpc. }
    rewrite Hpq in Hl. simpl in Hl. unfold render, ProtectedRoute.
    rewrite Hl. split; reflexivity. }
  split; intros Hpc; apply Hfin; unfold step; simpl; rewrite Hpc; reflexivity.
Qed.

Lemma hydration_failure_keeps_loading_witness :
  let q := run (mount (Some Examples.alice))
             [InitializeSettles (rejected Examples.offline);
              AuthSuccess; ProfileSettles 0 (fulfilled Examples.aliceProfile)] in
  user (state q) = Some Examples.aliceProfile
  ∧ isLoading (state q) = true
  ∧ render (state q) = Spinner.
Proof.
  pose proof (hydration_failure_keeps_loading (Some Examples.alice) []
                Examples.offline
                [AuthSuccess; ProfileSettles 0 (fulfilled Examples.aliceProfile)])
    as (H & _).
  exact (conj eq_refl (H eq_refl)).
Defined.

(** X7: after the cleanup of the effect has run, no event changes the
    state any more: every listener and every continuation of the
    hydration code checks [mounted] before it calls a setter. *)
Theorem unmounted_is_frozen (p : Provider) (evs : list Event) :
  mounted p = false →
  state (run p evs) = state p
  ∧ renders (run p evs) = renders p
  ∧ mounted (run p evs) = false.
Proof.
  revert p. induction evs as [|ev evs IH]; intros p Hm; [repeat split; exact Hm|].
  assert (state (step p ev) = state p ∧ renders (step p ev) = renders p
          ∧ mounted (step p ev) = false) as (E1 & E2 & E3).
  { unfold step. destruct ev as [| d | | |o|o|o|k o|u|]; simpl.
    - unfold onSuccess. rewrite Hm. repeat split; exact Hm.
    - unfold onChallenge. rewrite Hm. repeat split; exact Hm.
    - unfold onLogout. rewrite Hm. repeat split; exact Hm.
    - unfold onSessionExpired. rewrite Hm. repeat split; exact Hm.
    - destruct (init_pc p); try (repeat split; exact Hm).
      destruct o; simpl; [repeat split; exact Hm|].
      unfold init_after_initialize. rewrite Hm. repeat split; exact Hm.
    - destruct (init_pc p); try (repeat split; exact Hm).
      unfold init_after_profile. rewrite Hm.
      destruct o; repeat split; exact Hm.
    - destruct (init_pc p); try (repeat split; exact Hm).
      destruct o; simpl; [repeat split; exact Hm|].
      unfold init_after_stored. rewrite Hm. repeat split; exact Hm.
    - destruct (fetches p !! k) as [[|]|]; try (repeat split; exact Hm).
      unfold onSuccess_profile. rewrite Hm. destruct o; repeat split; exact Hm.
    - repeat split; exact Hm.
    - repeat split. }
  simpl. destruct (IH (step p ev) E3) as (F1 & F2 & F3).
  repeat split; congruence.
Qed.

Lemma unmounted_is_frozen_witness :
  let p := run (mount (Some Examples.alice))
             [InitializeSettles (fulfilled ()); Unmount] in
  let q := run p [InitProfileSettles (fulfilled Examples.aliceProfile);
                  AuthLogout; AuthSuccess;
                  StoredChallengeSettles (fulfilled None)] in
  state q = initial ∧ renders q = [initial].
Proof.
  pose proof (unmounted_is_frozen
                (run (mount (Some Examples.alice))
                   [InitializeSettles (fulfilled ()); Unmount])
                [InitProfileSettles (fulfilled Examples.aliceProfile);
                 AuthLogout; AuthSuccess;
                 StoredChallengeSettles (fulfilled None)] eq_refl)
    as (H1 & H2 & _).
  exact (conj H1 H2).
Defined.

(** X8: the hydration code run to its end without interruption.  Without
    a cached user, the state ends with no user; with a cached user [u],
    with the fetched profile, or with [u] when the fetch was rejected.  In
    both cases [challenge] is the stored challenge, isLoading is false,
    and isAuthenticated tells whether a user was cached. *)
Theorem hydration_result (cached : option AuthUser) (o : Settlement AuthUser)
    (stored : option AuthResponse) :
  let evs :=
    match cached with
    | Some _ => [InitializeSettles (fulfilled ()); InitProfileSettles o;
                 StoredChallengeSettles (fulfilled stored)]
    | None => [InitializeSettles (fulfilled ());
               StoredChallengeSettles (fulfilled stored)]
    end in
  let p := run (mount cached) evs in
  state p
  = {| user := match cached, o with
               | Some _, inr profile => Some profile
               | Some u, inl _ => Some u
               | None, _ => None
               end;
       challenge := stored; isLoading := false |}
  ∧ init_pc p = InitFinished
  ∧ isAuthenticated (state p)
    = match cached with Some _ => true | None => false end.
Proof.
  destruct cached as [u|], o as [e|profile]; repeat split.
Qed.

Lemma keeps_fetch_step p ev k :
  mounted p = true → fetches p !! k = Some true → keeps_fetch k ev = true →
  mounted (step p ev) = true ∧ fetches (step p ev) !! k = Some true.
Proof.
  intros Hm Hk Hev. pose proof (lookup_lt_Some _ _ _ Hk) as Hlt.
  unfold step. destruct ev as [| d | | |o|o|o|j o|u|]; simpl; try discriminate.
  - unfold onSuccess. rewrite Hm. simpl.
    destruct (cache p); simpl; rewrite lookup_app_l by exact Hlt;
      split; assumption.
  - unfold onChallenge. rewrite Hm. split; assumption.
  - unfold onLogout. rewrite Hm. split; assumption.
  - unfold onSessionExpired. rewrite Hm. split; assumption.
  - destruct (init_pc p); try (split; assumption).
    destruct o; simpl; [split; assumption|].
    unfold init_after_initialize. rewrite Hm. simpl.
    destruct (cache p); split; assumption.
  - destruct (init_pc p); try (split; assumption).
    unfold init_after_profile. rewrite Hm. destruct o; split; assumption.
  - destruct (init_pc p); try (split; assumption).
    destruct o; simpl; [split; assumption|].
    unfold init_after_stored. rewrite Hm. split; assumption.
  - simpl in Hev. destruct (Nat.eqb_spec j k) as [|Hne]; [discriminate|].
    destruct (fetches p !! j) as [[|]|]; try (split; assumption).
    unfold onSuccess_profile. rewrite Hm.
    destruct o; simpl; rewrite list_lookup_insert_ne by exact Hne;
      split; assumption.
  - split; assumption.
Qed.

Lemma keeps_fetch_run p evs k :
  mounted p = true → fetches p !! k = Some true →
  forallb (keeps_fetch k) evs = true →
  mounted (run p evs) = true ∧ fetches (run p evs) !! k = Some true.
Proof.
  revert p. induction evs as [|ev evs IH]; intros p Hm Hk Hevs; [split; assumption|].
  simpl in Hevs. apply andb_true_iff in Hevs as [Hev Hevs].
  destruct (keeps_fetch_step p ev k Hm Hk Hev) as [Hm' Hk'].
  simpl. apply IH; assumption.
Qed.

(** X9: the resolution callback of line 93 only checks [mounted].  When
    the getProfile() that auth:success started resolves, [user] becomes
    the fetched profile and isAuthenticated true, whatever events were
    handled in between, an auth:logout or auth:session_expired that had
    cleared the user included. *)
Theorem late_profile_sets_user (p : Provider) (evs : list Event)
    (profile : AuthUser) :
  mounted p = true →
  let k := length (fetches p) in
  forallb (keeps_fetch k) evs = true →
  let q := run p (AuthSuccess :: evs ++ [ProfileSettles k (fulfilled profile)]) in
  user (state q) = Some profile ∧ isAuthenticated (state q) = true.
Proof.
  intros Hm k Hevs q.
  assert (mounted (step p AuthSuccess) = true
          ∧ fetches (step p AuthSuccess) !! k = Some true) as [Hm1 Hk1].
  { unfold step. simpl. unfold onSuccess. rewrite Hm. simpl.
    destruct (cache p); simpl;
      (split; [exact Hm | apply list_lookup_middle; reflexivity]). }
  destruct (keeps_fetch_run _ evs k Hm1 Hk1 Hevs) as [Hm2 Hk2].
  subst q. simpl. rewrite run_app. simpl.
  set (r := run (step p AuthSuccess) evs) in *.
  unfold step. simpl. rewrite Hk2. unfold onSuccess_profile, fulfilled.
  rewrite Hm2. simpl. unfold isAuthenticated. simpl. split; reflexivity.
Qed.

Lemma late_profile_sets_user_witness :
  let p := run (mount (Some Examples.alice))
             [InitializeSettles (fulfilled ());
              InitProfileSettles (fulfilled Examples.aliceProfile);
              StoredChallengeSettles (fulfilled None)] in
  let q1 := run p [AuthSuccess; CacheChanges None; AuthLogout] in
  let q := step q1 (ProfileSettles 0 (fulfilled Examples.aliceProfile)) in
  user (state q1) = None
  ∧ user (state q) = Some Examples.aliceProfile
  ∧ isAuthenticated (state q) = true.
Proof.
  pose proof (late_profile_sets_user
                (run (mount (Some Examples.alice))
                   [InitializeSettles (fulfilled ());
                    InitProfileSettles (fulfilled Examples.aliceProfile);
                    StoredChallengeSettles (fulfilled None)])
                [CacheChanges None; AuthLogout] Examples.aliceProfile
                eq_refl eq_refl) as (H1 & H2).
  exact (conj eq_refl (conj H1 H2)).
Defined.

End ProviderExtras.

(** ** More about the OAuth landing *)

Module OAuthExtras.
Import Sdk AuthProvider OAuthCallbackPage Landing.

#[local] Set Warnings "-clear-no-such-hyp".

(** X10: what a run of handleOAuthCallback leaves behind, for every
    landing.  A rejected run has called no setter.  A run that resolves
    with needsChallenge has no user, has not called getProfile() and has
    set [challenge] to the response of the exchange.  A run that resolves
    with a user has set [user] to just that user, the fetched profile.  A
    run that resolves with neither saw the error parameter and did
    nothing at all. *)
Theorem callback_outcomes (error exchangeToken : option string)
    (exchange : Settlement AuthResponse) (profile : Settlement AuthUser) :
  let r := handleOAuthCallback error exchangeToken exchange profile in
  match result r with
  | inl _ => updates r = []
  | inr res =>
      (needsChallenge res = true →
       result_user res = None
       ∧ ¬ In GetProfile (calls r)
       ∧ ∃ response, exchange = inr response
                     ∧ updates r = [SetChallenge (Some response)])
      ∧ (∀ u, result_user res = Some u →
           needsChallenge res = false
           ∧ profile = inr u
           ∧ updates r = [SetUser (Some u)])
      ∧ (result_user res = None → needsChallenge res = false →
         truthy error = true ∧ updates r = [] ∧ calls r = [])
  end.
Proof.
  unfold handleOAuthCallback.
  destruct (truthy error) eqn:He.
  { simpl. repeat split; try discriminate. }
  destruct exchangeToken as [t|]; [destruct (truthy (Some t))|];
    try destruct exchange as [e|response];
    try destruct (challengeName response);
    destruct profile as [e'|u']; simpl;
    repeat split; try discriminate; try congruence;
    try (intros [H|[]]; discriminate); eauto;
    intros [H'|[]]; discriminate.
Qed.

(** X11: which SDK calls handleOAuthCallback makes.  The exchange is
    called exactly when there is no error parameter and the exchange
    token is a non-empty string (an empty one means cookie mode);
    getProfile() is called exactly when there is no error parameter and
    either no such token or an exchange that resolved without a
    challenge.  No call is made twice. *)
Theorem callback_calls (error exchangeToken : option string)
    (exchange : Settlement AuthResponse) (profile : Settlement AuthUser) :
  let r := handleOAuthCallback error exchangeToken exchange profile in
  (∀ t, In (ExchangeSocialRedirect t) (calls r)
        ↔ truthy error = false ∧ exchangeToken = Some t ∧ t ≠ "")
  ∧ (In GetProfile (calls r)
     ↔ truthy error = false
       ∧ (truthy exchangeToken = false
          ∨ ∃ response, exchange = inr response ∧ challengeName response = None))
  ∧ NoDup (calls r).
Proof.
  unfold handleOAuthCallback.
  destruct (truthy error) eqn:He.
  { simpl. split; [|split]; [intros t| |constructor]; naive_solver. }
  destruct exchangeToken as [t|].
  - destruct (truthy (Some t)) eqn:Ht.
    + assert (t ≠ "") as Hne.
      { simpl in Ht. destruct (String.eqb_spec t ""); [discriminate|assumption]. }
      destruct exchange as [e|response];
        [|destruct (challengeName response) eqn:Hk];
        try destruct profile as [e'|u']; simpl;
        (split; [|split];
         [intros t'; naive_solver
         |naive_solver
         |repeat constructor; set_solver]).
    + assert (t = "") as ->.
      { simpl in Ht. destruct (String.eqb_spec t ""); [assumption|discriminate]. }
      destruct profile as [e'|u']; simpl;
        (split; [|split];
         [intros t'; naive_solver
         |naive_solver
         |repeat constructor; set_solver]).
  - destruct profile as [e'|u']; simpl;
      (split; [|split];
       [intros t'; naive_solver
       |naive_solver
       |repeat constructor; set_solver]).
Qed.

Lemma effects_latched invs :
  effects true invs = List.repeat ([], None) (length invs).
Proof.
  induction invs as [|inv invs IH]; [reflexivity|]. simpl. rewrite IH.
  reflexivity.
Qed.

Lemma callback_rejected_updates (error exchangeToken : option string)
    (exchange : Settlement AuthResponse) (profile : Settlement AuthUser)
    (e : JsError) :
  result (handleOAuthCallback error exchangeToken exchange profile) = inl e →
  updates (handleOAuthCallback error exchangeToken exchange profile) = [].
Proof.
  unfold handleOAuthCallback.
  destruct (truthy error); [discriminate|].
  destruct exchangeToken as [t|]; [destruct (truthy (Some t))|];
    try destruct exchange as [e0|response];
    try destruct (challengeName response);
    destruct profile as [e'|u']; simpl; intros H;
    try discriminate; reflexivity.
Qed.

Lemma callback_calls_NoDup (error exchangeToken : option string)
    (exchange : Settlement AuthResponse) (profile : Settlement AuthUser) :
  NoDup (calls (handleOAuthCallback error exchangeToken exchange profile)).
Proof.
  unfold handleOAuthCallback.
  destruct (truthy error); [constructor|].
  destruct exchangeToken as [t|]; [destruct (truthy (Some t))|];
    try destruct exchange as [e0|response];
    try destruct (challengeName response);
    destruct profile as [e'|u']; simpl;
    repeat constructor; set_solver.
Qed.

(** X12: the latch of lines 23-24.  However often the effect is invoked
    on one page (React's StrictMode invokes it twice), only the first
    invocation does anything: every later one performs no action and does
    not call handleOAuthCallback, also when the first one took the error
    branch or its callback was rejected. *)
Theorem landing_runs_once (inv : Invocation) (invs : list Invocation) :
  let first :=
    effect false (errorParam inv) (exchangeTokenParam inv)
      (exchangeSettles inv) (profileSettles inv) in
  first.1.1 = true
  ∧ effects false (inv :: invs)
    = (first.1.2, first.2) :: List.repeat ([], None) (length invs).
Proof.
  intros first.
  assert (first.1.1 = true) as Hran.
  { subst first. unfold effect. destruct (truthy (errorParam inv)); reflexivity. }
  split; [exact Hran|].
  unfold effects at 1. fold effects. fold first.
  destruct first as [[ran acts] cb]. simpl in *. subst ran.
  rewrite effects_latched. reflexivity.
Qed.

(** X13: a landing whose completion fails (the exchange or the profile
    fetch is rejected).  The page shows the error message and goes to
    /login after 3000 ms; it does not navigate to /dashboard, no setter of
    the controller was called, and no SDK call was repeated. *)
Theorem landing_failure (error exchangeToken : option string)
    (exchange : Settlement AuthResponse) (profile : Settlement AuthUser)
    (e : JsError) :
  truthy error = false →
  result (handleOAuthCallback error exchangeToken exchange profile) = inl e →
  let r := handleOAuthCallback error exchangeToken exchange profile in
  effect false error exchangeToken exchange profile
  = (true,
     [SetErrorMsg "Authentication failed. Please try again.";
      NavigateAfter 3000 "/login"],
     Some r)
  ∧ updates r = []
  ∧ NoDup (calls r).
Proof.
  intros He Hr r. subst r. split; [|split].
  - unfold effect. rewrite He. cbv zeta. rewrite Hr. reflexivity.
  - eapply callback_rejected_updates, Hr.
  - apply callback_calls_NoDup.
Qed.

Lemma landing_failure_witness :
  effect false None (Some "xt-1") (rejected Examples.expired)
    (fulfilled Examples.aliceProfile)
  = (true,
     [SetErrorMsg "Authentication failed. Please try again.";
      NavigateAfter 3000 "/login"],
     Some {| result := rejected Examples.expired; updates := [];
             calls := [ExchangeSocialRedirect "xt-1"] |}).
Proof.
  exact (proj1 (landing_failure None (Some "xt-1") (rejected Examples.expired)
                  (fulfilled Examples.aliceProfile) Examples.expired
                  eq_refl eq_refl)).
Defined.

End OAuthExtras.

(** ** More about the challenge page *)

Module FormExtras.
Import Sdk ChallengePage ChallengeForm.

Lemma AuthChallenge_eqb_eq (a b : AuthChallenge) :
  AuthChallenge_eqb a b = true ↔ a = b.
Proof. destruct a, b; simpl; split; intros H; try reflexivity; discriminate. Qed.

(** X14: an MFA_SETUP_REQUIRED response always ends on the dedicated
    page.  Whether it comes from login or signup or from the answer to an
    earlier challenge, the page navigates to /auth/challenge with the
    response as route state; there the route state takes precedence over
    the challenge of the context, and the effect of the challenge page
    (once the context is loaded) replaces the route by /auth/mfa-setup,
    handing the same response on. *)
Theorem mfa_setup_redirected (response : AuthResponse)
    (ctxChallenge : option AuthResponse) (n : Navigation) :
  challengeName response = Some MFA_SETUP_REQUIRED →
  n = afterLogin response ∨ n = afterResponse response →
  to n = "/auth/challenge"
  ∧ routeState n = Some response
  ∧ redirectEffect false (activeChallenge (routeState n) ctxChallenge)
    = [{| to := "/auth/mfa-setup"; replace := true;
          routeState := Some response |}].
Proof.
  intros Hk Hn.
  assert (to n = "/auth/challenge" ∧ routeState n = Some response) as [H1 H2].
  { destruct Hn as [-> | ->]; unfold afterLogin, afterResponse; rewrite Hk;
      split; reflexivity. }
  split; [exact H1|]. split; [exact H2|].
  rewrite H2. unfold redirectEffect, activeChallenge, is_mfa_setup. rewrite Hk.
  reflexivity.
Qed.

Lemma mfa_setup_redirected_witness :
  let response := {| challengeName := Some MFA_SETUP_REQUIRED;
                     session := Some "s3"; challengeParameters := [] |} in
  redirectEffect false
    (activeChallenge (routeState (afterLogin response))
       (Some Examples.emailChallenge))
  = [{| to := "/auth/mfa-setup"; replace := true; routeState := Some response |}].
Proof.
  exact (proj2 (proj2 (mfa_setup_redirected
                         {| challengeName := Some MFA_SETUP_REQUIRED;
                            session := Some "s3"; challengeParameters := [] |}
                         (Some Examples.emailChallenge) _ eq_refl
                         (or_introl eq_refl)))).
Defined.

(** X15: the effect of lines 43-49 navigates at most once; never while
    the context is loading; to /login exactly when the context is loaded
    and there is no challenge; to /auth/mfa-setup exactly when it is
    loaded and the challenge is MFA_SETUP_REQUIRED; and it stays on the
    page for every other challenge. *)
Theorem redirect_effect_cases (isLoading : bool)
    (challenge : option AuthResponse) :
  length (redirectEffect isLoading challenge) ≤ 1
  ∧ redirectEffect true challenge = []
  ∧ (redirectEffect isLoading challenge
     = [{| to := "/login"; replace := true; routeState := None |}]
     ↔ isLoading = false ∧ challenge = None)
  ∧ (redirectEffect isLoading challenge
     = [{| to := "/auth/mfa-setup"; replace := true; routeState := challenge |}]
     ↔ isLoading = false
       ∧ ∃ c, challenge = Some c ∧ challengeName c = Some MFA_SETUP_REQUIRED)
  ∧ (redirectEffect isLoading challenge = []
     ↔ isLoading = true
       ∨ ∃ c, challenge = Some c ∧ challengeName c ≠ Some MFA_SETUP_REQUIRED).
Proof.
  unfold redirectEffect, is_mfa_setup.
  destruct isLoading, challenge as [c|]; simpl.
  - repeat split; try discriminate; try (intros [? ?]; discriminate); auto.
  - repeat split; try discriminate; try (intros [? ?]; discriminate); auto.
  - destruct (challengeName c) as [k|] eqn:Hk.
    + destruct (AuthChallenge_eqb k MFA_SETUP_REQUIRED) eqn:E.
      * apply AuthChallenge_eqb_eq in E. subst k. simpl.
        repeat split; try discriminate; try lia; eauto.
        -- intros [? ?]; discriminate.
        -- intros [H|(c' & [= <-] & H)]; [discriminate|congruence].
      * assert (k ≠ MFA_SETUP_REQUIRED) as Hne.
        { intros ->. simpl in E. discriminate. }
        simpl. repeat split; try discriminate; try lia.
        -- intros [? ?]; discriminate.
        -- intros (_ & c' & [= <-] & H). congruence.
        -- intros _. right. exists c. split; congruence.
    + simpl. repeat split; try discriminate; try lia.
      * intros [? ?]; discriminate.
      * intros (_ & c' & [= <-] & H). congruence.
      * intros _. right. exists c. split; congruence.
  - repeat split; try discriminate; try lia.
    + intros (_ & c' & H & _). discriminate.
    + intros [H|(c' & H & _)]; discriminate.
Qed.

(** *** The code input *)

Lemma keep_digits_all (s : string) : all_digits (keep_digits s) = true.
Proof.
  induction s as [|a s IH]; [reflexivity|]. simpl.
  destruct (is_digit a) eqn:E; [simpl; rewrite E, IH; reflexivity | exact IH].
Qed.

Lemma keep_digits_id (s : string) : all_digits s = true → keep_digits s = s.
Proof.
  induction s as [|a s IH]; [reflexivity|]. simpl. intros H.
  apply andb_true_iff in H as [Ha Hs]. rewrite Ha, IH by exact Hs. reflexivity.
Qed.

Lemma slice_all (n : nat) (s : string) :
  all_digits s = true → all_digits (slice_from_0 n s) = true.
Proof.
  revert s. induction n as [|n IH]; intros s H; [destruct s; reflexivity|].
  destruct s as [|a s]; [reflexivity|]. simpl in *.
  apply andb_true_iff in H as [Ha Hs]. rewrite Ha, IH by exact Hs. reflexivity.
Qed.

Lemma slice_length (n : nat) (s : string) :
  String.length (slice_from_0 n s) = Nat.min n (String.length s).
Proof.
  revert s. induction n as [|n IH]; intros s; [destruct s; reflexivity|].
  destruct s as [|a s]; [reflexivity|]. simpl. rewrite IH. reflexivity.
Qed.

Lemma slice_id (n : nat) (s : string) :
  String.length s ≤ n → slice_from_0 n s = s.
Proof.
  revert s. induction n as [|n IH]; intros s H.
  - destruct s; [reflexivity | simpl in H; lia].
  - destruct s as [|a s]; [reflexivity|]. simpl in *. rewrite IH by lia.
    reflexivity.
Qed.

(** X16: the code field.  Whatever is typed or pasted, the field holds at
    most six characters, all of them digits; feeding the field its own
    content changes nothing; a text of at most six digits is kept as it
    is; and (when no request is under way) the submit button is enabled
    exactly when the input contained at least six digits, that is when
    the field holds six. *)
Theorem code_input (value : string) :
  let code := onCodeChange value in
  all_digits code = true
  ∧ String.length code ≤ 6
  ∧ onCodeChange code = code
  ∧ (all_digits value = true → String.length value ≤ 6 → code = value)
  ∧ (submitDisabled false code = false
     ↔ 6 ≤ String.length (keep_digits value))
  ∧ (submitDisabled false code = false ↔ String.length code = 6).
Proof.
  intros code. subst code. unfold onCodeChange.
  pose proof (keep_digits_all value) as Hall.
  pose proof (slice_length 6 (keep_digits value)) as Hlen.
  split; [apply slice_all, Hall|].
  split; [lia|].
  split.
  { rewrite (keep_digits_id (slice_from_0 6 (keep_digits value)))
      by apply slice_all, Hall.
    apply slice_id. lia. }
  split.
  { intros Hd Hl. rewrite keep_digits_id by exact Hd. apply slice_id, Hl. }
  unfold submitDisabled. cbn [orb]. rewrite Hlen.
  split; destruct (Nat.ltb_spec (Nat.min 6 (String.length (keep_digits value))) 6);
    split; intros; try discriminate; try reflexivity; try lia; exfalso; lia.
Qed.

(** *** The resend countdown *)

Lemma countdown_value (n : nat) (c : Z) :
  countdown n c
  = if (c <=? 0)%Z then c else Z.max 0 (c - Z.of_nat n).
Proof.
  revert c. induction n as [|n IH]; intros c.
  - simpl. destruct (Z.leb_spec c 0); lia.
  - cbn [countdown]. unfold cooldownTick.
    destruct (Z.leb_spec c 0) as [Hc|Hc]; [reflexivity|].
    rewrite IH. destruct (Z.leb_spec (c - 1) 0); lia.
Qed.

(** X17: the resend countdown.  A successful resend sets it to 60; after
    [n] firings of the one-second timer it is 60 - n and never below 0;
    the resend button is disabled exactly during the first 60 firings;
    and the effect sets no further timer once 0 is reached. *)
Theorem resend_cooldown (n : nat) :
  let c := countdown n 60 in
  c = Z.max 0 (60 - Z.of_nat n)
  ∧ (0 ≤ c)%Z
  ∧ resendDisabled false c = negb (Nat.leb 60 n)
  ∧ (cooldownTick c = None ↔ 60 ≤ n).
Proof.
  intros c. subst c. rewrite countdown_value.
  change (60 <=? 0)%Z with false. cbv iota.
  split; [reflexivity|]. split; [lia|].
  unfold resendDisabled, cooldownTick. cbn [orb].
  destruct (Nat.leb_spec 60 n) as [Hn|Hn]; cbn [negb].
  - replace (Z.max 0 (60 - Z.of_nat n)) with 0%Z by lia.
    split; [reflexivity|]. split; [intros _; exact Hn | reflexivity].
  - destruct (Z.ltb_spec 0 (Z.max 0 (60 - Z.of_nat n))); [|lia].
    split; [reflexivity|].
    destruct (Z.leb_spec (Z.max 0 (60 - Z.of_nat n)) 0); [lia|].
    split; [discriminate | lia].
Qed.

(** *** The submitted object *)

(** X18: the fields of the submitted object, for every kind of
    challenge: [type] (the challenge name), [session], [code], and a
    [method] field exactly for MFA_REQUIRED; no other field. *)
Theorem response_keys (getMFAMethod : AuthResponse → option string)
    (trim : string → string) (c : AuthResponse) (kind : AuthChallenge)
    (sess code : string) :
  challengeName c = Some kind →
  session c = Some sess →
  sess ≠ "" →
  ∃ obj,
    handleSubmit getMFAMethod trim (Some c) code = Some obj
    ∧ obj !! "type" = Some (JsString (AuthChallenge_name kind))
    ∧ obj !! "session" = Some (JsString sess)
    ∧ obj !! "code" = Some (JsString (trim code))
    ∧ (obj !! "method" ≠ None ↔ kind = MFA_REQUIRED)
    ∧ dom obj
      = {["type"; "session"; "code"]}
          ∪ (if AuthChallenge_eqb kind MFA_REQUIRED then {["method"]} else ∅).
Proof.
  intros Hk Hs Hne. unfold handleSubmit. rewrite Hs, Hk.
  assert (truthy (Some sess) = true) as ->.
  { simpl. destruct (String.eqb_spec sess ""); [congruence|reflexivity]. }
  simpl. eexists. split; [reflexivity|]. unfold challengeResponse.
  destruct (AuthChallenge_eqb kind MFA_REQUIRED) eqn:E.
  - apply AuthChallenge_eqb_eq in E. subst kind.
    split. { rewrite !lookup_insert_ne by discriminate. apply lookup_insert_eq. }
    split. { rewrite !lookup_insert_ne by discriminate. apply lookup_insert_eq. }
    split. { apply lookup_insert_eq. }
    split.
    { rewrite lookup_insert_ne by discriminate. rewrite lookup_insert_eq.
      split; [reflexivity | discriminate]. }
    rewrite !dom_insert_L, dom_empty_L. set_solver.
  - assert (kind ≠ MFA_REQUIRED) as Hkne.
    { intros ->. simpl in E. discriminate. }
    split. { rewrite !lookup_insert_ne by discriminate. apply lookup_insert_eq. }
    split. { rewrite !lookup_insert_ne by discriminate. apply lookup_insert_eq. }
    split. { apply lookup_insert_eq. }
    split.
    { rewrite !lookup_insert_ne by discriminate. rewrite lookup_empty.
      split; [congruence | intros H; contradiction]. }
    rewrite !dom_insert_L, dom_empty_L. set_solver.
Qed.

Lemma response_keys_witness :
  ∃ obj,
    handleSubmit Examples.preferredMethod Examples.asciiTrim
      (Some Examples.emailChallenge) "654321" = Some obj
    ∧ obj !! "type" = Some (JsString "VERIFY_EMAIL")
    ∧ obj !! "method" = None.
Proof.
  destruct (response_keys Examples.preferredMethod Examples.asciiTrim
              Examples.emailChallenge VERIFY_EMAIL "s2" "654321"
              eq_refl eq_refl) as (obj & H1 & H2 & _ & _ & H5 & _).
  { discriminate. }
  exists obj. split; [exact H1|]. split; [exact H2|].
  destruct (obj !! "method") eqn:E; [|reflexivity].
  assert (VERIFY_EMAIL = MFA_REQUIRED) by (apply H5; discriminate).
  discriminate.
Defined.

(** X19: the resend section is hidden exactly for an MFA_REQUIRED
    challenge whose method is TOTP; for every other challenge (also an
    MFA_REQUIRED one whose method is unknown) it is shown. *)
Theorem resend_hidden_iff_totp (getMFAMethod : AuthResponse → option string)
    (c : AuthResponse) :
  sendsCode getMFAMethod c = false
  ↔ challengeName c = Some MFA_REQUIRED ∧ getMFAMethod c = Some "totp".
Proof.
  unfold sendsCode, isTotp, mfaMethod.
  destruct (challengeName c) as [k|]; simpl.
  - destruct (AuthChallenge_eqb k MFA_REQUIRED) eqn:E.
    + apply AuthChallenge_eqb_eq in E. subst k.
      destruct (getMFAMethod c) as [m|]; simpl.
      * destruct (String.eqb_spec m "totp"); simpl; split;
          try discriminate; try (intros [_ [=]]; congruence); auto.
        intros _. split; congruence.
      * split; [discriminate | intros [_ H]; discriminate].
    + simpl. split; [discriminate|]. intros [[= ->] _]. simpl in E. discriminate.
  - split; [discriminate | intros [H _]; discriminate].
Qed.

End FormExtras.

(** ** The MFA setup page *)

Module SetupExtras.
Import Sdk ChallengeForm MfaSetupPage.

Lemma Method_of_email (item : option string) :
  Method_of item = Some email ↔ item = Some "email".
Proof.
  destruct item as [s|]; simpl; [|split; discriminate].
  destruct (String.eqb_spec s "email") as [->|Hne].
  - split; reflexivity.
  - destruct (String.eqb s "sms"); split; try discriminate; congruence.
Qed.

Lemma Method_of_sms (item : option string) :
  Method_of item = Some sms ↔ item = Some "sms".
Proof.
  destruct item as [s|]; simpl; [|split; discriminate].
  destruct (String.eqb_spec s "email") as [->|Hne].
  - split; discriminate.
  - destruct (String.eqb_spec s "sms") as [->|Hne'];
      split; try discriminate; congruence.
Qed.

Lemma omap_length_le {A B} (f : A → option B) (l : list A) :
  length (omap f l) ≤ length l.
Proof.
  induction l as [|x l IH]; [reflexivity|]. cbn [omap list_omap length].
  destruct (f x); simpl; lia.
Qed.

(** X20: [allowedMethods].  Without the parameter, or with a value that
    is no array, or with an empty array, both methods are offered.  With
    a non-empty array, a method is offered exactly when its name is an
    element of the array, and nothing else ever is; so an array without
    "email" and "sms" (say ["totp"]) leaves the page without any
    button. *)
Theorem allowed_methods (raw : RawMethods) :
  ((raw = NotAnArray ∨ raw = JsArray []) → allowedMethods raw = [email; sms])
  ∧ (∀ items, raw = JsArray items → items ≠ [] →
       (email ∈ allowedMethods raw ↔ Some "email" ∈ items)
       ∧ (sms ∈ allowedMethods raw ↔ Some "sms" ∈ items)
       ∧ length (allowedMethods raw) ≤ length items)
  ∧ (allowedMethods raw = []
     ↔ ∃ items, raw = JsArray items ∧ items ≠ []
                ∧ (Some "email" ∉ items) ∧ (Some "sms" ∉ items)).
Proof.
  assert (∀ items : list (option string),
            (email ∈ omap Method_of items ↔ Some "email" ∈ items)
            ∧ (sms ∈ omap Method_of items ↔ Some "sms" ∈ items)) as Hmem.
  { intros items. split.
    - rewrite list_elem_of_omap. split.
      + intros (y & Hy & E). apply Method_of_email in E. congruence.
      + intros H. exists (Some "email"). split; [exact H|reflexivity].
    - rewrite list_elem_of_omap. split.
      + intros (y & Hy & E). apply Method_of_sms in E. congruence.
      + intros H. exists (Some "sms"). split; [exact H|reflexivity]. }
  split; [|split].
  - intros [-> | ->]; reflexivity.
  - intros items -> Hne. unfold allowedMethods.
    destruct items as [|x items]; [congruence|]. cbn [length Nat.ltb Nat.leb].
    destruct (Hmem (x :: items)) as [H1 H2].
    split; [exact H1|]. split; [exact H2|].
    apply (omap_length_le Method_of (x :: items)).
  - unfold allowedMethods. destruct raw as [|items].
    + split; [discriminate | intros (? & ? & _); discriminate].
    + destruct items as [|x items]; cbn [length Nat.ltb Nat.leb].
      * split; [discriminate | intros (? & [= <-] & H & _); congruence].
      * destruct (Hmem (x :: items)) as [H1 H2]. split.
        -- intros E. exists (x :: items). rewrite E in H1, H2.
           split; [reflexivity|]. split; [discriminate|].
           split; intros H; [apply H1 in H | apply H2 in H];
             apply elem_of_nil in H; exact H.
        -- intros (items' & [= <-] & _ & Hn1 & Hn2).
           destruct (omap Method_of (x :: items)) as [|m l] eqn:E; [reflexivity|].
           exfalso. destruct m.
           ++ apply Hn1, H1. left.
           ++ apply Hn2, H2. left.
Qed.

(** *** The page at any time *)

Section Page.
Variable sess : option string.
Variable raw : RawMethods.
Variable trim : string → string.

Lemma PageInv_init : PageInv sess raw initialPage.
Proof.
  split; simpl.
  - reflexivity.
  - intros _. split; [reflexivity|]. split; [|discriminate].
    intros r H. apply elem_of_nil in H. exact H.
  - congruence.
  - intros r H. apply elem_of_nil in H. destruct H.
Qed.

Lemma ResendInv_init : ResendInv sess initialPage.
Proof.
  split; simpl.
  - reflexivity.
  - discriminate.
  - lia.
  - intros _. split; reflexivity.
  - intros s H. apply elem_of_nil in H. destruct H.
Qed.

Lemma respond_not_get (r : SetupResponse) (l : list SdkCall)
    (session : string) (m : Method) :
  RespondToChallenge r ∈ l ++ [GetSetupData session m] →
  RespondToChallenge r ∈ l.
Proof.
  intros H. apply elem_of_app in H as [H|H]; [exact H|].
  apply list_elem_of_singleton in H. discriminate.
Qed.

(** The resend button leaves alone what [PageInv] reads, but for one more
    resendCode() call. *)
Lemma PageInv_fields (p q : Page) :
  step q = step p →
  selectedMethod q = selectedMethod p →
  autoCompletedDeviceId q = autoCompletedDeviceId p →
  loading q = loading p →
  pendingSetup q = pendingSetup p →
  pendingRespond q = pendingRespond p →
  (∀ c, (∀ s, c ≠ ResendCode s) → c ∈ calls q ↔ c ∈ calls p) →
  PageInv sess raw p → PageInv sess raw q.
Proof.
  intros E1 E2 E3 E4 E5 E6 Hc [H1 H2 H3 H4].
  assert (method_chosen sess raw p → method_chosen sess raw q) as Hmc.
  { intros (m & s0 & A & B & C & D). exists m, s0. rewrite E2.
    split; [exact A|]. split; [exact B|]. split; [exact C|].
    apply Hc; [discriminate | exact D]. }
  split.
  - rewrite E4, E5, E6. exact H1.
  - rewrite E1, E5, E6. intros Hst. destruct (H2 Hst) as (A & B & C).
    split; [exact A|]. split.
    + intros r Hr. apply (B r). apply Hc; [discriminate | exact Hr].
    + intros E. apply Hmc, C, E.
  - rewrite E1, E5. intros Hst. destruct (H3 Hst) as [A B].
    split; [exact A | apply Hmc, B].
  - intros r Hr. apply Hc in Hr; [|discriminate].
    destruct (H4 r Hr) as (A & B & C & D & E). rewrite E1, E2, E3.
    split; [exact A|]. split; [exact B|]. split; [exact C|].
    split; [apply Hc; [discriminate | exact D] | exact E].
Qed.

(** The other handlers leave alone what [ResendInv] reads. *)
Lemma ResendInv_fields (p q : Page) :
  step q = step p →
  resendLoading q = resendLoading p →
  resendCooldown q = resendCooldown p →
  pendingResend q = pendingResend p →
  (∀ s, ResendCode s ∈ calls q → ResendCode s ∈ calls p) →
  ResendInv sess p → ResendInv sess q.
Proof.
  intros E1 E2 E3 E4 Hc [R1 R2 R3 R4 R5].
  split; rewrite ?E1, ?E2, ?E3, ?E4; try assumption.
  intros s Hs. apply R5, Hc, Hs.
Qed.

Lemma resend_not_other (s : string) (l : list SdkCall) (c : SdkCall) :
  (∀ s', c ≠ ResendCode s') →
  ResendCode s ∈ l ++ [c] → ResendCode s ∈ l.
Proof.
  intros Hc H. apply elem_of_app in H as [H|H]; [exact H|].
  apply list_elem_of_singleton in H. exfalso. exact (Hc s (eq_sym H)).
Qed.

Lemma PageInv_select (p : Page) (method : Method) (session : string) :
  PageInv sess raw p →
  step p = select → loading p = false → offered raw method = true →
  sess = Some session →
  PageInv sess raw
    {| step := step p; selectedMethod := Some method;
       maskedDestination := maskedDestination p;
       autoCompletedDeviceId := autoCompletedDeviceId p; code := code p;
       loading := true;
       resendLoading := resendLoading p; resendCooldown := resendCooldown p;
       error := None;
       pendingSetup := S (pendingSetup p); pendingRespond := pendingRespond p;
       pendingResend := pendingResend p;
       calls := calls p ++ [GetSetupData session method];
       navigations := navigations p |}.
Proof.
  intros [H1 H2 H3 H4] Hst Hl Ho Hs. rewrite Hl in H1.
  destruct (H2 Hst) as (Hr & Hfree & _).
  split; simpl.
  - lia.
  - intros _. split; [exact Hr|]. split.
    + intros r H. apply (Hfree r). eapply respond_not_get; eassumption.
    + intros _. exists method, session. simpl.
      split; [reflexivity|]. split; [exact Ho|]. split; [exact Hs|].
      apply elem_of_app. right. apply list_elem_of_singleton. reflexivity.
  - congruence.
  - intros r H. exfalso. apply (Hfree r).
    eapply respond_not_get; eassumption.
Qed.

Lemma PageInv_respond (p : Page) (payload : SetupPayload) (session : string)
    (method : Method) :
  PageInv sess raw p →
  step p ≠ select → loading p = false →
  sess = Some session → selectedMethod p = Some method →
  match payload with
  | DeviceId id => step p = auto_completed ∧ autoCompletedDeviceId p = Some id
  | Code _ => step p = otp
  end →
  PageInv sess raw (respond payload session method p).
Proof.
  intros [H1 H2 H3 H4] Hst Hl Hs Hm Hp. rewrite Hl in H1.
  destruct (H3 Hst) as (Hps & m' & s' & Hm' & Ho & Hs' & Hin).
  assert (m' = method) as -> by congruence.
  assert (s' = session) as -> by congruence.
  split; simpl.
  - lia.
  - intros E. congruence.
  - intros _. split; [exact Hps|]. exists method, session. simpl.
    split; [exact Hm|]. split; [exact Ho|]. split; [exact Hs|].
    apply elem_of_app. left. exact Hin.
  - intros r H. apply elem_of_app in H as [H|H].
    + destruct (H4 r H) as (A & B & C & D & E).
      split; [exact A|]. split; [exact B|]. split; [exact C|].
      split; [apply elem_of_app; left; exact D | exact E].
    + apply list_elem_of_singleton in H. injection H as ->. simpl.
      split; [reflexivity|]. split; [exact Hs|]. split; [exact Hm|].
      split; [apply elem_of_app; left; exact Hin | exact Hp].
Qed.

Lemma PageInv_handleResend (p : Page) :
  PageInv sess raw p → PageInv sess raw (handleResend sess p).
Proof.
  intros HI. unfold handleResend.
  destruct sess as [session|] eqn:Hs; [|exact HI].
  destruct (truthy (Some session)); [|exact HI].
  rewrite <- Hs in HI |- *.
  apply (PageInv_fields p); try reflexivity; [|exact HI].
  intros c Hc. simpl. rewrite elem_of_app, list_elem_of_singleton.
  split; [intros [H|H]; [exact H | exfalso; exact (Hc session H)] | left; assumption].
Qed.

Lemma PageInv_resendSettled (p : Page) (o : Settlement unit) :
  PageInv sess raw p → PageInv sess raw (resendSettled o p).
Proof.
  intros HI. apply (PageInv_fields p); try exact HI; reflexivity.
Qed.

Lemma PageInv_cooldownFires (p : Page) :
  PageInv sess raw p → PageInv sess raw (cooldownFires p).
Proof.
  intros HI. unfold cooldownFires.
  destruct (cooldownTick (resendCooldown p)); [|exact HI].
  apply (PageInv_fields p); try exact HI; reflexivity.
Qed.

Lemma PageInv_step (p : Page) (ev : Event) :
  PageInv sess raw p → PageInv sess raw (pageStep sess raw trim p ev).
Proof.
  intros HI. unfold pageStep.
  destruct ev as [method| |value| | |o|o|o|].
  - destruct (step p) eqn:Hst; try exact HI.
    destruct (loading p) eqn:Hl; simpl; [exact HI|].
    destruct (offered raw method) eqn:Ho; [|exact HI].
    unfold handleSelectMethod. destruct sess as [session|] eqn:Hs; [|exact HI].
    destruct (truthy (Some session)); [|exact HI].
    rewrite <- Hs in HI |- *.
    apply PageInv_select; try assumption.
  - destruct (step p) eqn:Hst; try exact HI.
    destruct (loading p) eqn:Hl; simpl; [exact HI|].
    unfold handleContinueAutoCompleted.
    destruct sess as [session|] eqn:Hs; [|exact HI].
    destruct (selectedMethod p) as [method|] eqn:Hm; [|exact HI].
    destruct (autoCompletedDeviceId p) as [id|] eqn:Hd; [|exact HI].
    destruct (truthy (Some session)); [|exact HI].
    rewrite <- Hs in HI |- *.
    apply PageInv_respond; try assumption; try congruence. split; assumption.
  - destruct (step p) eqn:Hst; try exact HI.
    destruct HI as [H1 H2 H3 H4]. split; simpl; assumption.
  - destruct (step p) eqn:Hst; try exact HI.
    destruct (submitDisabled (loading p) (code p)) eqn:Hd; simpl; [exact HI|].
    assert (loading p = false) as Hl.
    { unfold submitDisabled in Hd. destruct (loading p); [discriminate|reflexivity]. }
    unfold handleSubmitCode.
    destruct sess as [session|] eqn:Hs; [|exact HI].
    destruct (selectedMethod p) as [method|] eqn:Hm; [|exact HI].
    destruct (truthy (Some session)); [|exact HI].
    rewrite <- Hs in HI |- *.
    apply PageInv_respond; try assumption; congruence.
  - destruct (step p) eqn:Hst; try exact HI.
    destruct (resendDisabled (resendLoading p) (resendCooldown p));
      simpl; [exact HI|].
    apply PageInv_handleResend, HI.
  - destruct (step p) eqn:Hst;
      (destruct (pendingSetup p) as [|n] eqn:Hps; [exact HI|]).
    2,3: exfalso; destruct (pi_chosen _ _ _ HI) as [Hz _]; [congruence|lia].
    destruct HI as [H1 H2 H3 H4].
    destruct (H2 Hst) as (Hr & Hfree & Hch).
    assert (loading p = true ∧ n = 0) as [Hl ->].
    { destruct (loading p); [split; [reflexivity|lia] | lia]. }
    destruct (Hch Hps) as (m & s0 & Hm & Ho & Hs & Hin).
    unfold setupDataSettled.
    destruct o as [err|data]; [|destruct (autoCompleted data)].
    + split; simpl; rewrite ?Hps; simpl.
      * lia.
      * intros _. split; [exact Hr|]. split; [exact Hfree|]. discriminate.
      * congruence.
      * intros r H. exfalso. exact (Hfree r H).
    + split; simpl; rewrite ?Hps; simpl.
      * lia.
      * discriminate.
      * intros _. split; [reflexivity|]. exists m, s0. simpl. auto.
      * intros r H. exfalso. exact (Hfree r H).
    + split; simpl; rewrite ?Hps; simpl.
      * lia.
      * discriminate.
      * intros _. split; [reflexivity|]. exists m, s0. simpl. auto.
      * intros r H. exfalso. exact (Hfree r H).
  - destruct (pendingRespond p) as [|n] eqn:Hpr.
    { destruct (step p); exact HI. }
    assert (step p ≠ select) as Hst.
    { intros E. destruct (pi_select _ _ _ HI E) as (Hz & _). lia. }
    destruct HI as [H1 H2 H3 H4].
    destruct (H3 Hst) as (Hps & Hch).
    assert (loading p = true ∧ n = 0) as [Hl ->].
    { destruct (loading p); [split; [reflexivity|lia] | lia]. }
    assert (∀ fb, PageInv sess raw (respondSettled fb o p)) as Hall.
    { intros fb. split; simpl; rewrite ?Hpr; simpl.
      - lia.
      - intros E. congruence.
      - intros _. split; [exact Hps|]. exact Hch.
      - exact H4. }
    destruct (step p); apply Hall.
  - destruct (pendingResend p); [exact HI|].
    apply PageInv_resendSettled, HI.
  - apply PageInv_cooldownFires, HI.
Qed.

Lemma ResendInv_respond (p : Page) (payload : SetupPayload)
    (session : string) (method : Method) :
  ResendInv sess p → ResendInv sess (respond payload session method p).
Proof.
  intros HR. apply (ResendInv_fields p); try reflexivity; [|exact HR].
  intros s. apply resend_not_other. discriminate.
Qed.

Lemma ResendInv_step (p : Page) (ev : Event) :
  PageInv sess raw p → ResendInv sess p →
  ResendInv sess (pageStep sess raw trim p ev).
Proof.
  intros HI HR. unfold pageStep.
  destruct ev as [method| |value| | |o|o|o|].
  - destruct (step p) eqn:Hst; try exact HR.
    destruct (negb (loading p) && offered raw method); [|exact HR].
    unfold handleSelectMethod. destruct sess as [session|] eqn:Hs; [|exact HR].
    destruct (truthy (Some session)); [|exact HR].
    rewrite <- Hs in HR |- *.
    apply (ResendInv_fields p); try assumption; try reflexivity.
    intros s. apply resend_not_other. discriminate.
  - destruct (step p) eqn:Hst; try exact HR.
    destruct (negb (loading p)); [|exact HR].
    unfold handleContinueAutoCompleted.
    destruct sess as [session|] eqn:Hs; [|exact HR].
    destruct (selectedMethod p) as [method|]; [|exact HR].
    destruct (autoCompletedDeviceId p) as [id|]; [|exact HR].
    destruct (truthy (Some session)); [|exact HR].
    rewrite <- Hs in HR |- *. apply ResendInv_respond, HR.
  - destruct (step p) eqn:Hst; try exact HR.
    apply (ResendInv_fields p); try assumption; try reflexivity.
    intros s H. exact H.
  - destruct (step p) eqn:Hst; try exact HR.
    destruct (negb (submitDisabled (loading p) (code p))); [|exact HR].
    unfold handleSubmitCode.
    destruct sess as [session|] eqn:Hs; [|exact HR].
    destruct (selectedMethod p) as [method|]; [|exact HR].
    destruct (truthy (Some session)); [|exact HR].
    rewrite <- Hs in HR |- *. apply ResendInv_respond, HR.
  - destruct (step p) eqn:Hst; try exact HR.
    destruct (resendDisabled (resendLoading p) (resendCooldown p)) eqn:Hd;
      simpl; [exact HR|].
    unfold resendDisabled in Hd. apply orb_false_iff in Hd as [Hrl Hrc].
    apply Z.ltb_ge in Hrc.
    unfold handleResend. destruct sess as [session|] eqn:Hs; [|exact HR].
    destruct (truthy (Some session)); [|exact HR].
    rewrite <- Hs in HR |- *.
    destruct HR as [R1 R2 R3 R4 R5]. rewrite Hrl in R1.
    split; simpl.
    + rewrite R1. reflexivity.
    + intros _. lia.
    + exact R3.
    + intros Hne. congruence.
    + intros s H. apply elem_of_app in H as [H|H]; [exact (R5 s H)|].
      apply list_elem_of_singleton in H. injection H as ->.
      split; [exact Hs | exact Hst].
  - assert (pendingSetup p ≠ 0 → step p = select) as Hsel.
    { intros Hps. destruct (step p) eqn:E; [reflexivity| |];
        destruct (pi_chosen _ _ _ HI) as [Hz _]; congruence. }
    destruct (pendingSetup p) as [|n] eqn:Hps; [exact HR|].
    assert (step p = select) as Hst by (apply Hsel; discriminate).
    destruct HR as [R1 R2 R3 R4 R5].
    assert (step p ≠ otp) as Hno by (rewrite Hst; discriminate).
    unfold setupDataSettled.
    destruct o as [err|data]; [|destruct (autoCompleted data)];
      (split; simpl;
       [exact R1 | exact R2 | exact R3 | intros _; exact (R4 Hno)
       | intros s H; destruct (R5 s H) as [_ E]; congruence]).
  - destruct (pendingRespond p); [exact HR|].
    apply (ResendInv_fields p); try exact HR; try reflexivity.
    intros s H. exact H.
  - destruct (pendingResend p) as [|n] eqn:Hpr; [exact HR|].
    destruct HR as [R1 R2 R3 R4 R5].
    assert (step p = otp) as Hst.
    { destruct (step p) eqn:E; [| |reflexivity];
        destruct R4 as [Hz _]; congruence. }
    split; simpl; rewrite ?Hpr; simpl.
    + destruct (resendLoading p); lia.
    + discriminate.
    + destruct o; [exact R3 | lia].
    + intros Hne. congruence.
    + exact R5.
  - assert (ResendInv sess (cooldownFires p)) as Hq.
    { unfold cooldownFires, cooldownTick.
      destruct (Z.leb_spec (resendCooldown p) 0) as [Hle|Hgt]; [exact HR|].
      destruct HR as [R1 R2 R3 R4 R5]. split; simpl.
      - exact R1.
      - intros E. specialize (R2 E). lia.
      - lia.
      - intros Hne. destruct (R4 Hne) as [_ E]. lia.
      - exact R5. }
    exact Hq.
Qed.

Lemma PageInv_run (p : Page) (evs : list Event) :
  PageInv sess raw p → PageInv sess raw (pageRun sess raw trim p evs).
Proof.
  revert p. induction evs as [|ev evs IH]; intros p HI; [exact HI|].
  simpl. apply IH, PageInv_step, HI.
Qed.

Lemma ResendInv_run (p : Page) (evs : list Event) :
  PageInv sess raw p → ResendInv sess p →
  ResendInv sess (pageRun sess raw trim p evs).
Proof.
  revert p. induction evs as [|ev evs IH]; intros p HI HR; [exact HR|].
  simpl. apply IH; [apply PageInv_step, HI | apply ResendInv_step; assumption].
Qed.

End Page.

Lemma offered_elem (raw : RawMethods) (method : Method) :
  offered raw method = true ↔ method ∈ allowedMethods raw.
Proof.
  unfold offered. induction (allowedMethods raw) as [|m l IH]; simpl.
  - split; [discriminate | intros H; apply elem_of_nil in H; destruct H].
  - rewrite orb_true_iff, IH, elem_of_cons.
    destruct method, m; simpl; split; intros [H|H]; auto; discriminate.
Qed.

(** X21: the setup page, after any sequence of clicks, inputs, timer
    firings and settlements.  At most one of getSetupData() and
    respondToChallenge() is pending, and [loading] is true exactly then.
    Independently of that, at most one resendCode() is pending, and
    [resendLoading] is true exactly then: so a resend can be pending
    while [loading] is false, or next to a pending answer.  A resend is
    pending only in step otp and only while the cooldown is at zero; the
    cooldown stays between 0 and 60 and is zero outside step otp; every
    resendCode call carries the session of the challenge.  Once past the
    selection a method is selected, one of the offered ones.  Every
    respondToChallenge call that was made has type MFA_SETUP_REQUIRED,
    the session of the challenge, and as method the selected method, for
    which getSetupData was called before; a { deviceId } answer was made
    in step auto-completed with the device id of the setup data, a
    { code } answer in step otp. *)
Theorem setup_page_invariant (sess : option string) (raw : RawMethods)
    (trim : string → string) (evs : list Event) :
  let p := pageRun sess raw trim initialPage evs in
  pendingSetup p + pendingRespond p = (if loading p then 1 else 0)
  ∧ pendingResend p = (if resendLoading p then 1 else 0)
  ∧ (resendLoading p = true → step p = otp ∧ resendCooldown p = 0%Z)
  ∧ (0 ≤ resendCooldown p ≤ 60)%Z
  ∧ (step p ≠ otp → resendCooldown p = 0%Z)
  ∧ (∀ s, ResendCode s ∈ calls p → sess = Some s ∧ step p = otp)
  ∧ (step p ≠ select →
     ∃ method, selectedMethod p = Some method ∧ method ∈ allowedMethods raw)
  ∧ (∀ r, RespondToChallenge r ∈ calls p →
       r_type r = MFA_SETUP_REQUIRED
       ∧ sess = Some (r_session r)
       ∧ selectedMethod p = Some (r_method r)
       ∧ r_method r ∈ allowedMethods raw
       ∧ GetSetupData (r_session r) (r_method r) ∈ calls p
       ∧ match r_setupData r with
         | DeviceId id =>
             step p = auto_completed ∧ autoCompletedDeviceId p = Some id
         | Code _ => step p = otp
         end).
Proof.
  intros p.
  pose proof (PageInv_run sess raw trim initialPage evs (PageInv_init sess raw))
    as HI. fold p in HI.
  pose proof (ResendInv_run sess raw trim initialPage evs
                (PageInv_init sess raw) (ResendInv_init sess)) as HR.
  fold p in HR.
  destruct HI as [H1 H2 H3 H4]. destruct HR as [R1 R2 R3 R4 R5].
  split; [exact H1|]. split; [exact R1|]. split.
  { intros E. split; [|exact (R2 E)].
    destruct (step p) eqn:Hst; [| |reflexivity];
      destruct R4 as [Hz _]; try congruence; rewrite E in R1; lia. }
  split; [exact R3|]. split; [intros Hne; apply (R4 Hne)|].
  split; [exact R5|]. split.
  - intros Hst. destruct (H3 Hst) as (_ & m & s0 & Hm & Ho & _).
    exists m. split; [exact Hm | apply offered_elem, Ho].
  - intros r Hr. destruct (H4 r Hr) as (A & B & C & D & E).
    assert (step p ≠ select) as Hst.
    { intros Hsel. destruct (H2 Hsel) as (_ & Hfree & _). exact (Hfree r Hr). }
    destruct (H3 Hst) as (_ & m & s0 & Hm & Ho & _).
    assert (m = r_method r) as -> by congruence.
    repeat (split; [assumption|]). split; [apply offered_elem, Ho|].
    split; assumption.
Qed.

(** A whole visit: select e-mail, ask for the code again, type the code
    and submit it while the resend is still pending. *)
Lemma setup_page_invariant_witness :
  let p := pageRun (Some "s3") (JsArray [Some "email"; Some "totp"])
             Examples.asciiTrim initialPage
             [ClickMethod sms; ClickMethod email;
              SetupDataSettles
                (fulfilled {| autoCompleted := false; deviceId := None;
                              maskedEmail := Some "a***@example.com";
                              maskedPhone := None |});
              ClickResend; ClickResend;
              TypeCode "12 34 56"; SubmitCode] in
  calls p
  = [GetSetupData "s3" email;
     ResendCode "s3";
     RespondToChallenge
       {| r_type := MFA_SETUP_REQUIRED; r_session := "s3"; r_method := email;
          r_setupData := Code "123456" |}]
  ∧ pendingSetup p + pendingRespond p = 1
  ∧ pendingResend p = 1
  ∧ loading p = true
  ∧ resendLoading p = true.
Proof.
  pose proof (setup_page_invariant (Some "s3")
                (JsArray [Some "email"; Some "totp"]) Examples.asciiTrim
                [ClickMethod sms; ClickMethod email;
                 SetupDataSettles
                   (fulfilled {| autoCompleted := false; deviceId := None;
                                 maskedEmail := Some "a***@example.com";
                                 maskedPhone := None |});
                 ClickResend; ClickResend;
                 TypeCode "12 34 56"; SubmitCode]) as (H1 & H2 & _).
  exact (conj eq_refl (conj H1 (conj H2 (conj eq_refl eq_refl)))).
Defined.

Lemma dead_end_step (sess : option string) (raw : RawMethods)
    (trim : string → string) (ev : Event) :
  dead_end sess raw → pageStep sess raw trim initialPage ev = initialPage.
Proof.
  intros Hd. destruct ev as [method| |value| | |o|o|o|]; try reflexivity.
  simpl. destruct (offered raw method) eqn:Ho; [|reflexivity].
  unfold handleSelectMethod.
  destruct Hd as [Hs|Hr].
  - destruct sess as [session|]; [|reflexivity]. rewrite Hs. reflexivity.
  - exfalso. apply offered_elem in Ho. rewrite Hr in Ho.
    apply elem_of_nil in Ho. exact Ho.
Qed.

(** X22: the dead ends of the setup page.  When the challenge has no
    session (or an empty one), or when its allowedMethods name neither
    e-mail nor SMS, nothing the user can do has any effect: the page
    stays as it was first shown; no SDK call is made and the page never
    navigates. *)
Theorem setup_dead_end (sess : option string) (raw : RawMethods)
    (trim : string → string) (evs : list Event) :
  truthy sess = false ∨ allowedMethods raw = [] →
  pageRun sess raw trim initialPage evs = initialPage.
Proof.
  intros Hd. induction evs as [|ev evs IH]; [reflexivity|].
  simpl. rewrite dead_end_step by exact Hd. exact IH.
Qed.

Lemma setup_dead_end_witness :
  pageRun (Some "s3") (JsArray [Some "totp"]) Examples.asciiTrim initialPage
    [ClickMethod email; ClickMethod sms; ClickContinue; SubmitCode]
  = initialPage.
Proof.
  exact (setup_dead_end (Some "s3") (JsArray [Some "totp"]) Examples.asciiTrim
           [ClickMethod email; ClickMethod sms; ClickContinue; SubmitCode]
           (or_intror eq_refl)).
Defined.

(** X23: setup data that report autoCompleted without a deviceId.  The
    page goes to step auto-completed with no device id, and from then on
    the Continue button (like every other event) has no effect: the guard
    of line 90 returns, respondToChallenge is never called and the page
    never navigates. *)
Theorem auto_completed_without_device (sess : option string)
    (raw : RawMethods) (trim : string → string) (evs0 : list Event)
    (data : SetupData) (evs : list Event) :
  let p0 := pageRun sess raw trim initialPage evs0 in
  pendingSetup p0 = 1 →
  autoCompleted data = true →
  deviceId data = None →
  let p1 := pageStep sess raw trim p0 (SetupDataSettles (fulfilled data)) in
  step p1 = auto_completed
  ∧ autoCompletedDeviceId p1 = None
  ∧ pageRun sess raw trim p1 evs = p1.
Proof.
  intros p0 Hps Hac Hd p1.
  pose proof (PageInv_run sess raw trim initialPage evs0 (PageInv_init sess raw))
    as HI. fold p0 in HI.
  pose proof (ResendInv_run sess raw trim initialPage evs0
                (PageInv_init sess raw) (ResendInv_init sess)) as HR.
  fold p0 in HR.
  assert (step p0 = select) as Hst.
  { destruct (step p0) eqn:E; [reflexivity| |];
      destruct (pi_chosen _ _ _ HI) as [Hz _]; congruence || lia. }
  destruct (pi_select _ _ _ HI Hst) as (Hr & _).
  destruct (ri_otp _ _ HR) as [Hrp Hrc]; [congruence|].
  assert (resendLoading p0 = false) as Hrl.
  { pose proof (ri_one _ _ HR) as R1. rewrite Hrp in R1.
    destruct (resendLoading p0); [discriminate|reflexivity]. }
  assert (p1 = {| step := auto_completed; selectedMethod := selectedMethod p0;
                  maskedDestination := maskedDestination p0;
                  autoCompletedDeviceId := None; code := code p0;
                  loading := false;
                  resendLoading := false; resendCooldown := 0%Z;
                  error := error p0;
                  pendingSetup := 0; pendingRespond := 0; pendingResend := 0;
                  calls := calls p0; navigations := navigations p0 |}) as ->.
  { subst p1. unfold pageStep. cbv beta iota. rewrite ?Hst, Hps.
    unfold setupDataSettled, fulfilled.
    rewrite Hac, Hd, Hps, Hr, Hrp, Hrc, Hrl. reflexivity. }
  split; [reflexivity|]. split; [reflexivity|].
  induction evs as [|ev evs IH]; [reflexivity|].
  simpl. replace (pageStep sess raw trim _ ev) with
    {| step := auto_completed; selectedMethod := selectedMethod p0;
       maskedDestination := maskedDestination p0;
       autoCompletedDeviceId := None; code := code p0;
       loading := false;
       resendLoading := false; resendCooldown := 0%Z;
       error := error p0;
       pendingSetup := 0; pendingRespond := 0; pendingResend := 0;
       calls := calls p0; navigations := navigations p0 |}; [exact IH|].
  destruct ev as [method| |value| | |o|o|o|]; try reflexivity.
  simpl. unfold handleContinueAutoCompleted. simpl.
  destruct sess as [session|]; [|reflexivity].
  destruct (selectedMethod p0); reflexivity.
Qed.

Lemma auto_completed_without_device_witness :
  let p1 := pageRun (Some "s3") NotAnArray Examples.asciiTrim initialPage
              [ClickMethod sms;
               SetupDataSettles
                 (fulfilled {| autoCompleted := true; deviceId := None;
                               maskedEmail := None; maskedPhone := None |})] in
  step p1 = auto_completed
  ∧ pageRun (Some "s3") NotAnArray Examples.asciiTrim p1
      [ClickContinue; ClickContinue] = p1.
Proof.
  pose proof (auto_completed_without_device (Some "s3") NotAnArray
                Examples.asciiTrim [ClickMethod sms]
                {| autoCompleted := true; deviceId := None;
                   maskedEmail := None; maskedPhone := None |}
                [ClickContinue; ClickContinue] eq_refl eq_refl eq_refl)
    as (H1 & _ & H3).
  exact (conj H1 H3).
Defined.

End SetupExtras.

(** ** The servers *)

Module ServerExtras.
Import Server.

#[local] Set Warnings "-clear-no-such-hyp".

Lemma set_values_elem (seen l : list string) (x : string) :
  x ∈ set_values seen l ↔ x ∈ l ∧ x ∉ seen.
Proof.
  revert seen. induction l as [|y l IH]; intros seen; simpl.
  - split; [intros H | intros [H _]]; apply elem_of_nil in H; destruct H.
  - case_bool_decide as Hy.
    + rewrite IH, elem_of_cons. split; [intros [H1 H2]; auto|].
      intros [[->|H1] H2]; [contradiction | auto].
    + rewrite !elem_of_cons, IH, elem_of_cons. split.
      * intros [->|[H1 H2]]; [auto|]. split; [auto|].
        intros H. apply H2. right. exact H.
      * intros [[->|H1] H2]; [auto|].
        destruct (decide (x = y)) as [->|Hne]; [auto|]. right.
        split; [exact H1|]. intros [E|H]; [congruence|contradiction].
Qed.

Lemma set_values_NoDup (seen l : list string) : NoDup (set_values seen l).
Proof.
  revert seen. induction l as [|y l IH]; intros seen; simpl; [constructor|].
  case_bool_decide as Hy; [apply IH|]. constructor; [|apply IH].
  rewrite set_values_elem. intros [_ Hn]. apply Hn. left.
Qed.

Lemma set_values_id (seen l : list string) :
  NoDup l → (∀ x, x ∈ l → x ∉ seen) → set_values seen l = l.
Proof.
  revert seen. induction l as [|y l IH]; intros seen Hnd Hs; [reflexivity|].
  apply NoDup_cons in Hnd as [Hy Hnd]. simpl.
  rewrite bool_decide_eq_false_2 by (apply Hs; left).
  f_equal. apply IH; [exact Hnd|].
  intros x Hx [->|H]%elem_of_cons; [contradiction|].
  revert H. apply Hs. right. exact Hx.
Qed.

Lemma filterBoolean_elem (l : list (option string)) (x : string) :
  x ∈ filterBoolean l ↔ Some x ∈ l ∧ x ≠ "".
Proof.
  unfold filterBoolean. rewrite list_elem_of_omap. split.
  - intros ([s|] & Hin & E); [|discriminate].
    destruct (String.eqb_spec s ""); [discriminate|].
    injection E as ->. auto.
  - intros [Hin Hne]. exists (Some x). split; [exact Hin|].
    destruct (String.eqb_spec x ""); [contradiction|reflexivity].
Qed.

(** X24: the allowed origins.  The list has no duplicates, also when an
    environment variable names one of the localhost origins or both name
    the same origin; it contains exactly the six localhost origins and
    the values of FRONTEND_BASE_URL and API_BASE_URL that are set and not
    empty; so it has between six and eight elements; and with neither
    variable set it is the localhost list itself. *)
Theorem allowed_origins (FRONTEND_BASE_URL API_BASE_URL : option string) :
  let origins := getAllowedOrigins FRONTEND_BASE_URL API_BASE_URL in
  NoDup origins
  ∧ (∀ x, x ∈ origins
          ↔ x ∈ ["http://localhost:3000"; "http://localhost:4200";
                 "http://localhost:5173"; "http://localhost:5174";
                 "http://localhost:8080"; "http://localhost:8100"]
            ∨ (x ≠ "" ∧ (FRONTEND_BASE_URL = Some x ∨ API_BASE_URL = Some x)))
  ∧ 6 ≤ length origins ∧ length origins ≤ 8
  ∧ getAllowedOrigins None None
    = ["http://localhost:3000"; "http://localhost:4200";
       "http://localhost:5173"; "http://localhost:5174";
       "http://localhost:8080"; "http://localhost:8100"].
Proof.
  intros origins. subst origins. unfold getAllowedOrigins.
  assert (localhost
          = ["http://localhost:3000"; "http://localhost:4200";
             "http://localhost:5173"; "http://localhost:5174";
             "http://localhost:8080"; "http://localhost:8100"]) as Hl
    by reflexivity.
  assert (NoDup localhost) as Hnd.
  { rewrite Hl. repeat constructor; set_solver. }
  set (env := filterBoolean [FRONTEND_BASE_URL; API_BASE_URL]).
  assert (Hmem : ∀ x, x ∈ set_values [] (env ++ localhost)
                      ↔ x ∈ localhost
                        ∨ (x ≠ "" ∧ (FRONTEND_BASE_URL = Some x
                                     ∨ API_BASE_URL = Some x))).
  { intros x. rewrite set_values_elem, elem_of_app. subst env.
    rewrite filterBoolean_elem, !elem_of_cons. split.
    - intros [[[[H|[H|H]] Hne]|H] _]; auto.
      apply elem_of_nil in H. destruct H.
    - intros [H|[Hne [H|H]]]; (split; [|apply not_elem_of_nil]); auto. }
  split; [apply set_values_NoDup|]. split; [rewrite <- Hl; exact Hmem|].
  split; [|split].
  - assert (localhost ⊆+ set_values [] (env ++ localhost)) as Hsub.
    { apply NoDup_submseteq; [exact Hnd|]. intros x Hx. apply Hmem. auto. }
    apply submseteq_length in Hsub. rewrite Hl in Hsub at 1. exact Hsub.
  - assert (set_values [] (env ++ localhost) ⊆+ env ++ localhost) as Hsub.
    { apply NoDup_submseteq; [apply set_values_NoDup|].
      intros x Hx. apply set_values_elem in Hx as [Hx _]. exact Hx. }
    apply submseteq_length in Hsub. rewrite length_app in Hsub.
    assert (length env ≤ 2) as He.
    { subst env. unfold filterBoolean.
      destruct FRONTEND_BASE_URL as [f|], API_BASE_URL as [a|]; simpl;
        repeat (match goal with |- context [String.eqb ?s ""] =>
                  destruct (String.eqb s "") end; simpl); lia. }
    rewrite Hl in Hsub at 2. simpl in Hsub. lia.
  - reflexivity.
Qed.

(** *** The path of the error reply *)

Lemma before_query_clean (url : string) : has_query (before_query url) = false.
Proof.
  induction url as [|a s IH]; [reflexivity|]. simpl.
  destruct (Ascii.eqb a question_mark) eqn:E; [reflexivity|]. simpl.
  rewrite E. exact IH.
Qed.

Lemma before_query_id (url : string) :
  has_query url = false → before_query url = url.
Proof.
  induction url as [|a s IH]; [reflexivity|]. simpl. intros H.
  apply orb_false_iff in H as [Ha Hs]. rewrite Ha, IH by exact Hs. reflexivity.
Qed.

Lemma before_query_split (url : string) :
  has_query url = true →
  ∃ rest, url = before_query url +:+ String question_mark rest.
Proof.
  induction url as [|a s IH]; [discriminate|]. simpl. intros H.
  destruct (Ascii.eqb a question_mark) eqn:E.
  - apply Ascii.eqb_eq in E. subst a. exists s. reflexivity.
  - simpl in H. destruct (IH H) as [rest Er]. exists rest.
    change (String a s = String a (before_query s +:+ String question_mark rest)).
    f_equal. exact Er.
Qed.

(** X25: the path of an error reply of the Fastify server never carries
    the query string.  Whatever was thrown, the body's [path] is the URL
    up to its first question mark (replacing a [path] that toJSON() may
    have set): it contains no question mark, it is the whole URL when the
    URL has none, and otherwise the URL is this path, a question mark,
    and the rest.  An error that is no NAuthException is answered with
    status 500. *)
Theorem error_reply_path (Json : Type) (str : string → Json)
    (getHttpStatusForErrorCode : string → Z) (err : Thrown Json)
    (url now : string) :
  let reply := errorHandler Json str getHttpStatusForErrorCode err url now in
  reply.2 !! "path" = Some (str (before_query url))
  ∧ has_query (before_query url) = false
  ∧ (has_query url = false → before_query url = url)
  ∧ (has_query url = true →
     ∃ rest, url = before_query url +:+ String question_mark rest)
  ∧ (∀ message, err = OtherThrown Json message → reply.1 = 500%Z).
Proof.
  intros reply. split.
  - subst reply. destruct err; simpl; apply lookup_insert_eq.
  - split; [apply before_query_clean|].
    split; [apply before_query_id|].
    split; [apply before_query_split|].
    intros message ->. reflexivity.
Qed.

End ServerExtras.
